(** * Node drain orchestration: the two terminator sources, embedded and checked

    The repository carries two versions of [terminator.go]:

    - [vendor/sigs.k8s.io/karpenter/pkg/controllers/node/termination/terminator/terminator.go],
      embedded below as [Module Vendored];
    - the second terminator source (the one with [DeleteExpiringPods] and
      [EvictInOrder]), embedded below as [Module Part000].

    Both are translated function by function.  Go values are modelled as
    follows.

    - A Go function that can fault (nil pointer dereference, write into a nil
      map) returns in the type [go]; its [(value, error)] result pair is kept
      as a pair whose error component is an [option error] ([None] is [nil]).
    - Pointers that the code compares with [nil] or dereferences are
      [option]s; [*p] is [deref p].
    - Go maps keyed by strings are [gmap string _]; a map that the code may
      find [nil] and then writes to is an [option (gmap _ _)].
    - [int32] counters are [Z] with the wrap-around written out.
    - [float64] values are the binary64 numbers of the Standard Library's
      [SpecFloat], with its rounding.
    - The API server, the eviction queue and the event recorder are outside
      the program.  Their answers are parameters of a [Section]; the requests
      the code sends them are recorded, in order, in the terminator state. *)

From Stdlib Require Import ZArith String Bool Lia SpecFloat.
From stdpp Require Import gmap strings list fin_maps.

Local Open Scope string_scope.
Local Open Scope Z_scope.
Local Open Scope list_scope.

(** ** Go runtime *)

Inductive panic : Type :=
  | nil_pointer_dereference
  | assignment_to_entry_in_nil_map.

Inductive go (A : Type) : Type :=
  | ret (a : A)
  | panics (p : panic).
Arguments ret {A} a.
Arguments panics {A} p.

Global Instance go_ret : MRet go := fun A a => ret a.
Global Instance go_bind : MBind go := fun A B k m =>
  match m with
  | ret a => k a
  | panics p => panics p
  end.

(** [*p] for a pointer [p]. *)
Definition deref {A : Type} (p : option A) : go A :=
  match p with
  | Some a => ret a
  | None => panics nil_pointer_dereference
  end.

Definition int32 (z : Z) : Z := (z + 2147483648) mod 4294967296 - 2147483648.
Definition int64 (z : Z) : Z :=
  (z + 9223372036854775808) mod 18446744073709551616 - 9223372036854775808.

(** ** API objects (the fields the terminator reads or writes) *)

Record OwnerReference : Type := {
  ref_Kind : string;
  ref_Name : string;
  ref_Controller : option bool            (* *bool *)
}.

Record Pod : Type := {
  pod_Namespace : string;
  pod_Name : string;
  pod_OwnerReferences : list OwnerReference;
  PriorityClassName : string;
  TerminationGracePeriodSeconds : option Z    (* *int64 *)
}.

Record ReplicaSet : Type := {
  rs_Namespace : string;
  rs_Name : string;
  rs_OwnerReferences : list OwnerReference
}.

Record Deployment : Type := {
  dep_Namespace : string;
  dep_Name : string;
  Replicas : option Z;                               (* Spec.Replicas, *int32 *)
  Annotations : option (gmap string string)          (* Spec.Template.Annotations *)
}.

Record corev1_Taint : Type := {
  taint_Key : string;
  taint_Value : string;
  taint_Effect : string
}.

(** Labels: a nil map and an empty map are not told apart, as
    [equality.Semantic.DeepEqual] does not tell them apart either. *)
Record Node : Type := {
  node_Name : string;
  Taints : list corev1_Taint;
  Labels : gmap string string
}.

(** ** Errors *)

#[warnings="-register-all"] Inductive error : Type :=
  | StatusError (reason : string)             (* an error answered by the API client *)
  | Errorf_w (msg : string) (err : error)     (* fmt.Errorf("<msg>, %w", err) *)
  | Errorf_v (msg : string) (errs : list error) (* fmt.Errorf("<msg>: %v", errs) *)
  | Errorf_d (n : Z) (msg : string)           (* fmt.Errorf("%d <msg>", n) *)
  | Errorf_d_pods (pods : list Pod) (msg : string) (* fmt.Errorf("%d <msg>", pods) *)
  | NodeDrainError (err : error).             (* NewNodeDrainError(err) *)

(** [apierrors.IsNotFound]: the reason of the first status error reached by
    unwrapping. *)
Fixpoint IsNotFound (err : error) : bool :=
  match err with
  | StatusError reason => String.eqb reason "NotFound"
  | Errorf_w _ err' => IsNotFound err'
  | _ => false
  end.

Definition IsNodeDrainError (err : option error) : bool :=
  match err with
  | Some (NodeDrainError _) => true
  | _ => false
  end.

Global Instance OwnerReference_eq_dec : EqDecision OwnerReference.
Proof. solve_decision. Defined.
Global Instance Pod_eq_dec : EqDecision Pod.
Proof. solve_decision. Defined.
Global Instance Deployment_eq_dec : EqDecision Deployment.
Proof. solve_decision. Defined.
Global Instance Taint_eq_dec : EqDecision corev1_Taint.
Proof. solve_decision. Defined.
Global Instance Node_eq_dec : EqDecision Node.
Proof. solve_decision. Defined.

(** The answer of [kubeClient.Get]. *)
Inductive fetched (A : Type) : Type :=
  | Found (obj : A)
  | Failed (err : error).
Arguments Found {A} obj.
Arguments Failed {A} err.

(** Requests sent to the API server, in the order sent. *)
Inductive request : Type :=
  | UpdateDeployment (deployment : Deployment)
  | PatchNode (node stored : Node)
  | DeletePod (pod : Pod) (gracePeriodSeconds : Z).

Definition LabelNodeExcludeBalancers : string :=
  "node.kubernetes.io/exclude-from-external-load-balancers".

(** [corev1.Taint.MatchTaint]: same key and same effect; the value is not
    compared. *)
Definition MatchTaint (t taintToMatch : corev1_Taint) : bool :=
  String.eqb (taint_Key t) (taint_Key taintToMatch)
  && String.eqb (taint_Effect t) (taint_Effect taintToMatch).

(** [lo.Assign]: later maps win. *)
Definition lo_Assign {V : Type} (maps : list (gmap string V)) : gmap string V :=
  foldl (fun out m => m ∪ out) ∅ maps.

(** [lo.Find], [lo.Reject], [lo.Filter], [lo.CountBy]. *)
Definition lo_Find {A : Type} (collection : list A) (predicate : A -> bool) : option A :=
  List.find predicate collection.
Definition lo_Reject {A : Type} (collection : list A) (predicate : A -> bool) : list A :=
  List.filter (fun x => negb (predicate x)) collection.
Definition lo_Filter {A : Type} (collection : list A) (predicate : A -> bool) : list A :=
  List.filter predicate collection.
Definition lo_CountBy {A : Type} (collection : list A) (predicate : A -> bool) : Z :=
  Z.of_nat (length (List.filter predicate collection)).

(** ** vendor/sigs.k8s.io/karpenter/.../terminator/terminator.go *)

Module Vendored.

(** [Terminator]: [kubeClient] holds the requests sent so far and
    [evictionQueue] the argument lists of the [Add] calls so far.  An absent
    key of [nodeRestartDeployments] is a nil inner map. *)
Record Terminator : Type := {
  kubeClient : list request;
  nodeRestartDeployments : gmap string (gset string);
  evictionQueue : list (list Pod)
}.

Definition NewTerminator : Terminator :=
  {| kubeClient := []; nodeRestartDeployments := ∅; evictionQueue := [] |}.

Definition set_kubeClient (t : Terminator) (c : list request) : Terminator :=
  {| kubeClient := c;
     nodeRestartDeployments := nodeRestartDeployments t;
     evictionQueue := evictionQueue t |}.
Definition set_nodeRestartDeployments (t : Terminator) (m : gmap string (gset string))
  : Terminator :=
  {| kubeClient := kubeClient t;
     nodeRestartDeployments := m;
     evictionQueue := evictionQueue t |}.

(** [t.evictionQueue.Add(pods...)] *)
Definition evictionQueue_Add (t : Terminator) (pods : list Pod) : Terminator :=
  {| kubeClient := kubeClient t;
     nodeRestartDeployments := nodeRestartDeployments t;
     evictionQueue := evictionQueue t ++ [pods] |}.

Definition set_Annotations (d : Deployment) (a : option (gmap string string)) : Deployment :=
  {| dep_Namespace := dep_Namespace d; dep_Name := dep_Name d;
     Replicas := Replicas d; Annotations := a |}.
Definition set_Taints (n : Node) (ts : list corev1_Taint) : Node :=
  {| node_Name := node_Name n; Taints := ts; Labels := Labels n |}.
Definition set_Labels (n : Node) (ls : gmap string string) : Node :=
  {| node_Name := node_Name n; Taints := Taints n; Labels := ls |}.

Section WithCluster.

(** Answers of the API server and of the pod helpers of [utils/pod] and
    [utils/node], which are not part of this file. *)
Variable kubeGetReplicaSet : string -> string -> fetched ReplicaSet. (* namespace, name *)
Variable kubeGetDeployment : string -> string -> fetched Deployment.
Variable kubeUpdate : Deployment -> option error.
Variable GetPods : Node -> list Pod * option error.
Variable IsEvictable : Pod -> bool.
Variable IsWaitingEviction : Pod -> bool.
Variable IsOwnedByDaemonSet : Pod -> bool.

Fixpoint getOwnerReplicaSet_loop (podNamespace : string) (ownerRefs : list OwnerReference)
  : option ReplicaSet * option error :=
  match ownerRefs with
  | [] => (None, None)
  | ownerRef :: rest =>
      if bool_decide (ref_Controller ownerRef <> None)
         && String.eqb (ref_Kind ownerRef) "ReplicaSet"
      then
        match kubeGetReplicaSet podNamespace (ref_Name ownerRef) with
        | Failed err => (None, Some (Errorf_w "get ReplicaSet" err))
        | Found rs => (Some rs, None)
        end
      else getOwnerReplicaSet_loop podNamespace rest
  end.

Definition getOwnerReplicaSet (pod : Pod) : option ReplicaSet * option error :=
  getOwnerReplicaSet_loop (pod_Namespace pod) (pod_OwnerReferences pod).

Fixpoint getOwnerDeployment_loop (rsNamespace : string) (ownerRefs : list OwnerReference)
  : option Deployment * option error :=
  match ownerRefs with
  | [] => (None, None)
  | ownerRef :: rest =>
      if bool_decide (ref_Controller ownerRef <> None)
         && String.eqb (ref_Kind ownerRef) "Deployment"
      then
        match kubeGetDeployment rsNamespace (ref_Name ownerRef) with
        | Failed err => (None, Some (Errorf_w "get Deployment" err))
        | Found deployment => (Some deployment, None)
        end
      else getOwnerDeployment_loop rsNamespace rest
  end.

Definition getOwnerDeployment (rs : ReplicaSet) : option Deployment * option error :=
  getOwnerDeployment_loop (rs_Namespace rs) (rs_OwnerReferences rs).

Definition GetDeploymentFromPod (pod : Pod) : option Deployment * option error :=
  match getOwnerReplicaSet pod with
  | (_, Some err) => (None, Some (Errorf_w "failed to get ReplicaSet from Pod" err))
  | (None, None) => (None, None)
  | (Some rs, None) =>
      match getOwnerDeployment rs with
      | (_, Some err) => (None, Some (Errorf_w "failed to get Deployment from ReplicaSet" err))
      | (deployment, None) => (deployment, None)
      end
  end.

(** The cache maps a pod key to a pointer that may be nil. *)
Definition getDeploymentFromCache (pod : Pod) (cache : gmap string (option Deployment))
  : gmap string (option Deployment) * option Deployment * option error :=
  let key := pod_Namespace pod +:+ "/" +:+ pod_Name pod in
  match cache !! key with
  | Some deployment => (cache, deployment, None)
  | None =>
      match GetDeploymentFromPod pod with
      | (_, Some err) => (cache, None, Some err)
      | (deployment, None) => (<[key := deployment]> cache, deployment, None)
      end
  end.

(** The first loop of [GetRestartdeploymentsAndDrainPods]: the tally. *)
Fixpoint tally_loop (pods : list Pod)
    (nodeDeploymentReplicas : gmap string Z) (deploymentCache : gmap string (option Deployment))
  : gmap string Z * gmap string (option Deployment) * option error :=
  match pods with
  | [] => (nodeDeploymentReplicas, deploymentCache, None)
  | pod :: rest =>
      match getDeploymentFromCache pod deploymentCache with
      | (cache', _, Some err) => (nodeDeploymentReplicas, cache', Some err)
      | (cache', None, None) => tally_loop rest nodeDeploymentReplicas cache'
      | (cache', Some deployment, None) =>
          let key := dep_Namespace deployment +:+ "/" +:+ dep_Name deployment in
          tally_loop rest
            (<[key := int32 (default 0 (nodeDeploymentReplicas !! key) + 1)]>
               nodeDeploymentReplicas)
            cache'
      end
  end.

(** The second loop: classification.  [deployment.Namespace] is read before
    [deployment] is compared with nil. *)
Fixpoint classify_loop (nodeName : string) (t : Terminator) (pods : list Pod)
    (nodeDeploymentReplicas : gmap string Z) (deploymentCache : gmap string (option Deployment))
    (uniqueDeployments : gset string)
    (restartDeployments : list Deployment) (drainPods : list Pod)
  : go (list Deployment * list Pod) :=
  match pods with
  | [] => ret (restartDeployments, drainPods)
  | pod :: rest =>
      let deployment :=
        default None (deploymentCache !! (pod_Namespace pod +:+ "/" +:+ pod_Name pod)) in
      d ← deref deployment;
      let key := dep_Namespace d +:+ "/" +:+ dep_Name d in
      allHere ← match deployment with
                | Some d' =>
                    replicas ← deref (Replicas d');
                    ret (default 0 (nodeDeploymentReplicas !! key) =? replicas)
                | None => ret false
                end;
      if (allHere : bool) then
        if bool_decide (key ∈ uniqueDeployments)
        then classify_loop nodeName t rest nodeDeploymentReplicas deploymentCache
               uniqueDeployments restartDeployments drainPods
        else classify_loop nodeName t rest nodeDeploymentReplicas deploymentCache
               ({[key]} ∪ uniqueDeployments) (restartDeployments ++ [d]) drainPods
      else
        if match deployment with
           | Some _ =>
               bool_decide (key ∈ default ∅ (nodeRestartDeployments t !! nodeName))
           | None => false
           end
        then classify_loop nodeName t rest nodeDeploymentReplicas deploymentCache
               uniqueDeployments restartDeployments drainPods
        else classify_loop nodeName t rest nodeDeploymentReplicas deploymentCache
               uniqueDeployments restartDeployments (drainPods ++ [pod])
  end.

Definition GetRestartdeploymentsAndDrainPods (t : Terminator) (pods : list Pod) (nodeName : string)
  : go (list Deployment * list Pod * option error) :=
  match tally_loop pods ∅ ∅ with
  | (_, _, Some err) => ret ([], [], Some err)
  | (nodeDeploymentReplicas, deploymentCache, None) =>
      '(restartDeployments, drainPods) ←
        classify_loop nodeName t pods nodeDeploymentReplicas deploymentCache ∅ [] [];
      ret (restartDeployments, drainPods, None)
  end.

(** The body of the loop of [RestartDeployments] for one deployment: the state
    after it, the deployment as the body leaves it (it is written to in
    place), and the error of [Update], if it was called and failed. *)
Definition RestartDeployments_body (nodeName : string) (t : Terminator) (deployment : Deployment)
  : go (Terminator * Deployment * option error) :=
  let annotations := match Annotations deployment with
                     | None => ∅
                     | Some a => a
                     end in
  let deployment := set_Annotations deployment (Some annotations) in
  if match annotations !! "kubectl.kubernetes.io/restartedNode" with
     | Some restartedNode => String.eqb restartedNode nodeName
     | None => false
     end
  then ret (t, deployment, None)
  else
    inner ← match nodeRestartDeployments t !! nodeName with
            | Some inner => ret inner
            | None => panics assignment_to_entry_in_nil_map
            end;
    let key := dep_Namespace deployment +:+ "/" +:+ dep_Name deployment in
    let t := set_nodeRestartDeployments t
               (<[nodeName := {[key]} ∪ inner]> (nodeRestartDeployments t)) in
    let deployment := set_Annotations deployment
               (Some (<["kubectl.kubernetes.io/restartedNode" := nodeName]> annotations)) in
    let t := set_kubeClient t (kubeClient t ++ [UpdateDeployment deployment]) in
    ret (t, deployment, kubeUpdate deployment).

Fixpoint RestartDeployments_loop (nodeName : string) (t : Terminator)
    (deployments : list Deployment) (updateErrors : list error)
  : go (Terminator * list Deployment * list error) :=
  match deployments with
  | [] => ret (t, [], updateErrors)
  | deployment :: rest =>
      '(t, deployment, err) ← RestartDeployments_body nodeName t deployment;
      '(t, rest, updateErrors) ←
        RestartDeployments_loop nodeName t rest
          (match err with
           | Some err => updateErrors ++ [err]
           | None => updateErrors
           end);
      ret (t, deployment :: rest, updateErrors)
  end.

(** [RestartDeployments]: besides the state and the error it gives back the
    deployments as the call leaves them. *)
Definition RestartDeployments (t : Terminator) (deployments : list Deployment) (nodeName : string)
  : go (Terminator * list Deployment * option error) :=
  '(t, deployments, updateErrors) ← RestartDeployments_loop nodeName t deployments [];
  if (0 <? Z.of_nat (length updateErrors))
  then ret (t, deployments, Some (Errorf_v "failed to restart some deployment" updateErrors))
  else ret (t, deployments, None).

Definition isCritical (pod : Pod) : bool :=
  String.eqb (PriorityClassName pod) "system-cluster-critical"
  || String.eqb (PriorityClassName pod) "system-node-critical".

(** The four slices of [Evict], filled in the order of the pods. *)
Record tiers : Type := {
  criticalNonDaemon : list Pod;
  criticalDaemon : list Pod;
  nonCriticalNonDaemon : list Pod;
  nonCriticalDaemon : list Pod
}.

Fixpoint Evict_loop (pods : list Pod) (acc : tiers) : tiers :=
  match pods with
  | [] => acc
  | pod :: rest =>
      Evict_loop rest
        (if isCritical pod then
           if IsOwnedByDaemonSet pod
           then {| criticalNonDaemon := criticalNonDaemon acc;
                   criticalDaemon := criticalDaemon acc ++ [pod];
                   nonCriticalNonDaemon := nonCriticalNonDaemon acc;
                   nonCriticalDaemon := nonCriticalDaemon acc |}
           else {| criticalNonDaemon := criticalNonDaemon acc ++ [pod];
                   criticalDaemon := criticalDaemon acc;
                   nonCriticalNonDaemon := nonCriticalNonDaemon acc;
                   nonCriticalDaemon := nonCriticalDaemon acc |}
         else
           if IsOwnedByDaemonSet pod
           then {| criticalNonDaemon := criticalNonDaemon acc;
                   criticalDaemon := criticalDaemon acc;
                   nonCriticalNonDaemon := nonCriticalNonDaemon acc;
                   nonCriticalDaemon := nonCriticalDaemon acc ++ [pod] |}
           else {| criticalNonDaemon := criticalNonDaemon acc;
                   criticalDaemon := criticalDaemon acc;
                   nonCriticalNonDaemon := nonCriticalNonDaemon acc ++ [pod];
                   nonCriticalDaemon := nonCriticalDaemon acc |})
  end.

Definition Evict (t : Terminator) (pods : list Pod) : Terminator :=
  let ts := Evict_loop pods
              {| criticalNonDaemon := []; criticalDaemon := [];
                 nonCriticalNonDaemon := []; nonCriticalDaemon := [] |} in
  if negb (length (nonCriticalNonDaemon ts) =? 0)%nat then
    evictionQueue_Add t (nonCriticalNonDaemon ts)
  else if negb (length (nonCriticalDaemon ts) =? 0)%nat then
    evictionQueue_Add t (nonCriticalDaemon ts)
  else if negb (length (criticalNonDaemon ts) =? 0)%nat then
    evictionQueue_Add t (criticalNonDaemon ts)
  else if negb (length (criticalDaemon ts) =? 0)%nat then
    evictionQueue_Add t (criticalDaemon ts)
  else t.

Definition Drain (t : Terminator) (node : Node) : go (Terminator * option error) :=
  match GetPods node with
  | (_, Some err) => ret (t, Some (Errorf_w "listing pods on node" err))
  | (pods, None) =>
      '(restartDeployments, drainPods, err) ←
        GetRestartdeploymentsAndDrainPods t pods (node_Name node);
      match err with
      | Some err => ret (t, Some (Errorf_w "get deployment and drain pod from node" err))
      | None =>
          '(t, _, err) ← RestartDeployments t restartDeployments (node_Name node);
          match err with
          | Some err => ret (t, Some (Errorf_w "restart deployments from node" err))
          | None =>
              let evictablePods := lo_Filter drainPods IsEvictable in
              let t := Evict t evictablePods in
              let podsWaitingEvictionCount := lo_CountBy pods IsWaitingEviction in
              if 0 <? podsWaitingEvictionCount
              then ret (t, Some (NodeDrainError
                                   (Errorf_d (Z.of_nat (length pods))
                                      "pods are waiting to be evicted")))
              else ret (set_nodeRestartDeployments t
                          (delete (node_Name node) (nodeRestartDeployments t)), None)
          end
      end
  end.

(** [Taint].  The disruption taint, its key and the test for it are
    declared in the package [apis/v1beta1], which is not part of this file:
    they are parameters here. *)
Variable kubePatch : Node -> Node -> option error.       (* node, stored *)
Variable IsDisruptingTaint : corev1_Taint -> bool.
Variable DisruptionTaintKey : string.
Variable DisruptionNoScheduleTaint : corev1_Taint.

Definition Taint (t : Terminator) (node : Node) : Terminator * Node * option error :=
  let stored := node in
  let node :=
    match lo_Find (Taints node) (fun t => IsDisruptingTaint t) with
    | Some _ => node
    | None =>
        let node := set_Taints node
                      (lo_Reject (Taints node)
                         (fun t => String.eqb (taint_Key t) DisruptionTaintKey)) in
        set_Taints node (Taints node ++ [DisruptionNoScheduleTaint])
    end in
  let node := set_Labels node
                (lo_Assign [Labels node; {[LabelNodeExcludeBalancers := "karpenter"]}]) in
  if negb (bool_decide (node = stored)) then
    let t := set_kubeClient t (kubeClient t ++ [PatchNode node stored]) in
    match kubePatch node stored with
    | Some err => (t, node, Some err)
    | None => (t, node, None)
    end
  else (t, node, None).

End WithCluster.

End Vendored.

(** ** The second terminator source (part_000) *)

(** *** Package [time], as far as the terminator uses it

    A [time.Time] is an instant in nanoseconds since the epoch, and a
    [time.Duration] is an [int64] count of nanoseconds. *)

Definition Time : Type := Z.
Definition Duration : Type := Z.

Definition time_Second : Duration := 1000000000.
Definition maxDuration : Duration := 9223372036854775807.
Definition minDuration : Duration := -9223372036854775808.

Definition Time_Add (t : Time) (d : Duration) : Time := t + d.
Definition Time_After (t u : Time) : bool := u <? t.

(** [t.Sub(u)] saturates at the ends of [Duration]. *)
Definition Time_Sub (t u : Time) : Duration :=
  if maxDuration <? t - u then maxDuration
  else if t - u <? minDuration then minDuration
  else t - u.

(** [d.Seconds()] of the Go library goes through [float64], and [int64(...)]
    truncates the result toward zero.  [float64] is IEEE 754 binary64 as the
    Standard Library specifies it ([SpecFloat]: 53 bits of precision, rounding
    to nearest, ties to even). *)
Definition float64 : Type := spec_float.
Definition float64_of_int64 (z : Z) : float64 := binary_normalize 53 1024 z 0 false.
Definition float64_add : float64 -> float64 -> float64 := SFadd 53 1024.
Definition float64_div : float64 -> float64 -> float64 := SFdiv 53 1024.

Definition minInt64 : Z := -9223372036854775808.
Definition maxInt64 : Z := 9223372036854775807.

(** [int64(f)].  For a value out of range, an infinity or a NaN the result is
    implementation-dependent in Go; the one of amd64 is taken.  [Seconds] of a
    [Duration] stays far from that. *)
Definition int64_of_float64 (f : float64) : Z :=
  match f with
  | S754_zero _ => 0
  | S754_finite s m e =>
      let v := cond_Zopp s (if 0 <=? e then Zpos m * 2 ^ e else Zpos m / 2 ^ (- e)) in
      if (minInt64 <=? v) && (v <=? maxInt64) then v else minInt64
  | _ => minInt64
  end.

(** [d.Seconds()]:
    [sec := d / Second; nsec := d % Second; return float64(sec) + float64(nsec)/1e9]. *)
Definition Duration_Seconds (d : Duration) : float64 :=
  let sec := Z.quot d time_Second in
  let nsec := Z.rem d time_Second in
  float64_add (float64_of_int64 sec)
    (float64_div (float64_of_int64 nsec) (float64_of_int64 1000000000)).

(** [int64(d.Seconds())] *)
Definition Duration_Seconds_int64 (d : Duration) : Z := int64_of_float64 (Duration_Seconds d).

Inductive event : Type :=
  | DisruptPodDelete (pod : Pod) (gracePeriodSeconds : Z) (nodeGracePeriodTerminationTime : Time).

Module Part000.

(** [Terminator]: [kubeClient] holds the requests sent so far,
    [evictionQueue] the argument lists of the [Add] calls so far, [recorder]
    the events published so far.  [timeNowCalls] counts the readings of the
    wall clock ([time.Now] and [time.Until]) made so far. *)
Record Terminator : Type := {
  kubeClient : list request;
  evictionQueue : list (list Pod);
  recorder : list event;
  timeNowCalls : nat
}.

Definition NewTerminator : Terminator :=
  {| kubeClient := []; evictionQueue := []; recorder := []; timeNowCalls := 0 |}.

Definition kubeClient_send (t : Terminator) (r : request) : Terminator :=
  {| kubeClient := kubeClient t ++ [r]; evictionQueue := evictionQueue t;
     recorder := recorder t; timeNowCalls := timeNowCalls t |}.
Definition evictionQueue_Add (t : Terminator) (pods : list Pod) : Terminator :=
  {| kubeClient := kubeClient t; evictionQueue := evictionQueue t ++ [pods];
     recorder := recorder t; timeNowCalls := timeNowCalls t |}.
Definition recorder_Publish (t : Terminator) (e : event) : Terminator :=
  {| kubeClient := kubeClient t; evictionQueue := evictionQueue t;
     recorder := recorder t ++ [e]; timeNowCalls := timeNowCalls t |}.
Definition tick (t : Terminator) : Terminator :=
  {| kubeClient := kubeClient t; evictionQueue := evictionQueue t;
     recorder := recorder t; timeNowCalls := S (timeNowCalls t) |}.

Definition set_Annotations (d : Deployment) (a : option (gmap string string)) : Deployment :=
  {| dep_Namespace := dep_Namespace d; dep_Name := dep_Name d;
     Replicas := Replicas d; Annotations := a |}.
Definition set_Taints (n : Node) (ts : list corev1_Taint) : Node :=
  {| node_Name := node_Name n; Taints := ts; Labels := Labels n |}.
Definition set_Labels (n : Node) (ls : gmap string string) : Node :=
  {| node_Name := node_Name n; Taints := Taints n; Labels := ls |}.

Section WithCluster.

(** Answers of the API server, the wall clock, and the pod helpers of
    [utils/pod] and [utils/node], which are not part of this file. *)
Variable kubeGetReplicaSet : string -> string -> fetched ReplicaSet. (* namespace, name *)
Variable kubeGetDeployment : string -> string -> fetched Deployment.
Variable kubeUpdate : Deployment -> option error.
Variable kubePatch : Node -> Node -> option error.       (* node, stored *)
Variable kubeDelete : Pod -> Z -> option error.          (* pod, grace period *)
Variable GetPods : Node -> list Pod * option error.
Variable wallClock : nat -> Time.                        (* the n-th reading *)
Variable IsEvictable : Pod -> bool.
Variable IsWaitingEviction : Pod -> bool.
Variable IsTerminating : Pod -> bool.
Variable IsOwnedByDaemonSet : Pod -> bool.

Definition Taint (t : Terminator) (node : Node) (taint : corev1_Taint)
  : Terminator * Node * option error :=
  let stored := node in
  let node :=
    match lo_Find (Taints node) (fun t => MatchTaint t taint) with
    | Some _ => node
    | None =>
        let node := set_Taints node
                      (lo_Reject (Taints node)
                         (fun t => String.eqb (taint_Key t) (taint_Key taint))) in
        set_Taints node (Taints node ++ [taint])
    end in
  let node := set_Labels node
                (lo_Assign [Labels node; {[LabelNodeExcludeBalancers := "karpenter"]}]) in
  if negb (bool_decide (node = stored)) then
    let t := kubeClient_send t (PatchNode node stored) in
    match kubePatch node stored with
    | Some err => (t, node, Some err)
    | None => (t, node, None)
    end
  else (t, node, None).

(** The two owner loops of [GetDeploymentFromPod]: [name] is the variable
    ([rsName], [dpName]) the loop assigns; [*ownerRef.Controller] is read
    first. *)
Fixpoint controllerOwner_loop (kind : string) (ownerRefs : list OwnerReference) (name : string)
  : go string :=
  match ownerRefs with
  | [] => ret name
  | ownerRef :: rest =>
      controller ← deref (ref_Controller ownerRef);
      if (controller : bool) && String.eqb (ref_Kind ownerRef) kind
      then ret (ref_Name ownerRef)
      else controllerOwner_loop kind rest name
  end.

Definition GetDeploymentFromPod (pod : Pod) : go (option Deployment * option error) :=
  rsName ← controllerOwner_loop "ReplicaSet" (pod_OwnerReferences pod) "";
  if String.eqb rsName "" then ret (None, None)
  else
    match kubeGetReplicaSet (pod_Namespace pod) rsName with
    | Failed err => ret (None, Some (Errorf_w "get rs" err))
    | Found replicaSet =>
        dpName ← controllerOwner_loop "Deployment" (rs_OwnerReferences replicaSet) "";
        if String.eqb dpName "" then ret (None, None)
        else
          match kubeGetDeployment (pod_Namespace pod) dpName with
          | Failed err => ret (None, Some (Errorf_w "get deployment" err))
          | Found deployment => ret (Some deployment, None)
          end
    end.

(** [RestartDeployments]: the marker is read under the key
    [restartedNode] and written under the key [restartedAt]; the first
    failed [Update] ends the call.  The deployments are handed back as the
    call leaves them. *)
Fixpoint RestartDeployments (t : Terminator) (deployments : list Deployment) (nodeName : string)
  : Terminator * list Deployment * option error :=
  match deployments with
  | [] => (t, [], None)
  | deployment :: rest =>
      let annotations := match Annotations deployment with
                         | None => ∅
                         | Some a => a
                         end in
      let deployment := set_Annotations deployment (Some annotations) in
      if match annotations !! "kubectl.kubernetes.io/restartedNode" with
         | Some restartedAt => String.eqb restartedAt nodeName
         | None => false
         end
      then
        let '(t, rest, err) := RestartDeployments t rest nodeName in
        (t, deployment :: rest, err)
      else
        let deployment := set_Annotations deployment
              (Some (<["kubectl.kubernetes.io/restartedAt" := nodeName]> annotations)) in
        let t := kubeClient_send t (UpdateDeployment deployment) in
        match kubeUpdate deployment with
        | Some err => (t, deployment :: rest, Some err)
        | None =>
            let '(t, rest, err) := RestartDeployments t rest nodeName in
            (t, deployment :: rest, err)
        end
  end.

Fixpoint tally_loop (nodePods : list Pod) (nodeDeploymentReplicas : gmap string Z)
  : go (gmap string Z * option error) :=
  match nodePods with
  | [] => ret (nodeDeploymentReplicas, None)
  | pod :: rest =>
      '(deployment, err) ← GetDeploymentFromPod pod;
      match err with
      | Some err => ret (nodeDeploymentReplicas, Some err)
      | None =>
          match deployment with
          | Some deployment =>
              let key := dep_Namespace deployment +:+ ":" +:+ dep_Name deployment in
              tally_loop rest
                (<[key := int32 (default 0 (nodeDeploymentReplicas !! key) + 1)]>
                   nodeDeploymentReplicas)
          | None => tally_loop rest nodeDeploymentReplicas
          end
      end
  end.

Fixpoint classify_loop (nodePods : list Pod) (nodeDeploymentReplicas : gmap string Z)
    (restartDeployments : list Deployment) (drainPods : list Pod)
  : go (list Deployment * list Pod * option error) :=
  match nodePods with
  | [] => ret (restartDeployments, drainPods, None)
  | pod :: rest =>
      '(deployment, err) ← GetDeploymentFromPod pod;
      match err with
      | Some err => ret ([], [], Some err)
      | None =>
          match deployment with
          | Some d =>
              replicas ← deref (Replicas d);
              if default 0 (nodeDeploymentReplicas !! (dep_Namespace d +:+ ":" +:+ dep_Name d))
                 =? replicas
              then classify_loop rest nodeDeploymentReplicas (restartDeployments ++ [d]) drainPods
              else classify_loop rest nodeDeploymentReplicas restartDeployments (drainPods ++ [pod])
          | None =>
              classify_loop rest nodeDeploymentReplicas restartDeployments (drainPods ++ [pod])
          end
      end
  end.

Definition GetdeploymentsAndDrainPodsFromNode (node : Node)
  : go (list Deployment * list Pod * option error) :=
  match GetPods node with
  | (_, Some err) => ret ([], [], Some (Errorf_w "listing pods on node" err))
  | (nodePods, None) =>
      '(nodeDeploymentReplicas, err) ← tally_loop nodePods ∅;
      match err with
      | Some err => ret ([], [], Some err)
      | None => classify_loop nodePods nodeDeploymentReplicas [] []
      end
  end.

Definition isCritical (pod : Pod) : bool :=
  String.eqb (PriorityClassName pod) "system-cluster-critical"
  || String.eqb (PriorityClassName pod) "system-node-critical".

(** The four slices of [Evict], filled in the order of the pods. *)
Record tiers : Type := {
  criticalNonDaemon : list Pod;
  criticalDaemon : list Pod;
  nonCriticalNonDaemon : list Pod;
  nonCriticalDaemon : list Pod
}.

Fixpoint Evict_loop (pods : list Pod) (acc : tiers) : tiers :=
  match pods with
  | [] => acc
  | pod :: rest =>
      Evict_loop rest
        (if isCritical pod then
           if IsOwnedByDaemonSet pod
           then {| criticalNonDaemon := criticalNonDaemon acc;
                   criticalDaemon := criticalDaemon acc ++ [pod];
                   nonCriticalNonDaemon := nonCriticalNonDaemon acc;
                   nonCriticalDaemon := nonCriticalDaemon acc |}
           else {| criticalNonDaemon := criticalNonDaemon acc ++ [pod];
                   criticalDaemon := criticalDaemon acc;
                   nonCriticalNonDaemon := nonCriticalNonDaemon acc;
                   nonCriticalDaemon := nonCriticalDaemon acc |}
         else
           if IsOwnedByDaemonSet pod
           then {| criticalNonDaemon := criticalNonDaemon acc;
                   criticalDaemon := criticalDaemon acc;
                   nonCriticalNonDaemon := nonCriticalNonDaemon acc;
                   nonCriticalDaemon := nonCriticalDaemon acc ++ [pod] |}
           else {| criticalNonDaemon := criticalNonDaemon acc;
                   criticalDaemon := criticalDaemon acc;
                   nonCriticalNonDaemon := nonCriticalNonDaemon acc ++ [pod];
                   nonCriticalDaemon := nonCriticalDaemon acc |})
  end.

Fixpoint EvictInOrder (t : Terminator) (pods : list (list Pod)) : Terminator :=
  match pods with
  | [] => t
  | podList :: rest =>
      if (0 <? length podList)%nat
      then evictionQueue_Add t podList
      else EvictInOrder t rest
  end.

Definition Evict (t : Terminator) (pods : list Pod) : Terminator :=
  let ts := Evict_loop pods
              {| criticalNonDaemon := []; criticalDaemon := [];
                 nonCriticalNonDaemon := []; nonCriticalDaemon := [] |} in
  EvictInOrder t
    [nonCriticalNonDaemon ts; nonCriticalDaemon ts; criticalNonDaemon ts; criticalDaemon ts].

Definition podDeleteTimeWithGracePeriod
    (nodeGracePeriodExpirationTime : option Time) (pod : Pod) : option Time :=
  match nodeGracePeriodExpirationTime, TerminationGracePeriodSeconds pod with
  | Some expiration, Some seconds =>
      Some (Time_Add expiration (int64 (int64 (seconds * time_Second) * -1)))
  | _, _ => None
  end.

(** [DeleteExpiringPods].  [time.Now()] is read only when [deleteTime] is not
    nil; [time.Until] reads the clock once more. *)
Fixpoint DeleteExpiringPods (t : Terminator) (pods : list Pod)
    (nodeGracePeriodTerminationTime : option Time) : go (Terminator * option error) :=
  match pods with
  | [] => ret (t, None)
  | pod :: rest =>
      match podDeleteTimeWithGracePeriod nodeGracePeriodTerminationTime pod with
      | None => DeleteExpiringPods t rest nodeGracePeriodTerminationTime
      | Some deleteTime =>
          let now := wallClock (timeNowCalls t) in
          let t := tick t in
          if Time_After now deleteTime then
            terminationTime ← deref nodeGracePeriodTerminationTime;
            let gracePeriodSeconds :=
              Duration_Seconds_int64 (Time_Sub terminationTime (wallClock (timeNowCalls t))) in
            let t := tick t in
            let t := recorder_Publish t
                       (DisruptPodDelete pod gracePeriodSeconds terminationTime) in
            let t := kubeClient_send t (DeletePod pod gracePeriodSeconds) in
            match kubeDelete pod gracePeriodSeconds with
            | Some err =>
                if negb (IsNotFound err)
                then ret (t, Some (Errorf_w "deleting pod" err))
                else DeleteExpiringPods t rest nodeGracePeriodTerminationTime
            | None => DeleteExpiringPods t rest nodeGracePeriodTerminationTime
            end
          else DeleteExpiringPods t rest nodeGracePeriodTerminationTime
      end
  end.

Definition Drain (t : Terminator) (node : Node) (drainPods : list Pod)
    (nodeGracePeriodExpirationTime : option Time) : go (Terminator * option error) :=
  match GetPods node with
  | (_, Some err) => ret (t, Some (Errorf_w "listing pods on node" err))
  | (pods, None) =>
      let podsToDelete :=
        lo_Filter drainPods (fun p => IsWaitingEviction p && negb (IsTerminating p)) in
      '(t, err) ← DeleteExpiringPods t podsToDelete nodeGracePeriodExpirationTime;
      match err with
      | Some err => ret (t, Some (Errorf_w "deleting expiring pods" err))
      | None =>
          let evictablePods := lo_Filter drainPods IsEvictable in
          let t := Evict t evictablePods in
          let podsWaitingEvictionCount := lo_CountBy pods IsWaitingEviction in
          if 0 <? podsWaitingEvictionCount
          then ret (t, Some (NodeDrainError
                               (Errorf_d_pods pods "pods are waiting to be evicted")))
          else ret (t, None)
      end
  end.

End WithCluster.

End Part000.

(** ** Vocabulary of the specification *)

(** [repr f sx v E]: [f] is a normal number of sign [sx] and of absolute
    value [v * 2^E]. *)
Definition repr (f : spec_float) (sx : bool) (v E : Z) : Prop :=
  exists m e, f = S754_finite sx m e /\ Zpos (digits2_pos m) = 53 /\
              E <= e /\ Zpos m * 2 ^ (e - E) = v.

(** Numbers that are not positive: what the operations of [Seconds] make of
    a duration that is not positive. *)
Definition not_positive (f : float64) : Prop :=
  match f with
  | S754_finite false _ _ => False
  | _ => True
  end.

(** The eviction tiers, in the order in which they are to be evicted. *)
Inductive tier : Type :=
  | NonCriticalNonDaemon
  | NonCriticalDaemon
  | CriticalNonDaemon
  | CriticalDaemon.

Global Instance tier_eq_dec : EqDecision tier.
Proof. solve_decision. Defined.

Definition tier_rank (k : tier) : nat :=
  match k with
  | NonCriticalNonDaemon => 0
  | NonCriticalDaemon => 1
  | CriticalNonDaemon => 2
  | CriticalDaemon => 3
  end.

Definition critical_priority_class (pod : Pod) : bool :=
  bool_decide (PriorityClassName pod = "system-cluster-critical"
               \/ PriorityClassName pod = "system-node-critical").

Definition tier_of (IsOwnedByDaemonSet : Pod -> bool) (pod : Pod) : tier :=
  match critical_priority_class pod, IsOwnedByDaemonSet pod with
  | false, false => NonCriticalNonDaemon
  | false, true => NonCriticalDaemon
  | true, false => CriticalNonDaemon
  | true, true => CriticalDaemon
  end.

Definition pods_of_tier (IsOwnedByDaemonSet : Pod -> bool) (k : tier) (pods : list Pod)
  : list Pod :=
  List.filter (fun pod => bool_decide (tier_of IsOwnedByDaemonSet pod = k)) pods.

Definition tiers_in_order (IsOwnedByDaemonSet : Pod -> bool) (pods : list Pod)
  : list (list Pod) :=
  [pods_of_tier IsOwnedByDaemonSet NonCriticalNonDaemon pods;
   pods_of_tier IsOwnedByDaemonSet NonCriticalDaemon pods;
   pods_of_tier IsOwnedByDaemonSet CriticalNonDaemon pods;
   pods_of_tier IsOwnedByDaemonSet CriticalDaemon pods].

(** The first non-empty list of a sequence of lists. *)
Fixpoint first_nonempty (ls : list (list Pod)) : option (list Pod) :=
  match ls with
  | [] => None
  | [] :: rest => first_nonempty rest
  | l :: _ => Some l
  end.

(** The restart marker a deployment carries under an annotation key. *)
Definition marker (key : string) (d : Deployment) : option string :=
  default ∅ (Annotations d) !! key.

(** The deployment [d] with the annotation [key] set to [node]. *)
Definition stamped (d : Deployment) (key node : string) : Deployment :=
  {| dep_Namespace := dep_Namespace d; dep_Name := dep_Name d; Replicas := Replicas d;
     Annotations := Some (<[key := node]> (default ∅ (Annotations d))) |}.

(** Whether the deployment already carries the node name as the marker that
    [RestartDeployments] reads. *)
Definition marked (nodeName : string) (d : Deployment) : bool :=
  match marker "kubectl.kubernetes.io/restartedNode" d with
  | Some name => String.eqb name nodeName
  | None => false
  end.

Definition deployment_key (d : Deployment) : string :=
  dep_Namespace d +:+ "/" +:+ dep_Name d.

(** A deployment as the vendored loop leaves it. *)
Definition visited (nodeName : string) (d : Deployment) : Deployment :=
  if marked nodeName d
  then Vendored.set_Annotations d (Some (default ∅ (Annotations d)))
  else stamped d "kubectl.kubernetes.io/restartedNode" nodeName.

(** The deployments the vendored loop sends to [Update]. *)
Definition to_restart (nodeName : string) (deployments : list Deployment) : list Deployment :=
  map (fun d => stamped d "kubectl.kubernetes.io/restartedNode" nodeName)
      (List.filter (fun d => negb (marked nodeName d)) deployments).

(** The error [RestartDeployments] makes of the collected update errors. *)
Definition combined (updateErrors : list error) : option error :=
  match updateErrors with
  | [] => None
  | _ => Some (Errorf_v "failed to restart some deployment" updateErrors)
  end.

Definition pod_key (pod : Pod) : string := pod_Namespace pod +:+ "/" +:+ pod_Name pod.

(** The number of pods of the list that resolve to a deployment of the key
    [k]. *)
Definition pods_resolving_to (resolve : Pod -> option Deployment * option error)
    (k : string) (pods : list Pod) : nat :=
  length (List.filter
            (fun pod => match resolve pod with
                        | (Some d, None) => String.eqb (deployment_key d) k
                        | _ => false
                        end) pods).

(** [n] increments of an [int32] counter. *)
Definition bump (n : nat) (z : Z) : Z := Nat.iter n (fun z => int32 (z + 1)) z.

(** All replicas of the deployment are among the tallied pods. *)
Definition all_here (tally : gmap string Z) (d : Deployment) : Prop :=
  exists replicas,
    Replicas d = Some replicas /\ default 0 (tally !! deployment_key d) = replicas.

(** The key under which the second source tallies a deployment. *)
Definition tally_key (d : Deployment) : string := dep_Namespace d +:+ ":" +:+ dep_Name d.

(** The deployment the second loop of the second source appends for a pod,
    if any. *)
Definition restart_of_pod (resolve : Pod -> go (option Deployment * option error))
    (tally : gmap string Z) (pod : Pod) : option Deployment :=
  match resolve pod with
  | ret (Some d, None) =>
      match Replicas d with
      | Some replicas =>
          if default 0 (tally !! tally_key d) =? replicas then Some d else None
      | None => None
      end
  | _ => None
  end.

(** Whether the second loop of the vendored source appends the pod to the
    drain set, read off the cache and the tally: its deployment has not all
    its replicas here and is not in the record of the node. *)
Definition cache_drains (cache : gmap string (option Deployment)) (tally : gmap string Z)
    (record : gset string) (pod : Pod) : bool :=
  match cache !! pod_key pod with
  | Some (Some d) =>
      match Replicas d with
      | Some replicas =>
          negb (default 0 (tally !! deployment_key d) =? replicas)
          && negb (bool_decide (deployment_key d ∈ record))
      | None => false
      end
  | _ => false
  end.

(** The same, read off the resolution of the pods of the list. *)
Definition drained (resolve : Pod -> option Deployment * option error)
    (record : gset string) (pods : list Pod) (pod : Pod) : bool :=
  match resolve pod with
  | (Some d, None) =>
      negb (bool_decide
              (Replicas d
               = Some (Z.of_nat (pods_resolving_to resolve (deployment_key d) pods))))
      && negb (bool_decide (deployment_key d ∈ record))
  | _ => false
  end.

(** The number of pods of the list that the second source resolves to a
    deployment tallied under the key [k]. *)
Definition pods_tallied_under (resolve : Pod -> go (option Deployment * option error))
    (k : string) (pods : list Pod) : nat :=
  length (List.filter
            (fun pod => match resolve pod with
                        | ret (Some d, None) => String.eqb (tally_key d) k
                        | _ => false
                        end) pods).

(** What [RestartDeployments] may change of a deployment: nothing but the
    annotation [key]. *)
Definition only_annotation (key : string) (d d' : Deployment) : Prop :=
  dep_Namespace d' = dep_Namespace d /\
  dep_Name d' = dep_Name d /\
  Replicas d' = Replicas d /\
  forall other, other <> key -> marker other d' = marker other d.

(** The pods of a list that are left once the submitted ones are gone. *)
Definition pods_left (submitted pods : list Pod) : list Pod :=
  List.filter (fun pod => negb (bool_decide (pod ∈ submitted))) pods.

(** The delete request and the event of a forced deletion. *)
Definition delete_request (d : Pod * Z) : request := DeletePod d.1 d.2.
Definition delete_event (deadline : Time) (d : Pod * Z) : event :=
  DisruptPodDelete d.1 d.2 deadline.

(** Whether the API server took a delete, or answered that the pod is gone. *)
Definition delete_passed (kubeDelete : Pod -> Z -> option error) (d : Pod * Z) : Prop :=
  match kubeDelete d.1 d.2 with
  | Some cause => IsNotFound cause = true
  | None => True
  end.


(** ** A small cluster for the examples

    One deployment [web] with two replicas behind the replica set
    [web-5d4f], a deployment [api] with one replica, and a node [n1]. *)

Definition controller_ref (kind name : string) : OwnerReference :=
  {| ref_Kind := kind; ref_Name := name; ref_Controller := Some true |}.

Definition pod_of (name : string) (ownerRefs : list OwnerReference) : Pod :=
  {| pod_Namespace := "default"; pod_Name := name; pod_OwnerReferences := ownerRefs;
     PriorityClassName := ""; TerminationGracePeriodSeconds := Some 30 |}.

Definition deployment_of (name : string) (replicas : Z) : Deployment :=
  {| dep_Namespace := "default"; dep_Name := name;
     Replicas := Some replicas; Annotations := None |}.

Definition web : Deployment := deployment_of "web" 2.
Definition api : Deployment := deployment_of "api" 1.

Definition ex_GetReplicaSet (namespace name : string) : fetched ReplicaSet :=
  if String.eqb name "web-5d4f" then
    Found {| rs_Namespace := namespace; rs_Name := name;
             rs_OwnerReferences := [controller_ref "Deployment" "web"] |}
  else Failed (StatusError "NotFound").

Definition ex_GetDeployment (namespace name : string) : fetched Deployment :=
  if String.eqb name "web" then Found web else Failed (StatusError "NotFound").

Definition web_1 : Pod := pod_of "web-5d4f-1" [controller_ref "ReplicaSet" "web-5d4f"].
Definition web_2 : Pod := pod_of "web-5d4f-2" [controller_ref "ReplicaSet" "web-5d4f"].

(** A pod without owner. *)
Definition bare : Pod := pod_of "bare" [].

(** A pod whose owner reference leaves [controller] unset. *)
Definition unset_controller : Pod :=
  pod_of "unset"
    [{| ref_Kind := "ReplicaSet"; ref_Name := "web-5d4f"; ref_Controller := None |}].

(** A pod whose replica set cannot be read. *)
Definition lost : Pod := pod_of "lost" [controller_ref "ReplicaSet" "gone"].

(** A critical daemon pod. *)
Definition proxy : Pod :=
  {| pod_Namespace := "kube-system"; pod_Name := "proxy"; pod_OwnerReferences := [];
     PriorityClassName := "system-node-critical"; TerminationGracePeriodSeconds := Some 30 |}.

Definition n1 : Node := {| node_Name := "n1"; Taints := []; Labels := ∅ |}.

Definition NoSchedule_taint : corev1_Taint :=
  {| taint_Key := "karpenter.sh/disrupted"; taint_Value := ""; taint_Effect := "NoSchedule" |}.
Definition NoExecute_taint : corev1_Taint :=
  {| taint_Key := "karpenter.sh/disrupted"; taint_Value := ""; taint_Effect := "NoExecute" |}.

(** A node that carries the key under both effects. *)
Definition n2 : Node :=
  {| node_Name := "n2"; Taints := [NoSchedule_taint; NoExecute_taint]; Labels := ∅ |}.

Definition update_ok (d : Deployment) : option error := None.
Definition update_conflict (d : Deployment) : option error := Some (StatusError "Conflict").
Definition update_api_conflict (d : Deployment) : option error :=
  if String.eqb (dep_Name d) "api" then Some (StatusError "Conflict") else None.
Definition patch_ok (node stored : Node) : option error := None.
Definition delete_ok (pod : Pod) (gracePeriodSeconds : Z) : option error := None.
Definition list_pods (pods : list Pod) (node : Node) : list Pod * option error := (pods, None).
Definition always (b : bool) (pod : Pod) : bool := b.
Definition is_proxy (pod : Pod) : bool := String.eqb (pod_Name pod) "proxy".

(** A vendored terminator whose restart record already has an inner map for
    the node. *)
Definition tracking (nodeName : string) : Vendored.Terminator :=
  Vendored.set_nodeRestartDeployments Vendored.NewTerminator {[nodeName := ∅]}.

(** The disruption taint of [apis/v1beta1], as the examples take it. *)
Definition ex_DisruptionTaintKey : string := "karpenter.sh/disruption".
Definition ex_DisruptionNoScheduleTaint : corev1_Taint :=
  {| taint_Key := "karpenter.sh/disruption"; taint_Value := "disrupting";
     taint_Effect := "NoSchedule" |}.
Definition ex_IsDisruptingTaint (t : corev1_Taint) : bool :=
  MatchTaint t ex_DisruptionNoScheduleTaint && String.eqb (taint_Value t) "disrupting".

(** [web], already carrying [n1] as its restart marker. *)
Definition web_marked : Deployment :=
  stamped web "kubectl.kubernetes.io/restartedNode" "n1".

(** An API server that refuses every delete, and a clock that advances by one
    second at every reading. *)
Definition delete_forbidden (pod : Pod) (gracePeriodSeconds : Z) : option error :=
  Some (StatusError "Forbidden").
Definition ticking (start : Z) (n : nat) : Time := (start + Z.of_nat n) * time_Second.

(** A pod with a grace period of 2^24 + 1 seconds. *)
Definition patient : Pod :=
  {| pod_Namespace := "default"; pod_Name := "patient"; pod_OwnerReferences := [];
     PriorityClassName := ""; TerminationGracePeriodSeconds := Some 16777217 |}.

(** * Owner resolution *)

Lemma go_bind_ret {A B : Type} (m : go A) (k : A -> go B) (b : B) :
  mbind k m = ret b -> exists a, m = ret a /\ k a = ret b.
Proof. destruct m as [a|p]; simpl; [eauto | discriminate]. Qed.

Section Resolution.

Variable kubeGetReplicaSet : string -> string -> fetched ReplicaSet.
Variable kubeGetDeployment : string -> string -> fetched Deployment.

(** The vendored loops pass over an owner reference whose controller field is
    unset. *)
Lemma Vendored_unset_controller_skipped_rs namespace ownerRef rest :
  ref_Controller ownerRef = None ->
  Vendored.getOwnerReplicaSet_loop kubeGetReplicaSet namespace (ownerRef :: rest) =
  Vendored.getOwnerReplicaSet_loop kubeGetReplicaSet namespace rest.
Proof. intros H. simpl. rewrite H. reflexivity. Qed.

Lemma Vendored_unset_controller_skipped_deployment namespace ownerRef rest :
  ref_Controller ownerRef = None ->
  Vendored.getOwnerDeployment_loop kubeGetDeployment namespace (ownerRef :: rest) =
  Vendored.getOwnerDeployment_loop kubeGetDeployment namespace rest.
Proof. intros H. simpl. rewrite H. reflexivity. Qed.

(** A pod without a replica set among its owner references resolves, in the
    vendored source, to no deployment and no error. *)
Lemma Vendored_no_replica_set_no_deployment namespace ownerRefs :
  Forall (fun r => ref_Kind r <> "ReplicaSet") ownerRefs ->
  Vendored.getOwnerReplicaSet_loop kubeGetReplicaSet namespace ownerRefs = (None, None).
Proof.
  induction 1 as [|r rest Hr _ IH]; simpl; [reflexivity|].
  apply String.eqb_neq in Hr. rewrite Hr, andb_false_r. exact IH.
Qed.

(** The loops of the second source fault on it. *)
Lemma Part000_unset_controller_faults kind ownerRef rest name :
  ref_Controller ownerRef = None ->
  Part000.controllerOwner_loop kind (ownerRef :: rest) name = panics nil_pointer_dereference.
Proof. intros H. simpl. rewrite H. reflexivity. Qed.

(** They return when every controller field they meet is set. *)
Lemma Part000_controllerOwner_loop_returns kind ownerRefs name :
  Forall (fun r => ref_Controller r <> None) ownerRefs ->
  exists found, Part000.controllerOwner_loop kind ownerRefs name = ret found.
Proof.
  induction 1 as [|r rest Hr _ IH]; simpl; [eauto|].
  destruct (ref_Controller r) as [c|]; [|contradiction]. simpl.
  destruct (c && String.eqb (ref_Kind r) kind); eauto.
Qed.

(** X4. [GetDeploymentFromPod] of the second source returns, without fault,
    for a pod whose owner references all have the controller field set, when
    the same holds of the owner references of every replica set the API
    server answers. *)
Lemma Part000_GetDeploymentFromPod_returns pod :
  Forall (fun r => ref_Controller r <> None) (pod_OwnerReferences pod) ->
  (forall namespace name rs, kubeGetReplicaSet namespace name = Found rs ->
     Forall (fun r => ref_Controller r <> None) (rs_OwnerReferences rs)) ->
  exists result,
    Part000.GetDeploymentFromPod kubeGetReplicaSet kubeGetDeployment pod = ret result.
Proof.
  intros Hpod Hrs. unfold Part000.GetDeploymentFromPod.
  destruct (Part000_controllerOwner_loop_returns "ReplicaSet" _ "" Hpod) as [rsName ->].
  simpl. destruct (String.eqb rsName ""); [eauto|].
  destruct (kubeGetReplicaSet (pod_Namespace pod) rsName) as [rs|err] eqn:E; [|eauto].
  destruct (Part000_controllerOwner_loop_returns "Deployment" _ "" (Hrs _ _ _ E)) as [dpName ->].
  simpl. destruct (String.eqb dpName ""); [eauto|].
  destruct (kubeGetDeployment (pod_Namespace pod) dpName); eauto.
Qed.

End Resolution.

(** C10. Resolving the owning deployment of a pod is to complete without
    fault and never to take an owner reference with an unset controller field
    for a controlling owner.  The vendored source does so: on the pod
    [unset_controller] it answers no deployment and no error.  The second
    source dereferences the unset field and faults on the same pod. *)
Theorem GetDeploymentFromPod_unset_controller :
  Part000.GetDeploymentFromPod ex_GetReplicaSet ex_GetDeployment unset_controller
    = panics nil_pointer_dereference
  /\ Vendored.GetDeploymentFromPod ex_GetReplicaSet ex_GetDeployment unset_controller
    = (None, None).
Proof. split; vm_compute; reflexivity. Qed.

(** * Restart and drain sets *)

Section Classification.

Variable kubeGetReplicaSet : string -> string -> fetched ReplicaSet.
Variable kubeGetDeployment : string -> string -> fetched Deployment.

(** In the second source a pod without deployment goes to the drain set. *)
Lemma Part000_unresolved_pod_drained pod rest tally restartDeployments drainPods :
  Part000.GetDeploymentFromPod kubeGetReplicaSet kubeGetDeployment pod = ret (None, None) ->
  Part000.classify_loop kubeGetReplicaSet kubeGetDeployment (pod :: rest) tally
    restartDeployments drainPods =
  Part000.classify_loop kubeGetReplicaSet kubeGetDeployment rest tally
    restartDeployments (drainPods ++ [pod]).
Proof. intros H. simpl. rewrite H. reflexivity. Qed.

(** In the vendored source the classification returns only if the cache
    holds a deployment for every pod: a pod cached without deployment makes it
    fault. *)
Lemma Vendored_classify_loop_returns nodeName t pods tally cache unique
    restartDeployments drainPods result :
  Vendored.classify_loop nodeName t pods tally cache unique restartDeployments drainPods
    = ret result ->
  forall pod, In pod pods ->
    exists d, cache !! (pod_Namespace pod +:+ "/" +:+ pod_Name pod) = Some (Some d).
Proof.
  revert unique restartDeployments drainPods.
  induction pods as [|pod0 pods IH]; intros unique restartDeployments drainPods Hrun pod Hin;
    [contradiction|].
  simpl in Hrun.
  destruct (cache !! (pod_Namespace pod0 +:+ "/" +:+ pod_Name pod0)) as [[d|]|] eqn:Ecache;
    simpl in Hrun; try discriminate.
  destruct Hin as [->|Hin]; [eauto|].
  destruct (Replicas d) as [replicas|]; simpl in Hrun; [|discriminate].
  repeat match type of Hrun with
         | (if ?c then _ else _) = _ => destruct c
         end; eapply IH; eauto.
Qed.

End Classification.

(** * The vendored restart set *)

Lemma int32_id z : -2147483648 <= z <= 2147483647 -> int32 z = z.
Proof. intros H. unfold int32. rewrite Z.mod_small by lia. lia. Qed.

Lemma bump_small (n : nat) (z : Z) :
  0 <= z -> z + Z.of_nat n <= 2147483647 -> bump n z = z + Z.of_nat n.
Proof.
  unfold bump. induction n as [|n IH]; intros Hz Hn; simpl Nat.iter; [lia|].
  rewrite IH by lia. rewrite int32_id by lia. lia.
Qed.

Lemma bump_S_inner (n : nat) (z : Z) : bump (S n) z = bump n (int32 (z + 1)).
Proof. unfold bump. rewrite Nat.iter_succ_r. reflexivity. Qed.

Section VendoredClassification.

Variable kubeGetReplicaSet : string -> string -> fetched ReplicaSet.
Variable kubeGetDeployment : string -> string -> fetched Deployment.

Local Abbreviation resolve :=
  (Vendored.GetDeploymentFromPod kubeGetReplicaSet kubeGetDeployment).
Local Abbreviation tally_loop :=
  (Vendored.tally_loop kubeGetReplicaSet kubeGetDeployment).

(** The cache only grows. *)
Lemma Vendored_tally_cache_grows pods :
  forall tally0 cache0 tally cache,
  tally_loop pods tally0 cache0 = (tally, cache, None) ->
  forall k x, cache0 !! k = Some x -> cache !! k = Some x.
Proof.
  induction pods as [|pod pods IH]; intros tally0 cache0 tally cache Hrun k x Hk.
  - simpl in Hrun. inversion Hrun; subst. exact Hk.
  - cbn [Vendored.tally_loop] in Hrun. unfold Vendored.getDeploymentFromCache in Hrun.
    fold (pod_key pod) in Hrun.
    destruct (cache0 !! pod_key pod) as [cached|] eqn:Ec.
    + destruct cached; eapply IH; eauto.
    + destruct (resolve pod) as [d [err|]]; [discriminate|].
      assert (<[pod_key pod := d]> cache0 !! k = Some x)
        by (rewrite lookup_insert_ne; [exact Hk | congruence]).
      destruct d; eapply IH; eauto.
Qed.

(** The first loop, for pods of distinct keys none of which is cached yet:
    every pod is resolved and cached, and the counter of a key has been
    incremented once per pod that resolves to a deployment of that key. *)
Lemma Vendored_tally_loop_spec pods :
  forall tally0 cache0 tally cache,
  NoDup (map pod_key pods) ->
  (forall pod, In pod pods -> cache0 !! pod_key pod = None) ->
  tally_loop pods tally0 cache0 = (tally, cache, None) ->
  (forall pod, In pod pods ->
     exists d, resolve pod = (d, None) /\ cache !! pod_key pod = Some d) /\
  (forall k, default 0 (tally !! k) =
             bump (pods_resolving_to resolve k pods) (default 0 (tally0 !! k))).
Proof.
  induction pods as [|pod pods IH]; intros tally0 cache0 tally cache Hnd Hfresh Hrun.
  - simpl in Hrun. inversion Hrun; subst. split; [intros ? []|]. intros k. reflexivity.
  - apply NoDup_cons in Hnd as [Hnotin Hnd'].
    cbn [Vendored.tally_loop] in Hrun. unfold Vendored.getDeploymentFromCache in Hrun.
    fold (pod_key pod) in Hrun. rewrite (Hfresh pod (or_introl eq_refl)) in Hrun.
    destruct (resolve pod) as [d [err|]] eqn:Eres; [discriminate|].
    assert (Hfresh' : forall pod', In pod' pods ->
              <[pod_key pod := d]> cache0 !! pod_key pod' = None).
    { intros pod' Hin. rewrite lookup_insert_ne.
      - apply Hfresh. right. exact Hin.
      - intros Heq. apply Hnotin. rewrite list_elem_of_In, Heq.
        apply in_map. exact Hin. }
    assert (Hpod : forall tally1,
              tally_loop pods tally1 (<[pod_key pod := d]> cache0) = (tally, cache, None) ->
              cache !! pod_key pod = Some d).
    { intros tally1 H1. eapply Vendored_tally_cache_grows; [exact H1|].
      apply lookup_insert_eq. }
    unfold pods_resolving_to. cbn [List.filter]. rewrite Eres.
    destruct d as [d|].
    + destruct (IH _ _ _ _ Hnd' Hfresh' Hrun) as [Hcache Htally].
      split.
      * intros pod' [<-|Hin]; [eauto|auto].
      * intros k. rewrite Htally. unfold pods_resolving_to.
        destruct (String.eqb_spec (dep_Namespace d +:+ "/" +:+ dep_Name d) k) as [<-|Hne].
        -- unfold deployment_key at 2. rewrite String.eqb_refl. cbn [length].
           rewrite bump_S_inner, lookup_insert_eq. reflexivity.
        -- apply String.eqb_neq in Hne. unfold deployment_key at 2. rewrite Hne.
           apply String.eqb_neq in Hne.
           rewrite lookup_insert_ne by exact Hne. reflexivity.
    + destruct (IH _ _ _ _ Hnd' Hfresh' Hrun) as [Hcache Htally].
      split.
      * intros pod' [<-|Hin]; [eauto|auto].
      * intros k. rewrite Htally. reflexivity.
Qed.

(** The second loop, when it returns: the restart list has every key once,
    holds only cached deployments all of whose replicas are here, and holds
    the key of every such deployment. *)
Lemma Vendored_classify_loop_spec nodeName t tally cache pods :
  forall unique restartDeployments drainPods restartDeployments' drainPods',
  Vendored.classify_loop nodeName t pods tally cache unique restartDeployments drainPods
    = ret (restartDeployments', drainPods') ->
  (forall k, k ∈ unique <-> In k (map deployment_key restartDeployments)) ->
  NoDup (map deployment_key restartDeployments) ->
  NoDup (map deployment_key restartDeployments') /\
  (forall d, In d restartDeployments' ->
     In d restartDeployments \/
     exists pod, In pod pods /\ cache !! pod_key pod = Some (Some d) /\ all_here tally d) /\
  (forall d, In d restartDeployments -> In d restartDeployments') /\
  (forall pod d, In pod pods -> cache !! pod_key pod = Some (Some d) -> all_here tally d ->
     In (deployment_key d) (map deployment_key restartDeployments')).
Proof.
  induction pods as [|pod0 pods IH];
    intros unique restart drain restart' drain' Hrun Huniq Hnd.
  - simpl in Hrun. inversion Hrun; subst.
    repeat split; auto. intros ? ? [].
  - cbn [Vendored.classify_loop] in Hrun. fold (pod_key pod0) in Hrun.
    destruct (cache !! pod_key pod0) as [[d0|]|] eqn:Ecache; simpl in Hrun;
      try discriminate.
    destruct (Replicas d0) as [replicas|] eqn:Erep; simpl in Hrun; [|discriminate].
    fold (deployment_key d0) in Hrun.
    destruct (Z.eqb_spec (default 0 (tally !! deployment_key d0)) replicas) as [Hall|Hnot].
    + assert (Hhere : all_here tally d0) by (exists replicas; auto).
      case_bool_decide as Hin.
      * destruct (IH _ _ _ _ _ Hrun Huniq Hnd) as (Hnd' & Hsound & Hmono & Hcompl).
        split; [exact Hnd'|]. split; [|split; [exact Hmono|]].
        -- intros d Hd. destruct (Hsound d Hd) as [?|(pod & ? & ? & ?)]; [auto|].
           right. exists pod. split; [right; assumption | auto].
        -- intros pod d [<-|Hpod] Hc Hh; [|eauto].
           rewrite Ecache in Hc. inversion Hc; subst d.
           apply Huniq in Hin. apply in_map_iff in Hin as (d1 & Hk & Hd1).
           rewrite <- Hk. apply in_map. apply Hmono. exact Hd1.
      * assert (Huniq' : forall k, k ∈ ({[deployment_key d0]} ∪ unique : gset string) <->
                           In k (map deployment_key (restart ++ [d0]))).
        { intros k. rewrite elem_of_union, elem_of_singleton, map_app, in_app_iff, Huniq.
          simpl. intuition congruence. }
        assert (Hnd1 : NoDup (map deployment_key (restart ++ [d0]))).
        { rewrite map_app. simpl. apply NoDup_app. split; [exact Hnd|]. split.
          - intros k Hk Hk0. apply list_elem_of_In in Hk.
            apply list_elem_of_singleton in Hk0. subst k.
            apply Hin. apply Huniq. exact Hk.
          - apply NoDup_singleton. }
        destruct (IH _ _ _ _ _ Hrun Huniq' Hnd1) as (Hnd' & Hsound & Hmono & Hcompl).
        split; [exact Hnd'|]. split; [|split].
        -- intros d Hd. destruct (Hsound d Hd) as [Hd1|(pod & ? & ? & ?)].
           ++ apply in_app_iff in Hd1 as [?|[<-|[]]]; [auto|].
              right. exists pod0. split; [left; reflexivity|auto].
           ++ right. exists pod. split; [right; assumption | auto].
        -- intros d Hd. apply Hmono, in_app_iff. auto.
        -- intros pod d [<-|Hpod] Hc Hh; [|eauto].
           rewrite Ecache in Hc. inversion Hc; subst d.
           apply in_map, Hmono, in_app_iff. right. left. reflexivity.
    + assert (Hrun' : exists drain1,
                Vendored.classify_loop nodeName t pods tally cache unique restart drain1
                  = ret (restart', drain')).
      { destruct (bool_decide _) in Hrun; eauto. }
      destruct Hrun' as [drain1 Hrun'].
      destruct (IH _ _ _ _ _ Hrun' Huniq Hnd) as (Hnd' & Hsound & Hmono & Hcompl).
      split; [exact Hnd'|]. split; [|split; [exact Hmono|]].
      * intros d Hd. destruct (Hsound d Hd) as [?|(pod & ? & ? & ?)]; [auto|].
        right. exists pod. split; [right; assumption | auto].
      * intros pod d [<-|Hpod] Hc Hh; [|eauto].
        rewrite Ecache in Hc. inversion Hc; subst d.
        destruct Hh as (r & Hr & Ht). rewrite Erep in Hr. congruence.
Qed.

(** X6. The restart set of the vendored source, for pods of distinct keys and
    fewer than 2^31 of them, when the call returns: no key is in the restart
    set twice; a deployment in it was resolved from a pod of the list and the
    number of pods resolving to its key is its replica count; and the key of
    every resolved deployment with that property is in it. *)
Lemma Vendored_restart_set (t : Vendored.Terminator) pods nodeName
    restartDeployments drainPods :
  NoDup (map pod_key pods) ->
  Z.of_nat (length pods) <= 2147483647 ->
  Vendored.GetRestartdeploymentsAndDrainPods kubeGetReplicaSet kubeGetDeployment
    t pods nodeName = ret (restartDeployments, drainPods, None) ->
  NoDup (map deployment_key restartDeployments) /\
  (forall d, In d restartDeployments ->
     (exists pod, In pod pods /\ resolve pod = (Some d, None)) /\
     Replicas d = Some (Z.of_nat (pods_resolving_to resolve (deployment_key d) pods))) /\
  (forall pod d, In pod pods -> resolve pod = (Some d, None) ->
     Replicas d = Some (Z.of_nat (pods_resolving_to resolve (deployment_key d) pods)) ->
     In (deployment_key d) (map deployment_key restartDeployments)).
Proof.
  intros Hkeys Hlen Hrun. unfold Vendored.GetRestartdeploymentsAndDrainPods in Hrun.
  destruct (tally_loop pods ∅ ∅) as [[tally cache] [err|]] eqn:Etally;
    [inversion Hrun|].
  apply go_bind_ret in Hrun as ([restart drain] & Hclassify & Hret).
  inversion Hret; subst restart drain.
  destruct (Vendored_tally_loop_spec pods ∅ ∅ tally cache Hkeys
              (fun _ _ => lookup_empty _) Etally) as [Hcache Htally].
  assert (Hcount : forall k, default 0 (tally !! k)
                             = Z.of_nat (pods_resolving_to resolve k pods)).
  { intros k. rewrite Htally, lookup_empty. simpl.
    assert (pods_resolving_to resolve k pods <= length pods)%nat
      by apply List.filter_length_le.
    rewrite bump_small; lia. }
  assert (Hcached : forall pod d, In pod pods ->
            (cache !! pod_key pod = Some (Some d) <-> resolve pod = (Some d, None))).
  { intros pod d Hin. destruct (Hcache pod Hin) as (d1 & Hres & Hc).
    rewrite Hres, Hc. split; intros H; inversion H; reflexivity. }
  destruct (Vendored_classify_loop_spec nodeName t tally cache pods ∅ [] []
              restartDeployments drainPods Hclassify)
    as (Hnd & Hsound & _ & Hcompl).
  { intros k. simpl. rewrite elem_of_empty. tauto. }
  { constructor. }
  split; [exact Hnd|]. split.
  - intros d Hd. destruct (Hsound d Hd) as [[]|(pod & Hin & Hc & (r & Hr & Ht))].
    split.
    + exists pod. split; [exact Hin|]. apply Hcached; assumption.
    + rewrite Hr, <- Ht, Hcount. reflexivity.
  - intros pod d Hin Hres Hr. apply Hcompl with (pod := pod).
    + exact Hin.
    + apply Hcached; assumption.
    + eexists. split; [exact Hr | apply Hcount].
Qed.

End VendoredClassification.

Section Part000Classification.

Variable kubeGetReplicaSet : string -> string -> fetched ReplicaSet.
Variable kubeGetDeployment : string -> string -> fetched Deployment.

Local Abbreviation resolve :=
  (Part000.GetDeploymentFromPod kubeGetReplicaSet kubeGetDeployment).

(** The second loop of the second source, when it returns without error:
    one deployment is appended for every pod whose deployment has all its
    replicas here, and every other pod is appended to the drain set. *)
Lemma Part000_classify_loop_spec tally pods :
  forall restartDeployments drainPods restartDeployments' drainPods',
  Part000.classify_loop kubeGetReplicaSet kubeGetDeployment pods tally
    restartDeployments drainPods = ret (restartDeployments', drainPods', None) ->
  restartDeployments' = restartDeployments ++ omap (restart_of_pod resolve tally) pods /\
  drainPods' =
    drainPods ++
    List.filter (fun pod => bool_decide (restart_of_pod resolve tally pod = None)) pods.
Proof.
  induction pods as [|pod pods IH]; intros restart drain restart' drain' Hrun.
  - simpl in Hrun. inversion Hrun; subst. rewrite !app_nil_r. auto.
  - cbn [Part000.classify_loop] in Hrun.
    apply go_bind_ret in Hrun as ([d err] & Hres & Hrun).
    cbn [omap list_omap List.filter].
    destruct err as [err|]; [inversion Hrun|].
    destruct d as [d|].
    + apply go_bind_ret in Hrun as (replicas & Hrep & Hrun).
      destruct (Replicas d) as [r|] eqn:Er; [|discriminate]. inversion Hrep; subst r.
      fold (tally_key d) in Hrun.
      destruct (default 0 (tally !! tally_key d) =? replicas) eqn:Eall.
      * assert (Hpod : restart_of_pod resolve tally pod = Some d)
          by (unfold restart_of_pod; rewrite Hres, Er, Eall; reflexivity).
        rewrite Hpod, bool_decide_eq_false_2 by discriminate.
        apply IH in Hrun as [-> ->]. rewrite <- app_assoc. auto.
      * assert (Hpod : restart_of_pod resolve tally pod = None)
          by (unfold restart_of_pod; rewrite Hres, Er, Eall; reflexivity).
        rewrite Hpod, bool_decide_eq_true_2 by reflexivity.
        apply IH in Hrun as [-> ->]. rewrite <- app_assoc. auto.
    + assert (Hpod : restart_of_pod resolve tally pod = None)
        by (unfold restart_of_pod; rewrite Hres; reflexivity).
      rewrite Hpod, bool_decide_eq_true_2 by reflexivity.
      apply IH in Hrun as [-> ->]. rewrite <- app_assoc. auto.
Qed.

End Part000Classification.

(** One of the two pods of [web] is on the node: it is drained, unless the
    record of the node says that [web] was restarted for it. *)
Example Vendored_partly_here :
  Vendored.GetRestartdeploymentsAndDrainPods ex_GetReplicaSet ex_GetDeployment
    Vendored.NewTerminator [web_1] "n1" = ret ([], [web_1], None)
  /\ Vendored.GetRestartdeploymentsAndDrainPods ex_GetReplicaSet ex_GetDeployment
       (Vendored.set_nodeRestartDeployments Vendored.NewTerminator
          {["n1" := {["default/web"]}]})
       [web_1] "n1" = ret ([], [], None).
Proof. split; vm_compute; reflexivity. Qed.

(** C5. A pod for which no owning deployment resolves is to be placed in the
    drain set.  The second source does so.  The vendored source reads
    [deployment.Namespace] before it compares [deployment] with nil: on a node
    whose only pod is [bare] the classification faults and no drain set is
    returned. *)
Theorem GetRestartdeploymentsAndDrainPods_bare_pod :
  Vendored.GetDeploymentFromPod ex_GetReplicaSet ex_GetDeployment bare = (None, None)
  /\ Vendored.GetRestartdeploymentsAndDrainPods ex_GetReplicaSet ex_GetDeployment
       Vendored.NewTerminator [bare] "n1"
     = panics nil_pointer_dereference
  /\ Part000.GetdeploymentsAndDrainPodsFromNode ex_GetReplicaSet ex_GetDeployment
       (list_pods [bare]) n1
     = ret ([], [bare], None).
Proof. repeat split; vm_compute; reflexivity. Qed.

(** C1. A deployment all of whose replicas are on the node is to appear in
    the restart set exactly once.  With both pods of [web] on the node, the
    vendored source returns [web] once; the second source appends it once per
    pod and returns it twice. *)
Theorem GetdeploymentsAndDrainPodsFromNode_duplicates :
  Part000.GetdeploymentsAndDrainPodsFromNode ex_GetReplicaSet ex_GetDeployment
    (list_pods [web_1; web_2]) n1
    = ret ([web; web], [], None)
  /\ Vendored.GetRestartdeploymentsAndDrainPods ex_GetReplicaSet ex_GetDeployment
       Vendored.NewTerminator [web_1; web_2] "n1"
     = ret ([web], [], None).
Proof. split; vm_compute; reflexivity. Qed.

(** * Restarting deployments *)

Lemma union_swap (a b c : gset string) : a ∪ b ∪ c = b ∪ (a ∪ c).
Proof. rewrite (comm_L (∪) a b), <- (assoc_L (∪) b a c). reflexivity. Qed.

Section VendoredRestart.

Variable kubeUpdate : Deployment -> option error.


Lemma Vendored_body_marked nodeName t d :
  marked nodeName d = true ->
  Vendored.RestartDeployments_body kubeUpdate nodeName t d = ret (t, visited nodeName d, None).
Proof.
  intros H. unfold visited. rewrite H.
  unfold marked, marker in H. unfold Vendored.RestartDeployments_body.
  destruct (Annotations d) as [a|]; simpl in *; rewrite ?lookup_empty in *;
    [|discriminate].
  destruct (a !! "kubectl.kubernetes.io/restartedNode"); [|discriminate].
  rewrite H. reflexivity.
Qed.

Lemma Vendored_body_unmarked nodeName t d inner :
  marked nodeName d = false ->
  Vendored.nodeRestartDeployments t !! nodeName = Some inner ->
  Vendored.RestartDeployments_body kubeUpdate nodeName t d =
  ret ({| Vendored.kubeClient :=
            Vendored.kubeClient t ++
            [UpdateDeployment (stamped d "kubectl.kubernetes.io/restartedNode" nodeName)];
          Vendored.nodeRestartDeployments :=
            <[nodeName := {[deployment_key d]} ∪ inner]> (Vendored.nodeRestartDeployments t);
          Vendored.evictionQueue := Vendored.evictionQueue t |},
       stamped d "kubectl.kubernetes.io/restartedNode" nodeName,
       kubeUpdate (stamped d "kubectl.kubernetes.io/restartedNode" nodeName)).
Proof.
  intros H Hinner. unfold marked, marker in H.
  unfold Vendored.RestartDeployments_body. rewrite Hinner.
  destruct (Annotations d) as [a|] eqn:Ea; simpl in *; rewrite ?lookup_empty in *.
  - destruct (a !! "kubectl.kubernetes.io/restartedNode");
      rewrite ?H; unfold stamped; rewrite Ea; reflexivity.
  - unfold stamped. rewrite Ea. reflexivity.
Qed.

(** On a terminator whose record has no inner map for the node, as is the
    case of [NewTerminator], the write into the record faults. *)
Lemma Vendored_body_fault nodeName t d :
  marked nodeName d = false ->
  Vendored.nodeRestartDeployments t !! nodeName = None ->
  Vendored.RestartDeployments_body kubeUpdate nodeName t d =
  panics assignment_to_entry_in_nil_map.
Proof.
  intros H Hinner. unfold marked, marker in H.
  unfold Vendored.RestartDeployments_body. rewrite Hinner.
  destruct (Annotations d) as [a|] eqn:Ea; simpl in *; rewrite ?lookup_empty in *.
  - destruct (a !! "kubectl.kubernetes.io/restartedNode"); rewrite ?H; reflexivity.
  - reflexivity.
Qed.

Lemma Vendored_loop_with_record nodeName deployments :
  forall (t : Vendored.Terminator) (updateErrors : list error) (inner : gset string),
  Vendored.nodeRestartDeployments t !! nodeName = Some inner ->
  exists t',
    Vendored.RestartDeployments_loop kubeUpdate nodeName t deployments updateErrors =
      ret (t', map (visited nodeName) deployments,
           updateErrors ++ omap kubeUpdate (to_restart nodeName deployments)) /\
    Vendored.kubeClient t' =
      Vendored.kubeClient t ++ map UpdateDeployment (to_restart nodeName deployments) /\
    Vendored.nodeRestartDeployments t' !! nodeName =
      Some (list_to_set (map deployment_key (to_restart nodeName deployments)) ∪ inner) /\
    Vendored.evictionQueue t' = Vendored.evictionQueue t.
Proof.
  unfold to_restart.
  induction deployments as [|d ds IH]; intros t updateErrors inner Hinner.
  - exists t. simpl. rewrite !app_nil_r, (left_id_L ∅ (∪)). auto.
  - cbn [Vendored.RestartDeployments_loop List.filter map].
    destruct (marked nodeName d) eqn:Em.
    + rewrite (Vendored_body_marked _ _ _ Em). cbn [mbind go_bind negb].
      destruct (IH t updateErrors inner Hinner) as (t' & -> & Hc & Hr & Hq).
      exists t'. cbn [mbind go_bind]. auto.
    + rewrite (Vendored_body_unmarked _ _ _ inner Em Hinner). cbn [mbind go_bind negb map].
      set (d' := stamped d "kubectl.kubernetes.io/restartedNode" nodeName).
      set (t1 := {| Vendored.kubeClient := _ |}).
      set (errs1 := match kubeUpdate d' with Some err => updateErrors ++ [err]
                                           | None => updateErrors end).
      assert (H1 : Vendored.nodeRestartDeployments t1 !! nodeName
                   = Some ({[deployment_key d]} ∪ inner))
        by (unfold t1; simpl; apply lookup_insert_eq).
      destruct (IH t1 errs1 _ H1) as (t' & -> & Hc & Hr & Hq).
      exists t'. cbn [mbind go_bind].
      replace (visited nodeName d) with d' by (unfold visited; rewrite Em; reflexivity).
      split; [|split; [|split]].
      * f_equal. f_equal. unfold errs1. simpl.
        destruct (kubeUpdate d'); [rewrite <- app_assoc|]; reflexivity.
      * rewrite Hc. unfold t1. simpl. rewrite <- app_assoc. reflexivity.
      * rewrite Hr. f_equal. simpl.
        replace (deployment_key d') with (deployment_key d) by reflexivity.
        symmetry. apply union_swap.
      * rewrite Hq. reflexivity.
Qed.

Lemma Vendored_loop_visited nodeName deployments :
  forall (t t' : Vendored.Terminator) (updateErrors updateErrors' : list error) deployments',
  Vendored.RestartDeployments_loop kubeUpdate nodeName t deployments updateErrors =
    ret (t', deployments', updateErrors') ->
  deployments' = map (visited nodeName) deployments.
Proof.
  induction deployments as [|d ds IH]; intros t t' errs errs' ds' Hrun.
  - simpl in Hrun. inversion Hrun. reflexivity.
  - cbn [Vendored.RestartDeployments_loop] in Hrun.
    apply go_bind_ret in Hrun as ([[t1 d1] e1] & Hbody & Hrun).
    apply go_bind_ret in Hrun as ([[t2 ds2] errs2] & Hloop & Hret).
    inversion Hret; subst. apply IH in Hloop. subst ds2. simpl. f_equal.
    destruct (marked nodeName d) eqn:Em.
    + rewrite (Vendored_body_marked _ _ _ Em) in Hbody. inversion Hbody. reflexivity.
    + destruct (Vendored.nodeRestartDeployments t !! nodeName) as [inner|] eqn:Ei.
      * rewrite (Vendored_body_unmarked _ _ _ inner Em Ei) in Hbody.
        inversion Hbody. unfold visited. rewrite Em. reflexivity.
      * rewrite (Vendored_body_fault _ _ _ Em Ei) in Hbody. discriminate.
Qed.

Lemma marked_visited nodeName d : marked nodeName (visited nodeName d) = true.
Proof.
  unfold visited. destruct (marked nodeName d) eqn:Em.
  - unfold marked, marker in *. simpl. exact Em.
  - unfold marked, marker, stamped. simpl. rewrite lookup_insert_eq.
    apply String.eqb_refl.
Qed.

Lemma visited_visited nodeName d : visited nodeName (visited nodeName d) = visited nodeName d.
Proof.
  unfold visited at 1. rewrite marked_visited.
  unfold visited. destruct (marked nodeName d); reflexivity.
Qed.

Lemma Vendored_loop_all_marked nodeName deployments :
  forall (t : Vendored.Terminator) (updateErrors : list error),
  Forall (fun d => marked nodeName d = true) deployments ->
  Vendored.RestartDeployments_loop kubeUpdate nodeName t deployments updateErrors =
    ret (t, map (visited nodeName) deployments, updateErrors).
Proof.
  induction deployments as [|d ds IH]; intros t errs Hall; [reflexivity|].
  inversion Hall as [|? ? Hd Hds]; subst.
  cbn [Vendored.RestartDeployments_loop].
  rewrite (Vendored_body_marked _ _ _ Hd). cbn [mbind go_bind].
  rewrite (IH t errs Hds). reflexivity.
Qed.

Lemma length_pos_combined (updateErrors : list error) (A : Type) (x y : A) :
  (if 0 <? Z.of_nat (length updateErrors) then x else y) =
  match combined updateErrors with Some _ => x | None => y end.
Proof. destruct updateErrors; reflexivity. Qed.

(** X10. When the record has an inner map for the node, the vendored
    [RestartDeployments] sends one update for every deployment that is not
    yet marked, whatever the earlier updates answered, records each of them
    whatever its own update answered, and returns the failures as one
    error. *)
Lemma Vendored_RestartDeployments_with_record nodeName deployments
    (t : Vendored.Terminator) (inner : gset string) :
  Vendored.nodeRestartDeployments t !! nodeName = Some inner ->
  exists t',
    Vendored.RestartDeployments kubeUpdate t deployments nodeName =
      ret (t', map (visited nodeName) deployments,
           combined (omap kubeUpdate (to_restart nodeName deployments))) /\
    Vendored.kubeClient t' =
      Vendored.kubeClient t ++ map UpdateDeployment (to_restart nodeName deployments) /\
    Vendored.nodeRestartDeployments t' !! nodeName =
      Some (list_to_set (map deployment_key (to_restart nodeName deployments)) ∪ inner).
Proof.
  intros Hinner. unfold Vendored.RestartDeployments.
  destruct (Vendored_loop_with_record nodeName deployments t [] inner Hinner)
    as (t' & -> & Hc & Hr & _).
  exists t'. cbn [mbind go_bind app]. split; [|auto].
  destruct (omap kubeUpdate (to_restart nodeName deployments)); reflexivity.
Qed.

(** X11. Without an inner map for the node in the record, as on a terminator
    that [NewTerminator] made, the vendored [RestartDeployments] faults on a
    list whose first deployment is not yet marked: it assigns to an entry of
    a nil map. *)
Lemma Vendored_RestartDeployments_fault nodeName d rest (t : Vendored.Terminator) :
  Vendored.nodeRestartDeployments t !! nodeName = None ->
  marked nodeName d = false ->
  Vendored.RestartDeployments kubeUpdate t (d :: rest) nodeName =
    panics assignment_to_entry_in_nil_map.
Proof.
  intros Hnone Hd. unfold Vendored.RestartDeployments.
  cbn [Vendored.RestartDeployments_loop].
  rewrite (Vendored_body_fault _ _ _ Hd Hnone). reflexivity.
Qed.

(** X12. A second call of the vendored [RestartDeployments] on the deployments
    as the first call left them sends nothing, changes nothing and returns no
    error, whatever the first call returned. *)
Lemma Vendored_RestartDeployments_again nodeName deployments
    (t t' : Vendored.Terminator) deployments' err :
  Vendored.RestartDeployments kubeUpdate t deployments nodeName = ret (t', deployments', err) ->
  Vendored.RestartDeployments kubeUpdate t' deployments' nodeName = ret (t', deployments', None).
Proof.
  unfold Vendored.RestartDeployments. intros Hrun.
  apply go_bind_ret in Hrun as ([[t1 ds1] errs1] & Hloop & Hret).
  apply Vendored_loop_visited in Hloop. subst ds1.
  assert (deployments' = map (visited nodeName) deployments /\ t' = t1) as [-> ->]
    by (destruct (0 <? Z.of_nat (length errs1)); inversion Hret; auto).
  rewrite Vendored_loop_all_marked.
  - cbn [mbind go_bind length]. simpl. rewrite map_map.
    f_equal. f_equal. f_equal. apply map_ext. intros d. apply visited_visited.
  - apply List.Forall_forall. intros d Hin. apply in_map_iff in Hin as (d0 & <- & _).
    apply marked_visited.
Qed.

End VendoredRestart.

Section Part000Restart.

Variable kubeUpdate : Deployment -> option error.

(** The second source writes its stamp under another key than the one it
    reads: a stamped deployment is no more marked than it was. *)
Lemma marked_stamped_restartedAt nodeName d :
  marked nodeName (stamped d "kubectl.kubernetes.io/restartedAt" nodeName) = marked nodeName d.
Proof.
  unfold marked, marker, stamped. simpl.
  rewrite lookup_insert_ne by discriminate. reflexivity.
Qed.

Lemma Part000_RestartDeployments_unmarked nodeName d rest (t : Part000.Terminator) :
  marked nodeName d = false ->
  let d' := stamped d "kubectl.kubernetes.io/restartedAt" nodeName in
  let t1 := Part000.kubeClient_send t (UpdateDeployment d') in
  Part000.RestartDeployments kubeUpdate t (d :: rest) nodeName =
  match kubeUpdate d' with
  | Some err => (t1, d' :: rest, Some err)
  | None =>
      let '(t2, rest', err) := Part000.RestartDeployments kubeUpdate t1 rest nodeName in
      (t2, d' :: rest', err)
  end.
Proof.
  intros Hd d' t1. unfold marked, marker in Hd.
  cbn [Part000.RestartDeployments].
  destruct (Annotations d) as [a|] eqn:Ea; simpl in Hd; rewrite ?lookup_empty in *.
  - rewrite Hd.
    replace (Part000.set_Annotations _ (Some (<[_ := nodeName]> a))) with d'
      by (unfold d', stamped; rewrite Ea; reflexivity).
    reflexivity.
  - replace (Part000.set_Annotations _ (Some (<[_ := nodeName]> ∅))) with d'
      by (unfold d', stamped; rewrite Ea; reflexivity).
    reflexivity.
Qed.

(** So the second source sends the update of an unmarked deployment again on
    every call. *)
Lemma Part000_RestartDeployments_again nodeName d (t : Part000.Terminator) :
  marked nodeName d = false ->
  (forall d', kubeUpdate d' = None) ->
  let d' := stamped d "kubectl.kubernetes.io/restartedAt" nodeName in
  let '(t1, ds1, _) := Part000.RestartDeployments kubeUpdate t [d] nodeName in
  let '(t2, _, _) := Part000.RestartDeployments kubeUpdate t1 ds1 nodeName in
  Part000.kubeClient t2 =
    Part000.kubeClient t ++ [UpdateDeployment d'; UpdateDeployment d'].
Proof.
  intros Hd Hok d'.
  rewrite (Part000_RestartDeployments_unmarked nodeName d [] t Hd).
  fold d'. rewrite Hok. simpl (Part000.RestartDeployments _ _ [] _). cbv iota beta.
  rewrite (Part000_RestartDeployments_unmarked nodeName d' [] _)
    by (unfold d'; rewrite marked_stamped_restartedAt; exact Hd).
  rewrite Hok. simpl (Part000.RestartDeployments _ _ [] _). cbv iota beta.
  replace (stamped d' "kubectl.kubernetes.io/restartedAt" nodeName) with d'
    by (unfold d', stamped; simpl; rewrite insert_insert_eq; reflexivity).
  simpl. rewrite <- app_assoc. reflexivity.
Qed.

End Part000Restart.

(** C6. Restarting the same deployment for the same node twice is to send
    one update: the second call is to find the marker of the first.  The
    second source writes the marker under [restartedAt] and reads it under
    [restartedNode], so the second call sends the update again. *)
Theorem RestartDeployments_twice_updates_twice :
  let '(t1, ds1, err1) :=
    Part000.RestartDeployments update_ok Part000.NewTerminator [web] "n1" in
  let '(t2, ds2, err2) := Part000.RestartDeployments update_ok t1 ds1 "n1" in
  err1 = None /\ err2 = None /\
  Part000.kubeClient t1 =
    [UpdateDeployment (stamped web "kubectl.kubernetes.io/restartedAt" "n1")] /\
  Part000.kubeClient t2 =
    [UpdateDeployment (stamped web "kubectl.kubernetes.io/restartedAt" "n1");
     UpdateDeployment (stamped web "kubectl.kubernetes.io/restartedAt" "n1")].
Proof. vm_compute. repeat split; reflexivity. Qed.

(** C7. [RestartDeployments] is to attempt the update of every deployment
    even when some updates fail.  In the second source the first failed
    update ends the call: with [api] failing, [web] is never sent and is
    handed back unstamped. *)
Theorem RestartDeployments_stops_at_first_failure :
  let '(t1, ds1, err1) :=
    Part000.RestartDeployments update_api_conflict Part000.NewTerminator [api; web] "n1" in
  err1 = Some (StatusError "Conflict") /\
  Part000.kubeClient t1 =
    [UpdateDeployment (stamped api "kubectl.kubernetes.io/restartedAt" "n1")] /\
  ds1 = [stamped api "kubectl.kubernetes.io/restartedAt" "n1"; web].
Proof. vm_compute. repeat split; reflexivity. Qed.

(** * Eviction tiers *)

Section Tiers.

Variable IsOwnedByDaemonSet : Pod -> bool.

Local Abbreviation slice := (pods_of_tier IsOwnedByDaemonSet).
Local Abbreviation tierOf := (tier_of IsOwnedByDaemonSet).
Local Abbreviation slices := (tiers_in_order IsOwnedByDaemonSet).

Lemma isCritical_critical_priority_class pod :
  Part000.isCritical pod = critical_priority_class pod.
Proof.
  unfold Part000.isCritical, critical_priority_class.
  destruct (String.eqb_spec (PriorityClassName pod) "system-cluster-critical") as [->|H1];
    [ rewrite bool_decide_eq_true_2; auto | ].
  destruct (String.eqb_spec (PriorityClassName pod) "system-node-critical") as [->|H2];
    [ rewrite bool_decide_eq_true_2; auto | ].
  rewrite bool_decide_eq_false_2; [ reflexivity | intros [?|?]; contradiction ].
Qed.

Lemma pods_of_tier_snoc k pods pod :
  slice k (pods ++ [pod]) =
  slice k pods ++
  (if bool_decide (tierOf pod = k) then [pod] else []).
Proof. unfold pods_of_tier. rewrite List.filter_app. reflexivity. Qed.

Lemma Part000_Evict_loop_tiers pods seen :
  Part000.Evict_loop IsOwnedByDaemonSet pods
    {| Part000.criticalNonDaemon := slice CriticalNonDaemon seen;
       Part000.criticalDaemon := slice CriticalDaemon seen;
       Part000.nonCriticalNonDaemon := slice NonCriticalNonDaemon seen;
       Part000.nonCriticalDaemon := slice NonCriticalDaemon seen |} =
    {| Part000.criticalNonDaemon := slice CriticalNonDaemon (seen ++ pods);
       Part000.criticalDaemon := slice CriticalDaemon (seen ++ pods);
       Part000.nonCriticalNonDaemon := slice NonCriticalNonDaemon (seen ++ pods);
       Part000.nonCriticalDaemon := slice NonCriticalDaemon (seen ++ pods) |}.
Proof.
  revert seen. induction pods as [|pod pods IH]; intros seen; simpl.
  - rewrite app_nil_r. reflexivity.
  - replace (seen ++ pod :: pods) with ((seen ++ [pod]) ++ pods)
      by (rewrite <- app_assoc; reflexivity).
    rewrite <- IH. f_equal.
    rewrite !pods_of_tier_snoc. unfold tier_of.
    rewrite isCritical_critical_priority_class.
    destruct (critical_priority_class pod), (IsOwnedByDaemonSet pod);
      repeat case_bool_decide; simplify_eq; rewrite ?app_nil_r; reflexivity.
Qed.


Lemma Part000_Evict_first_nonempty (t : Part000.Terminator) pods :
  Part000.Evict IsOwnedByDaemonSet t pods =
  match first_nonempty (slices pods) with
  | Some podList => Part000.evictionQueue_Add t podList
  | None => t
  end.
Proof.
  unfold Part000.Evict.
  pose proof (Part000_Evict_loop_tiers pods []) as H. simpl in H. rewrite H.
  unfold tiers_in_order. simpl.
  repeat match goal with
         | |- context [slice ?k pods] =>
             destruct (slice k pods); simpl; try reflexivity
         end.
Qed.

Lemma Vendored_Evict_loop_tiers pods seen :
  Vendored.Evict_loop IsOwnedByDaemonSet pods
    {| Vendored.criticalNonDaemon := slice CriticalNonDaemon seen;
       Vendored.criticalDaemon := slice CriticalDaemon seen;
       Vendored.nonCriticalNonDaemon := slice NonCriticalNonDaemon seen;
       Vendored.nonCriticalDaemon := slice NonCriticalDaemon seen |} =
    {| Vendored.criticalNonDaemon := slice CriticalNonDaemon (seen ++ pods);
       Vendored.criticalDaemon := slice CriticalDaemon (seen ++ pods);
       Vendored.nonCriticalNonDaemon := slice NonCriticalNonDaemon (seen ++ pods);
       Vendored.nonCriticalDaemon := slice NonCriticalDaemon (seen ++ pods) |}.
Proof.
  revert seen. induction pods as [|pod pods IH]; intros seen; simpl.
  - rewrite app_nil_r. reflexivity.
  - replace (seen ++ pod :: pods) with ((seen ++ [pod]) ++ pods)
      by (rewrite <- app_assoc; reflexivity).
    rewrite <- IH. f_equal.
    rewrite !pods_of_tier_snoc. unfold tier_of.
    change (Vendored.isCritical pod) with (Part000.isCritical pod).
    rewrite isCritical_critical_priority_class.
    destruct (critical_priority_class pod), (IsOwnedByDaemonSet pod);
      repeat case_bool_decide; simplify_eq; rewrite ?app_nil_r; reflexivity.
Qed.

Lemma Vendored_Evict_first_nonempty (t : Vendored.Terminator) pods :
  Vendored.Evict IsOwnedByDaemonSet t pods =
  match first_nonempty (slices pods) with
  | Some podList => Vendored.evictionQueue_Add t podList
  | None => t
  end.
Proof.
  unfold Vendored.Evict.
  pose proof (Vendored_Evict_loop_tiers pods []) as H. simpl in H. rewrite H.
  unfold tiers_in_order. simpl.
  repeat match goal with
         | |- context [slice ?k pods] =>
             destruct (slice k pods); simpl; try reflexivity
         end.
Qed.

(** Every pod is in the slice of its own tier and in no other. *)
Lemma pods_of_tier_elem k pods pod :
  In pod (slice k pods) <-> In pod pods /\ tierOf pod = k.
Proof.
  unfold pods_of_tier. rewrite List.filter_In, bool_decide_eq_true. reflexivity.
Qed.

Lemma tiers_partition pods :
  pods ≡ₚ slice NonCriticalNonDaemon pods ++ slice NonCriticalDaemon pods
          ++ slice CriticalNonDaemon pods ++ slice CriticalDaemon pods.
Proof.
  induction pods as [|pod pods IH]; [reflexivity|].
  unfold pods_of_tier in *. simpl.
  destruct (tierOf pod); repeat case_bool_decide; simplify_eq; simpl.
  - constructor. exact IH.
  - rewrite <- Permutation_middle. constructor. exact IH.
  - rewrite app_assoc, <- Permutation_middle, <- app_assoc. constructor. exact IH.
  - rewrite 2!app_assoc, <- Permutation_middle, <- 2!app_assoc. constructor. exact IH.
Qed.

(** What [first_nonempty] picks from the four tiers: the pods of the tier
    that comes first in the order among the tiers that have a pod. *)
Lemma first_nonempty_tier pods podList :
  first_nonempty (slices pods) = Some podList ->
  exists k, podList = slice k pods /\ podList <> [] /\
    forall pod, In pod pods -> (tier_rank k <= tier_rank (tierOf pod))%nat.
Proof.
  unfold tiers_in_order. simpl. intros H.
  destruct (slice NonCriticalNonDaemon pods) eqn:E0.
  2:{ exists NonCriticalNonDaemon. inversion H; subst. rewrite E0.
      repeat split; [discriminate | intros; simpl; lia]. }
  destruct (slice NonCriticalDaemon pods) eqn:E1.
  2:{ exists NonCriticalDaemon. inversion H; subst. rewrite E1.
      repeat split; [discriminate |].
      intros pod Hin. destruct (tierOf pod) eqn:Ek; simpl; try lia.
      assert (In pod (slice NonCriticalNonDaemon pods))
        by (apply pods_of_tier_elem; auto).
      rewrite E0 in *. contradiction. }
  destruct (slice CriticalNonDaemon pods) eqn:E2.
  2:{ exists CriticalNonDaemon. inversion H; subst. rewrite E2.
      repeat split; [discriminate |].
      intros pod Hin. destruct (tierOf pod) eqn:Ek; simpl; try lia.
      - assert (In pod (slice NonCriticalNonDaemon pods))
          by (apply pods_of_tier_elem; auto).
        rewrite E0 in *. contradiction.
      - assert (In pod (slice NonCriticalDaemon pods))
          by (apply pods_of_tier_elem; auto).
        rewrite E1 in *. contradiction. }
  destruct (slice CriticalDaemon pods) eqn:E3; [discriminate|].
  exists CriticalDaemon. inversion H; subst. rewrite E3.
  repeat split; [discriminate |].
  intros pod Hin. destruct (tierOf pod) eqn:Ek; simpl; try lia.
  - assert (In pod (slice NonCriticalNonDaemon pods))
      by (apply pods_of_tier_elem; auto).
    rewrite E0 in *. contradiction.
  - assert (In pod (slice NonCriticalDaemon pods))
      by (apply pods_of_tier_elem; auto).
    rewrite E1 in *. contradiction.
  - assert (In pod (slice CriticalNonDaemon pods))
      by (apply pods_of_tier_elem; auto).
    rewrite E2 in *. contradiction.
Qed.

Lemma first_nonempty_none pods :
  first_nonempty (slices pods) = None -> pods = [].
Proof.
  unfold tiers_in_order. simpl. intros H.
  destruct pods as [|pod pods]; [reflexivity|].
  assert (Hin : In pod (slice (tierOf pod) (pod :: pods)))
    by (apply pods_of_tier_elem; split; [left|]; reflexivity).
  destruct (slice NonCriticalNonDaemon (pod :: pods)) eqn:E0; [|discriminate].
  destruct (slice NonCriticalDaemon (pod :: pods)) eqn:E1; [|discriminate].
  destruct (slice CriticalNonDaemon (pod :: pods)) eqn:E2; [|discriminate].
  destruct (slice CriticalDaemon (pod :: pods)) eqn:E3; [|discriminate].
  destruct (tierOf pod); rewrite ?E0, ?E1, ?E2, ?E3 in Hin; contradiction.
Qed.

(** C3. [Evict] partitions the pods into the four tiers, which are disjoint
    and together hold every pod once, and submits to the eviction queue in
    one [Add] exactly the pods of the first tier that is not empty, in the
    order nonCriticalNonDaemon, nonCriticalDaemon, criticalNonDaemon,
    criticalDaemon: every submitted pod is of that tier, and no pod of the
    list is of an earlier tier.  Both sources do so; without pods nothing is
    submitted. *)
Theorem Evict_submits_first_nonempty_tier
    (t : Part000.Terminator) (tv : Vendored.Terminator) (pods : list Pod) :
  pods ≡ₚ concat (tiers_in_order IsOwnedByDaemonSet pods)
  /\ (forall pod k k',
        In pod (pods_of_tier IsOwnedByDaemonSet k pods) ->
        In pod (pods_of_tier IsOwnedByDaemonSet k' pods) -> k = k')
  /\ match first_nonempty (tiers_in_order IsOwnedByDaemonSet pods) with
     | Some podList =>
         Part000.Evict IsOwnedByDaemonSet t pods = Part000.evictionQueue_Add t podList
         /\ Vendored.Evict IsOwnedByDaemonSet tv pods = Vendored.evictionQueue_Add tv podList
         /\ exists k,
              podList = pods_of_tier IsOwnedByDaemonSet k pods
              /\ podList <> []
              /\ (forall pod, In pod podList -> tier_of IsOwnedByDaemonSet pod = k)
              /\ (forall pod, In pod pods ->
                    (tier_rank k <= tier_rank (tier_of IsOwnedByDaemonSet pod))%nat)
     | None =>
         pods = []
         /\ Part000.Evict IsOwnedByDaemonSet t pods = t
         /\ Vendored.Evict IsOwnedByDaemonSet tv pods = tv
     end.
Proof.
  split; [|split].
  - unfold tiers_in_order. simpl. rewrite app_nil_r. apply tiers_partition.
  - intros pod k k' Hk Hk'.
    apply pods_of_tier_elem in Hk as [_ <-]. apply pods_of_tier_elem in Hk' as [_ <-].
    reflexivity.
  - rewrite Part000_Evict_first_nonempty, Vendored_Evict_first_nonempty.
    destruct (first_nonempty (tiers_in_order IsOwnedByDaemonSet pods)) as [podList|] eqn:E.
    + split; [reflexivity|]. split; [reflexivity|].
      destruct (first_nonempty_tier pods podList E) as (k & -> & Hne & Hmin).
      exists k. repeat split; auto.
      intros pod Hin. apply pods_of_tier_elem in Hin as [_ Hk]. exact Hk.
    + split; [apply first_nonempty_none; exact E | split; reflexivity].
Qed.

End Tiers.

(** With [proxy] a critical daemon pod: it is not submitted as long as
    another pod is on the list. *)
Example Evict_defers_critical_daemon :
  Part000.evictionQueue
    (Part000.Evict is_proxy Part000.NewTerminator [proxy; web_1; bare]) = [[web_1; bare]]
  /\ Part000.evictionQueue (Part000.Evict is_proxy Part000.NewTerminator [proxy]) = [[proxy]]
  /\ Vendored.evictionQueue
       (Vendored.Evict is_proxy Vendored.NewTerminator [proxy; web_1; bare]) = [[web_1; bare]].
Proof. repeat split; vm_compute; reflexivity. Qed.

(** ** [Duration.Seconds]: the conversion through [float64] *)

Lemma digits2_pos_spec (p : positive) :
  2 ^ (Zpos (digits2_pos p) - 1) <= Zpos p < 2 ^ Zpos (digits2_pos p).
Proof.
  induction p as [p IH|p IH|]; cbn [digits2_pos].
  - rewrite Pos2Z.inj_succ. replace (Z.succ (Zpos (digits2_pos p)) - 1) with
      (Z.succ (Zpos (digits2_pos p) - 1)) by lia.
    rewrite !Z.pow_succ_r by lia. lia.
  - rewrite Pos2Z.inj_succ. replace (Z.succ (Zpos (digits2_pos p)) - 1) with
      (Z.succ (Zpos (digits2_pos p) - 1)) by lia.
    rewrite !Z.pow_succ_r by lia. lia.
  - simpl. lia.
Qed.

Lemma digits2_pos_unique (p : positive) (k : Z) :
  2 ^ (k - 1) <= Zpos p < 2 ^ k -> Zpos (digits2_pos p) = k.
Proof.
  intros [Hlo Hhi]. pose proof (digits2_pos_spec p) as [Dlo Dhi].
  assert (0 < k).
  { destruct (Z.ltb_spec 0 k); [assumption|].
    assert (2 ^ k <= 2 ^ 0) by (destruct (Z.eq_dec k 0); [subst; lia|];
      rewrite Z.pow_neg_r by lia; simpl; lia). simpl in *. lia. }
  destruct (Z.lt_trichotomy (Zpos (digits2_pos p)) k) as [Hlt|[Heq|Hgt]]; [|exact Heq|].
  - assert (2 ^ Zpos (digits2_pos p) <= 2 ^ (k - 1)) by (apply Z.pow_le_mono_r; lia). lia.
  - assert (2 ^ k <= 2 ^ (Zpos (digits2_pos p) - 1)) by (apply Z.pow_le_mono_r; lia). lia.
Qed.

Lemma iter_pos_nat {A : Type} (f : A -> A) (p : positive) (x : A) :
  SpecFloat.iter_pos f p x = Nat.iter (Pos.to_nat p) f x.
Proof.
  revert x. induction p as [p IH|p IH|]; intros x; cbn [SpecFloat.iter_pos].
  - rewrite !IH, Pos2Nat.inj_xI. cbn [Nat.mul]. rewrite Nat.add_0_r.
    rewrite <- Nat.iter_succ_r, <- Nat.iter_add. f_equal. lia.
  - rewrite !IH, Pos2Nat.inj_xO. cbn [Nat.mul]. rewrite Nat.add_0_r.
    rewrite <- Nat.iter_add. reflexivity.
  - reflexivity.
Qed.

Lemma pos_iter_xO (m d : positive) : Zpos (Pos.iter xO m d) = Zpos m * 2 ^ Zpos d.
Proof.
  revert m. induction d as [|d IH] using Pos.peano_ind; intros m.
  - simpl. lia.
  - rewrite Pos.iter_succ, Pos2Z.inj_succ, Z.pow_succ_r by lia.
    rewrite Pos2Z.inj_xO, IH. lia.
Qed.

(** One step of the right shift, on a mantissa that is not negative. *)
Lemma shr_1_nonneg (m : Z) (r s : bool) :
  0 <= m ->
  shr_1 {| shr_m := m; shr_r := r; shr_s := s |}
  = {| shr_m := m / 2; shr_r := Z.odd m; shr_s := r || s |}.
Proof.
  intros Hm. rewrite <- Z.div2_div.
  destruct m as [|[p|p|]|p]; try reflexivity. lia.
Qed.

Lemma shr_iter_m (k : nat) (m : Z) (r s : bool) :
  0 <= m ->
  shr_m (Nat.iter k shr_1 {| shr_m := m; shr_r := r; shr_s := s |}) = m / 2 ^ Z.of_nat k.
Proof.
  revert m r s. induction k as [|k IH]; intros m r s Hm.
  - simpl. rewrite Z.div_1_r. reflexivity.
  - rewrite Nat.iter_succ_r, shr_1_nonneg by exact Hm.
    rewrite IH by (apply Z.div_pos; lia).
    rewrite Nat2Z.inj_succ, Z.pow_succ_r by lia.
    rewrite Z.div_div by lia. reflexivity.
Qed.

(** From an exact mantissa, the round bit of the shifted record says that
    the bits shifted out make up at least a half. *)
Lemma shr_iter_r (k : nat) (m : Z) :
  0 <= m ->
  shr_r (Nat.iter k shr_1 {| shr_m := m; shr_r := false; shr_s := false |}) = true ->
  (0 < k)%nat /\ 2 ^ Z.of_nat k <= 2 * (m mod 2 ^ Z.of_nat k).
Proof.
  intros Hm. destruct k as [|k]; [discriminate|].
  rewrite Nat.iter_succ.
  set (rec := Nat.iter k shr_1 _).
  assert (Hrec : shr_m rec = m / 2 ^ Z.of_nat k) by (apply shr_iter_m; exact Hm).
  destruct rec as [m' r' s']. cbn [shr_m] in Hrec.
  assert (0 <= m') by (subst m'; apply Z.div_pos; lia).
  rewrite shr_1_nonneg by assumption. cbn [shr_r]. intros Hodd.
  split; [lia|].
  rewrite Nat2Z.inj_succ, Z.pow_succ_r by lia.
  set (P := 2 ^ Z.of_nat k) in *. assert (0 < P) by (apply Z.pow_pos_nonneg; lia).
  rewrite (Z.mul_comm 2 P), Z.rem_mul_r by lia.
  rewrite <- Hrec. rewrite Zmod_odd, Hodd.
  pose proof (Z.mod_pos_bound m P). lia.
Qed.

Lemma round_nearest_even_enclosure (mx : Z) (lx : location) :
  mx <= round_nearest_even mx lx <= mx + 1.
Proof.
  destruct lx as [|[| |]]; simpl; try lia. destruct (Z.even mx); lia.
Qed.

(** Rounding an exact mantissa after a shift of [k] bits: the result is the
    quotient or the next integer, and at most half a unit above the exact
    value. *)
Lemma round_shifted_exact (k : nat) (m : Z) :
  0 <= m ->
  let rec := Nat.iter k shr_1 (shr_record_of_loc m loc_Exact) in
  let m2 := round_nearest_even (shr_m rec) (loc_of_shr_record rec) in
  m / 2 ^ Z.of_nat k <= m2 <= m / 2 ^ Z.of_nat k + 1 /\
  2 * (m2 * 2 ^ Z.of_nat k) <= 2 * m + 2 ^ Z.of_nat k.
Proof.
  intros Hm rec m2.
  assert (Hrec : shr_m rec = m / 2 ^ Z.of_nat k) by (apply shr_iter_m; exact Hm).
  assert (0 < 2 ^ Z.of_nat k) by (apply Z.pow_pos_nonneg; lia).
  pose proof (round_nearest_even_enclosure (shr_m rec) (loc_of_shr_record rec)) as Henc.
  fold m2 in Henc. rewrite Hrec in Henc. split; [exact Henc|].
  pose proof (Z.div_mod m (2 ^ Z.of_nat k)) as Hdm.
  pose proof (Z.mod_pos_bound m (2 ^ Z.of_nat k)) as Hmod.
  destruct (shr_r rec) eqn:Hr.
  - apply shr_iter_r in Hr as [_ Hhalf]; [|exact Hm]. nia.
  - assert (m2 = shr_m rec).
    { unfold m2. destruct rec as [m' r' s']. simpl in Hr. subst r'.
      destruct s'; reflexivity. }
    nia.
Qed.

Lemma shr_nonneg (mrs : shr_record) (e n : Z) :
  0 <= n -> shr mrs e n = (Nat.iter (Z.to_nat n) shr_1 mrs, e + n).
Proof.
  intros Hn. destruct n as [|p|p]; [| |lia].
  - simpl. rewrite Z.add_0_r. reflexivity.
  - cbn [shr]. rewrite iter_pos_nat, Z2Nat.inj_pos. reflexivity.
Qed.

Lemma shr_iter_m_loc (k : nat) (m : Z) (l : location) :
  0 <= m -> shr_m (Nat.iter k shr_1 (shr_record_of_loc m l)) = m / 2 ^ Z.of_nat k.
Proof. intros Hm. destruct l as [|[| |]]; apply shr_iter_m; exact Hm. Qed.

Lemma fexp_normal (e : Z) : -1074 <= e - 53 -> fexp 53 1024 e = e - 53.
Proof. intros H. unfold fexp, emin. lia. Qed.

(** The second stage of [binary_round_aux]: a mantissa that the rounding
    carried to [2^53] is shifted once more; the value is kept. *)
Lemma normalize_stage (sx : bool) (m2 e2 : Z) :
  2 ^ 52 <= m2 <= 2 ^ 53 -> -1074 <= e2 -> e2 < 971 ->
  exists m3 e3,
    (let '(mrs, e) := shr_fexp 53 1024 m2 e2 loc_Exact in
     match shr_m mrs with
     | Z0 => S754_zero sx
     | Zpos m => if Z.leb e (Z.sub 1024 53) then S754_finite sx m e else S754_infinity sx
     | _ => S754_nan
     end) = S754_finite sx m3 e3 /\
    Zpos (digits2_pos m3) = 53 /\ e2 <= e3 /\ Zpos m3 * 2 ^ (e3 - e2) = m2.
Proof.
  intros Hm He Hemax. unfold shr_fexp.
  destruct m2 as [|p2|p2]; [simpl in Hm; lia| |lia].
  cbn [Zdigits2].
  destruct (Z.eq_dec (Zpos p2) (2 ^ 53)) as [Heq|Hne].
  - assert (Hp : p2 = 9007199254740992%positive) by (apply Pos2Z.inj; exact Heq).
    subst p2. exists (4503599627370496)%positive, (e2 + 1).
    assert (Hd : Zpos (digits2_pos 9007199254740992) = 54) by reflexivity.
    rewrite Hd, fexp_normal by lia.
    replace (54 + e2 - 53 - e2) with 1 by lia.
    rewrite shr_nonneg by lia.
    replace (e2 + 1 - e2) with 1 by lia.
    split; [|repeat split; try reflexivity; lia].
    change (Nat.iter (Z.to_nat 1) shr_1
              (shr_record_of_loc 9007199254740992 loc_Exact))
      with {| shr_m := 4503599627370496; shr_r := false; shr_s := false |}.
    cbn [shr_m]. change (Z.sub 1024 53) with 971.
    destruct (Z.leb_spec (e2 + 1) 971); [reflexivity|lia].
  - assert (Hd : Zpos (digits2_pos p2) = 53).
    { apply digits2_pos_unique. change (53 - 1) with 52.
      change (2 ^ 52) with 4503599627370496 in *.
      change (2 ^ 53) with 9007199254740992 in *. lia. }
    rewrite Hd, fexp_normal by lia.
    replace (53 + e2 - 53 - e2) with 0 by lia.
    rewrite shr_nonneg by lia. rewrite Z.add_0_r.
    exists p2, e2. rewrite Z.sub_diag, Z.pow_0_r, Z.mul_1_r.
    split; [|repeat split; try assumption; lia].
    change (Nat.iter (Z.to_nat 0) shr_1 (shr_record_of_loc (Zpos p2) loc_Exact))
      with {| shr_m := Zpos p2; shr_r := false; shr_s := false |}.
    cbn [shr_m]. change (Z.sub 1024 53) with 971.
    destruct (Z.leb_spec e2 971); [reflexivity|lia].
Qed.

(** The shape of a rounded result, for a mantissa of at least 53 bits and an
    exponent away from the subnormal and the overflow range: a normal number
    whose value is the mantissa shifted and rounded. *)
Lemma binary_round_aux_shape (sx : bool) (m e : Z) (l : location) :
  0 < m ->
  53 <= Zdigits2 m -> -1074 <= Zdigits2 m + e - 53 -> Zdigits2 m + e - 53 < 971 ->
  let k := Zdigits2 m - 53 in
  let rec := Nat.iter (Z.to_nat k) shr_1 (shr_record_of_loc m l) in
  let m2 := round_nearest_even (shr_m rec) (loc_of_shr_record rec) in
  exists m3 e3,
    binary_round_aux 53 1024 sx m e l = S754_finite sx m3 e3 /\
    Zpos (digits2_pos m3) = 53 /\
    e + k <= e3 /\ Zpos m3 * 2 ^ (e3 - (e + k)) = m2.
Proof.
  intros Hm HD Hmin Hmax k rec m2.
  unfold binary_round_aux, shr_fexp at 1.
  rewrite fexp_normal by lia.
  replace (Zdigits2 m + e - 53 - e) with k by (unfold k; lia).
  rewrite shr_nonneg by (unfold k; lia). fold rec. fold m2.
  apply normalize_stage; [|lia|unfold k; lia].
  assert (Hrec : shr_m rec = m / 2 ^ k).
  { unfold rec. rewrite shr_iter_m_loc by lia. rewrite Z2Nat.id by (unfold k; lia).
    reflexivity. }
  pose proof (round_nearest_even_enclosure (shr_m rec) (loc_of_shr_record rec)) as Henc.
  fold m2 in Henc. rewrite Hrec in Henc.
  assert (Hk : 0 <= k) by (unfold k; lia).
  assert (Hpk : 0 < 2 ^ k) by (apply Z.pow_pos_nonneg; lia).
  destruct m as [|p|p]; [lia| |lia]. cbn [Zdigits2] in *.
  pose proof (digits2_pos_spec p) as [Dlo Dhi].
  replace (Zpos (digits2_pos p) - 1) with (52 + k) in Dlo by (unfold k; lia).
  replace (Zpos (digits2_pos p)) with (53 + k) in Dhi by (unfold k; lia).
  rewrite Z.pow_add_r in Dlo, Dhi by lia.
  assert (2 ^ 52 <= Zpos p / 2 ^ k) by (apply Z.div_le_lower_bound; lia).
  assert (Zpos p / 2 ^ k < 2 ^ 53) by (apply Z.div_lt_upper_bound; lia).
  lia.
Qed.

Lemma shl_align_spec (mx : positive) (ex ex' : Z) :
  ex' <= ex ->
  exists m', shl_align mx ex ex' = (m', ex') /\ Zpos m' = Zpos mx * 2 ^ (ex - ex').
Proof.
  intros Hle. unfold shl_align. destruct (ex' - ex) as [|d|d] eqn:E; [| lia |].
  - assert (ex' = ex) by lia. subst ex'. exists mx. rewrite Z.sub_diag. simpl.
    split; [reflexivity | lia].
  - exists (Pos.iter xO mx d). split; [reflexivity|].
    rewrite pos_iter_xO. f_equal. f_equal. lia.
Qed.


(** [int64(f)] of a number in range. *)
Lemma int64_of_float64_repr f sx v E :
  repr f sx v E -> E <= 0 -> v / 2 ^ (- E) <= 9223372036854775807 ->
  int64_of_float64 f = cond_Zopp sx (v / 2 ^ (- E)).
Proof.
  intros (m & e & -> & Hd & HE & Hv) HE0 Hmax.
  assert (HpE : 0 < 2 ^ (- E)) by (apply Z.pow_pos_nonneg; lia).
  assert (Hq : (if 0 <=? e then Zpos m * 2 ^ e else Zpos m / 2 ^ (- e)) = v / 2 ^ (- E)).
  { rewrite <- Hv. destruct (Z.leb_spec 0 e).
    - replace (e - E) with (e + - E) by lia. rewrite Z.pow_add_r by lia.
      rewrite Z.mul_assoc, Z.div_mul by lia. reflexivity.
    - assert (0 < 2 ^ (- e)) by (apply Z.pow_pos_nonneg; lia).
      assert (0 < 2 ^ (e - E)) by (apply Z.pow_pos_nonneg; lia).
      replace (- E) with (- e + (e - E)) by lia. rewrite Z.pow_add_r by lia.
      rewrite Z.div_mul_cancel_r by lia. reflexivity. }
  unfold int64_of_float64. rewrite Hq.
  assert (0 <= v / 2 ^ (- E)).
  { apply Z.div_pos; [|exact HpE]. rewrite <- Hv.
    assert (0 < 2 ^ (e - E)) by (apply Z.pow_pos_nonneg; lia). lia. }
  unfold minInt64, maxInt64.
  destruct sx; cbn [cond_Zopp].
  - destruct (Z.leb_spec (-9223372036854775808) (- (v / 2 ^ (- E))));
      destruct (Z.leb_spec (- (v / 2 ^ (- E))) 9223372036854775807); simpl; lia.
  - destruct (Z.leb_spec (-9223372036854775808) (v / 2 ^ (- E)));
      destruct (Z.leb_spec (v / 2 ^ (- E)) 9223372036854775807); simpl; lia.
Qed.

(** [float64(z)] of an integer of at most 53 bits is exact. *)
Lemma float64_of_int64_finite (sx : bool) (z : Z) :
  0 < z < 2 ^ 53 ->
  exists m E,
    float64_of_int64 (cond_Zopp sx z) = S754_finite sx m E /\
    Zpos (digits2_pos m) = 53 /\ -52 <= E <= 0 /\ Zpos m = z * 2 ^ (- E).
Proof.
  intros Hz. destruct z as [|p|p]; [lia| |lia].
  assert (Heq : float64_of_int64 (cond_Zopp sx (Zpos p)) = binary_round 53 1024 sx p 0)
    by (destruct sx; reflexivity).
  rewrite Heq. unfold binary_round.
  pose proof (digits2_pos_spec p) as [Dlo Dhi].
  set (d := Zpos (digits2_pos p)) in *.
  assert (Hd : 1 <= d <= 53).
  { split; [unfold d; lia|].
    destruct (Z.leb_spec d 53); [assumption|].
    assert (2 ^ 53 <= 2 ^ (d - 1)) by (apply Z.pow_le_mono_r; lia). lia. }
  rewrite Z.add_0_r, fexp_normal by lia.
  destruct (shl_align_spec p 0 (d - 53)) as (m' & -> & Hm'); [lia|].
  replace (0 - (d - 53)) with (53 - d) in Hm' by lia.
  assert (Hp : 0 < 2 ^ (53 - d)) by (apply Z.pow_pos_nonneg; lia).
  assert (Hdm : Zpos (digits2_pos m') = 53).
  { apply digits2_pos_unique. rewrite Hm'. change (53 - 1) with 52.
    assert (H52 : 2 ^ 52 = 2 ^ (d - 1) * 2 ^ (53 - d))
      by (rewrite <- Z.pow_add_r by lia; f_equal; lia).
    assert (H53 : 2 ^ 53 = 2 ^ d * 2 ^ (53 - d))
      by (rewrite <- Z.pow_add_r by lia; f_equal; lia).
    rewrite H52, H53. nia. }
  destruct (binary_round_aux_shape sx (Zpos m') (d - 53) loc_Exact)
    as (m3 & e3 & Hres & Hd3 & He3 & Hv3);
    cbn [Zdigits2]; rewrite ?Hdm; try lia.
  cbn [Zdigits2] in Hv3, He3. rewrite Hdm in Hv3, He3.
  replace (d - 53 + (53 - 53)) with (d - 53) in * by lia.
  change (round_nearest_even _ _) with (Zpos m') in Hv3.
  assert (e3 = d - 53).
  { destruct (Z.eq_dec e3 (d - 53)); [assumption|exfalso].
    pose proof (digits2_pos_spec m3) as [Dlo3 Dhi3].
    pose proof (digits2_pos_spec m') as [Dlo' Dhi'].
    rewrite Hd3 in *. rewrite Hdm in *.
    assert (2 ^ 1 <= 2 ^ (e3 - (d - 53))) by (apply Z.pow_le_mono_r; lia).
    change (2 ^ 1) with 2 in *. change (53 - 1) with 52 in *.
    change (2 ^ 52) with 4503599627370496 in *.
    change (2 ^ 53) with 9007199254740992 in *. nia. }
  subst e3. rewrite Z.sub_diag, Z.pow_0_r, Z.mul_1_r in Hv3.
  exists m3, (d - 53). replace (- (d - 53)) with (53 - d) by lia.
  repeat split; try assumption; lia.
Qed.

Lemma SFdiv_core_binary_53 (mx my : positive) (ex ey : Z) :
  Zpos (digits2_pos mx) = 53 -> Zpos (digits2_pos my) = 53 ->
  -1074 <= ex - ey - 53 ->
  SFdiv_core_binary 53 1024 (Zpos mx) ex (Zpos my) ey
  = (Zpos mx * 2 ^ 53 / Zpos my, ex - ey - 53,
     new_location (Zpos my) ((Zpos mx * 2 ^ 53) mod Zpos my)).
Proof.
  intros Hdx Hdy Hmin. unfold SFdiv_core_binary. cbn [Zdigits2]. rewrite Hdx, Hdy.
  replace (53 + ex - (53 + ey)) with (ex - ey) by lia.
  rewrite fexp_normal by lia. rewrite Z.min_l by lia.
  replace (ex - ey - (ex - ey - 53)) with 53 by lia.
  cbv zeta. cbv iota.
  rewrite Z.shiftl_mul_pow2 by lia.
  destruct (Z.div_eucl (Zpos mx * 2 ^ 53) (Zpos my)) as [q r] eqn:E.
  assert (q = Zpos mx * 2 ^ 53 / Zpos my) by (unfold Z.div; rewrite E; reflexivity).
  assert (r = (Zpos mx * 2 ^ 53) mod Zpos my) by (unfold Z.modulo; rewrite E; reflexivity).
  subst. reflexivity.
Qed.

(** The quotient of two normal numbers of one sign pattern. *)
Lemma float64_div_normal (sx : bool) (mx my : positive) (ex ey : Z) :
  Zpos (digits2_pos mx) = 53 -> Zpos (digits2_pos my) = 53 ->
  -1074 <= ex - ey - 53 -> ex - ey - 53 + 1 < 971 ->
  exists vq,
    repr (float64_div (S754_finite sx mx ex) (S754_finite false my ey)) sx vq (ex - ey - 53) /\
    0 < vq /\ vq <= Zpos mx * 2 ^ 53 / Zpos my + 2.
Proof.
  intros Hdx Hdy Hmin Hmax. unfold float64_div, SFdiv.
  rewrite SFdiv_core_binary_53 by assumption.
  rewrite xorb_false_r.
  set (q := Zpos mx * 2 ^ 53 / Zpos my).
  set (l := new_location _ _).
  pose proof (digits2_pos_spec mx) as [Xlo Xhi]. rewrite Hdx in Xlo, Xhi.
  pose proof (digits2_pos_spec my) as [Ylo Yhi]. rewrite Hdy in Ylo, Yhi.
  change (53 - 1) with 52 in *.
  change (2 ^ 52) with 4503599627370496 in *.
  change (2 ^ 53) with 9007199254740992 in *.
  assert (Hqlo : 4503599627370496 <= q) by (apply Z.div_le_lower_bound; lia).
  assert (Hqhi : q < 18014398509481984) by (apply Z.div_lt_upper_bound; lia).
  assert (Hdq : Zdigits2 q = 53 \/ Zdigits2 q = 54).
  { destruct q as [|pq|pq]; [lia| |lia]. cbn [Zdigits2].
    destruct (Z.ltb_spec (Zpos pq) 9007199254740992).
    - left. apply digits2_pos_unique. change (2 ^ (53 - 1)) with 4503599627370496.
      change (2 ^ 53) with 9007199254740992. lia.
    - right. apply digits2_pos_unique. change (2 ^ (54 - 1)) with 9007199254740992.
      change (2 ^ 54) with 18014398509481984. lia. }
  destruct (binary_round_aux_shape sx q (ex - ey - 53) l)
    as (m3 & e3 & Hres & Hd3 & He3 & Hv3); try lia.
  set (k := Zdigits2 q - 53) in *.
  assert (Hk : k = 0 \/ k = 1) by (unfold k; lia).
  set (rec := Nat.iter (Z.to_nat k) shr_1 (shr_record_of_loc q l)) in *.
  pose proof (round_nearest_even_enclosure (shr_m rec) (loc_of_shr_record rec)) as Henc.
  rewrite <- Hv3 in Henc.
  assert (Hrec : shr_m rec = q / 2 ^ k).
  { unfold rec. rewrite shr_iter_m_loc by lia. rewrite Z2Nat.id by lia. reflexivity. }
  rewrite Hrec in Henc.
  assert (Hpk : 0 < 2 ^ k) by (apply Z.pow_pos_nonneg; lia).
  exists (Zpos m3 * 2 ^ (e3 - (ex - ey - 53 + k)) * 2 ^ k).
  split; [|split].
  - exists m3, e3. rewrite Hres. repeat split; try assumption; try lia.
    rewrite <- Z.mul_assoc, <- Z.pow_add_r by lia. f_equal. f_equal. lia.
  - assert (0 < 2 ^ (e3 - (ex - ey - 53 + k))) by (apply Z.pow_pos_nonneg; lia). nia.
  - fold q. clearbody q rec l. clear Hrec Hres Hv3.
    set (M := Zpos m3 * 2 ^ (e3 - (ex - ey - 53 + k))) in *. clearbody M.
    destruct Hk as [Hk|Hk]; rewrite Hk in *.
    + rewrite Z.pow_0_r, Z.div_1_r in *. lia.
    + rewrite Z.pow_1_r in *. pose proof (Z.mul_div_le q 2). lia.
Qed.

(** The sum of two numbers of one sign. *)
Lemma float64_add_same_sign (sx : bool) (mx my : positive) (ex ey : Z) :
  let ez := Z.min ex ey in
  let X := Zpos mx * 2 ^ (ex - ez) + Zpos my * 2 ^ (ey - ez) in
  let k := Zdigits2 X - 53 in
  53 <= Zdigits2 X -> -1074 <= ez + k -> ez + k < 971 ->
  exists m4,
    repr (float64_add (S754_finite sx mx ex) (S754_finite sx my ey)) sx m4 (ez + k) /\
    X / 2 ^ k <= m4 /\ 2 * (m4 * 2 ^ k) <= 2 * X + 2 ^ k.
Proof.
  intros ez X k HD Hmin Hmax. unfold float64_add, SFadd. fold ez.
  destruct (shl_align_spec mx ex ez) as (a & -> & Ha); [unfold ez; lia|].
  destruct (shl_align_spec my ey ez) as (b & -> & Hb); [unfold ez; lia|].
  cbn [fst].
  assert (HX : X = Zpos (a + b)) by (unfold X; rewrite Pos2Z.inj_add; lia).
  assert (Hn : binary_normalize 53 1024 (cond_Zopp sx (Zpos a) + cond_Zopp sx (Zpos b)) ez false
               = binary_round 53 1024 sx (a + b) ez) by (destruct sx; reflexivity).
  rewrite Hn. unfold binary_round.
  rewrite HX in HD. cbn [Zdigits2] in HD.
  rewrite fexp_normal by (unfold k in Hmin; rewrite HX in Hmin; cbn [Zdigits2] in Hmin; lia).
  unfold shl_align.
  assert (Hk : 0 <= k) by (unfold k; rewrite HX; cbn [Zdigits2]; lia).
  replace (Zpos (digits2_pos (a + b)) + ez - 53 - ez) with k
    by (unfold k; rewrite HX; cbn [Zdigits2]; lia).
  assert (Hsh : match k with
                | Zneg d => (Pos.iter xO (a + b)%positive d, Zpos (digits2_pos (a + b)) + ez - 53)
                | _ => ((a + b)%positive, ez)
                end = ((a + b)%positive, ez)) by (destruct k; [reflexivity|reflexivity|lia]).
  rewrite Hsh.
  destruct (binary_round_aux_shape sx (Zpos (a + b)) ez loc_Exact)
    as (m3 & e3 & Hres & Hd3 & He3 & Hv3); cbn [Zdigits2]; try lia.
  { unfold k in Hmin. rewrite HX in Hmin. cbn [Zdigits2] in Hmin. lia. }
  { unfold k in Hmax. rewrite HX in Hmax. cbn [Zdigits2] in Hmax. lia. }
  cbn [Zdigits2] in He3, Hv3.
  replace (Zpos (digits2_pos (a + b)) - 53) with k in *
    by (unfold k; rewrite HX; cbn [Zdigits2]; lia).
  pose proof (round_shifted_exact (Z.to_nat k) (Zpos (a + b))) as Hround.
  cbv zeta in Hround. rewrite Z2Nat.id in Hround by lia.
  rewrite <- Hv3 in Hround. rewrite <- HX in Hround.
  destruct Hround as [[Hlo _] Hhalf]; [lia|].
  exists (Zpos m3 * 2 ^ (e3 - (ez + k))). split; [|split; assumption].
  exists m3, e3. rewrite Hres. repeat split; try assumption.
Qed.

Lemma pow2_le_inv (a b : Z) : 0 <= b -> 2 ^ a <= 2 ^ b -> a <= b.
Proof.
  intros Hb H. destruct (Z.leb_spec a b); [assumption|exfalso].
  assert (2 ^ b < 2 ^ a) by (apply Z.pow_lt_mono_r; lia). lia.
Qed.

Lemma pow2_lt_inv (a b : Z) : 0 <= b -> 2 ^ a < 2 ^ b -> a < b.
Proof.
  intros Hb H. destruct (Z.ltb_spec a b); [assumption|exfalso].
  assert (2 ^ b <= 2 ^ a) by (apply Z.pow_le_mono_r; lia). lia.
Qed.

(** Below 2^24 seconds the conversion of [Seconds] loses nothing that the
    truncation to [int64] keeps. *)
Lemma seconds_core (sx : bool) (sec nsec : Z) :
  0 <= sec < 16777216 -> 0 <= nsec < 1000000000 ->
  int64_of_float64
    (float64_add (float64_of_int64 (cond_Zopp sx sec))
       (float64_div (float64_of_int64 (cond_Zopp sx nsec)) (float64_of_int64 1000000000)))
  = cond_Zopp sx sec.
Proof.
  intros Hsec Hnsec.
  change (float64_of_int64 1000000000) with (S754_finite false 8388608000000000 (-23)).
  assert (Hz : cond_Zopp sx 0 = 0) by (destruct sx; reflexivity).
  assert (H53 : 2 ^ 53 = 9007199254740992) by reflexivity.
  destruct (Z.eq_dec nsec 0) as [->|Hn].
  - rewrite Hz. change (float64_of_int64 0) with (S754_zero false).
    change (float64_div (S754_zero false) _) with (S754_zero false).
    destruct (Z.eq_dec sec 0) as [->|Hs].
    + rewrite Hz. reflexivity.
    + destruct (float64_of_int64_finite sx sec) as (m & E & -> & Hd & HE & Hm); [lia|].
      change (float64_add (S754_finite sx m E) (S754_zero false)) with (S754_finite sx m E).
      assert (0 < 2 ^ (- E)) by (apply Z.pow_pos_nonneg; lia).
      rewrite (int64_of_float64_repr _ sx (Zpos m) E).
      * rewrite Hm, Z.div_mul by lia. reflexivity.
      * exists m, E. rewrite Z.sub_diag, Z.pow_0_r, Z.mul_1_r. repeat split; auto; lia.
      * lia.
      * rewrite Hm, Z.div_mul by lia. lia.
  - destruct (float64_of_int64_finite sx nsec) as (mn & en & -> & Hdn & Hen & Hmn); [lia|].
    destruct (float64_div_normal sx mn 8388608000000000 en (-23))
      as (vq & Hrepr & Hvq0 & Hvq); [assumption|reflexivity|lia|lia|].
    replace (en - -23 - 53) with (en - 30) in Hrepr by lia.
    pose proof (digits2_pos_spec mn) as [Nlo Nhi]. rewrite Hdn in Nlo, Nhi.
    change (53 - 1) with 52 in Nlo.
    change (2 ^ 52) with 4503599627370496 in Nlo.
    (* the exponent of the numerator *)
    assert (Hen23 : en <= -23).
    { destruct (Z.leb_spec en (-23)); [assumption|exfalso].
      assert (2 ^ (- en) <= 2 ^ 22) by (apply Z.pow_le_mono_r; lia).
      change (2 ^ 22) with 4194304 in *.
      assert (0 < 2 ^ (- en)) by (apply Z.pow_pos_nonneg; lia). nia. }
    set (U := 2 ^ (- (en - 30))).
    assert (HU : U = 2 ^ (- en) * 1073741824).
    { unfold U. replace (- (en - 30)) with (- en + 30) by lia.
      rewrite Z.pow_add_r by lia. reflexivity. }
    assert (HU53 : 9007199254740992 <= U).
    { unfold U. change 9007199254740992 with (2 ^ 53). apply Z.pow_le_mono_r; lia. }
    assert (Hq : (vq - 2) * 1000000000 <= nsec * U).
    { pose proof (Z.mul_div_le (Zpos mn * 2 ^ 53) 8388608000000000) as Hdiv.
      set (q := Zpos mn * 2 ^ 53 / 8388608000000000) in *. clearbody q.
      change (2 ^ 53) with 9007199254740992 in *.
      rewrite HU. rewrite Hmn in Hdiv. set (P := 2 ^ (- en)) in *. nia. }
    assert (HvqU : vq < U) by nia.
    destruct Hrepr as (mq & eq & HQ & Hdq & HEq & Hvq').
    rewrite HQ.
    pose proof (digits2_pos_spec mq) as [Qlo Qhi]. rewrite Hdq in Qlo, Qhi.
    change (53 - 1) with 52 in Qlo.
    change (2 ^ 52) with 4503599627370496 in Qlo.
    destruct (Z.eq_dec sec 0) as [->|Hs].
    + rewrite Hz. change (float64_of_int64 0) with (S754_zero false).
      change (float64_add (S754_zero false) (S754_finite sx mq eq))
        with (S754_finite sx mq eq).
      rewrite (int64_of_float64_repr _ sx vq (en - 30)).
      * fold U. rewrite Z.div_small by lia. exact Hz.
      * exists mq, eq. repeat split; auto.
      * lia.
      * fold U. rewrite Z.div_small by lia. lia.
    + destruct (float64_of_int64_finite sx sec) as (ms & es & -> & Hds & Hes & Hms); [lia|].
      assert (Heq53 : eq <= -53).
      { destruct (Z.leb_spec eq (-53)); [assumption|exfalso].
        assert (2 ^ (-52 - (en - 30)) <= 2 ^ (eq - (en - 30)))
          by (apply Z.pow_le_mono_r; lia).
        assert (4503599627370496 * 2 ^ (-52 - (en - 30)) = U).
        { unfold U. change 4503599627370496 with (2 ^ 52).
          rewrite <- Z.pow_add_r by lia. f_equal. lia. }
        assert (0 < 2 ^ (-52 - (en - 30))) by (apply Z.pow_pos_nonneg; lia).
        nia. }
      set (W := 2 ^ (- eq)).
      set (c := 2 ^ (eq - (en - 30))) in *.
      assert (HW : 9007199254740992 <= W).
      { unfold W. change 9007199254740992 with (2 ^ 53). apply Z.pow_le_mono_r; lia. }
      assert (Hc : 0 < c) by (apply Z.pow_pos_nonneg; lia).
      assert (HUW : U = W * c).
      { unfold U, W, c. rewrite <- Z.pow_add_r by lia. f_equal. lia. }
      assert (Hmq : Zpos mq * 1000000000 <= (1000000000 - 1) * W + 2000000000).
      { rewrite HUW in Hq. rewrite <- Hvq' in Hq. nia. }
      assert (HsW : Zpos ms * 2 ^ (es - eq) = sec * W).
      { rewrite Hms, <- Z.mul_assoc, <- Z.pow_add_r by lia. unfold W.
        f_equal. f_equal. lia. }
      pose proof (float64_add_same_sign sx ms mq es eq) as Hadd.
      cbv zeta in Hadd. rewrite Z.min_r in Hadd by lia.
      rewrite Z.sub_diag, Z.pow_0_r, Z.mul_1_r, HsW in Hadd.
      set (X := sec * W + Zpos mq) in *.
      assert (HX0 : 0 < X) by (unfold X; nia).
      assert (HXlo : 4503599627370496 <= X) by (unfold X; nia).
      assert (HXhi : X < 16777216 * W) by (unfold X; nia).
      assert (HDX : 53 <= Zdigits2 X /\ Zdigits2 X <= 24 - eq).
      { destruct X as [|pX|pX]; [lia| |lia]. cbn [Zdigits2].
        pose proof (digits2_pos_spec pX) as [Dlo Dhi]. split.
        - apply Z.lt_pred_le. apply pow2_lt_inv; [lia|].
          change (2 ^ Z.pred 53) with 4503599627370496. lia.
        - assert (2 ^ (Zpos (digits2_pos pX) - 1) < 2 ^ (24 - eq)).
          { replace (24 - eq) with (24 + - eq) by lia. rewrite Z.pow_add_r by lia.
            fold W. change (2 ^ 24) with 16777216. lia. }
          apply pow2_lt_inv in H; lia. }
      set (k := Zdigits2 X - 53) in *.
      destruct Hadd as (m4 & Hr4 & Hlo4 & Hhi4); [lia|lia|lia|].
      assert (Hk0 : 0 <= k) by (unfold k; lia).
      set (T := 2 ^ (- (eq + k))).
      assert (HT : 0 < T) by (apply Z.pow_pos_nonneg; lia).
      assert (Hpk : 0 < 2 ^ k) by (apply Z.pow_pos_nonneg; lia).
      assert (HWT : W = T * 2 ^ k).
      { unfold W, T. rewrite <- Z.pow_add_r by lia. f_equal. lia. }
      assert (Hk29 : 536870912 * 2 ^ k <= W).
      { change 536870912 with (2 ^ 29). rewrite <- Z.pow_add_r by lia.
        unfold W. apply Z.pow_le_mono_r; lia. }
      assert (Hdiv : m4 / T = sec).
      { symmetry. apply Z.div_unique with (r := m4 - T * sec); [|lia].
        left. split.
        - assert (sec * T <= X / 2 ^ k).
          { apply Z.div_le_lower_bound; [lia|]. unfold X. rewrite HWT. nia. }
          lia.
        - assert (2 * (m4 * 2 ^ k) < 2 * ((sec + 1) * W)) by (unfold X in Hhi4; lia).
          rewrite HWT in H. nia. }
      rewrite (int64_of_float64_repr _ sx m4 (eq + k)); fold T.
      * rewrite Hdiv. reflexivity.
      * exact Hr4.
      * lia.
      * rewrite Hdiv. lia.
Qed.

Theorem Duration_Seconds_int64_exact (d : Z) :
  -16777216 * time_Second < d < 16777216 * time_Second ->
  Duration_Seconds_int64 d = Z.quot d time_Second.
Proof.
  intros Hd. unfold Duration_Seconds_int64, Duration_Seconds, time_Second in *.
  destruct (Z.ltb_spec d 0).
  - replace d with (- (- d)) by lia.
    rewrite Z.quot_opp_l, Z.rem_opp_l by lia.
    rewrite Z.quot_div_nonneg, Z.rem_mod_nonneg by lia.
    apply (seconds_core true).
    + split; [apply Z.div_pos; lia | apply Z.div_lt_upper_bound; lia].
    + apply Z.mod_pos_bound. lia.
  - rewrite Z.quot_div_nonneg, Z.rem_mod_nonneg by lia.
    apply (seconds_core false).
    + split; [apply Z.div_pos; lia | apply Z.div_lt_upper_bound; lia].
    + apply Z.mod_pos_bound. lia.
Qed.


Lemma binary_round_aux_not_positive (m e : Z) (l : location) :
  not_positive (binary_round_aux 53 1024 true m e l).
Proof.
  unfold binary_round_aux.
  destruct (shr_fexp 53 1024 m e l) as [mrs' e'].
  destruct (shr_fexp 53 1024 _ e' loc_Exact) as [mrs'' e''].
  destruct (shr_m mrs'') as [|p|p]; [exact I| |exact I].
  destruct (_ <=? _); exact I.
Qed.

Lemma binary_round_not_positive (m : positive) (e : Z) :
  not_positive (binary_round 53 1024 true m e).
Proof.
  unfold binary_round. destruct (shl_align m e _) as [mz ez].
  apply binary_round_aux_not_positive.
Qed.

Lemma float64_of_int64_not_positive (z : Z) :
  z <= 0 -> not_positive (float64_of_int64 z).
Proof.
  intros Hz. destruct z as [|p|p]; [exact I|lia|].
  apply binary_round_not_positive.
Qed.

Lemma float64_div_not_positive (x : float64) (my : positive) (ey : Z) :
  not_positive x -> not_positive (float64_div x (S754_finite false my ey)).
Proof.
  intros Hx. destruct x as [s|s| |[|] m e]; try exact I; [|destruct Hx].
  unfold float64_div, SFdiv.
  destruct (SFdiv_core_binary 53 1024 (Zpos m) e (Zpos my) ey) as [[mz ez] lz].
  apply binary_round_aux_not_positive.
Qed.

Lemma float64_add_not_positive (x y : float64) :
  not_positive x -> not_positive y -> not_positive (float64_add x y).
Proof.
  intros Hx Hy.
  destruct x as [sx|sx| |[|] mx ex]; destruct y as [sy|sy| |[|] my ey];
    try destruct Hx; try destruct Hy; try exact I;
    try (destruct sx, sy; exact I).
  unfold float64_add, SFadd.
  set (a := fst (shl_align mx ex (Z.min ex ey))).
  set (b := fst (shl_align my ey (Z.min ex ey))).
  change (binary_normalize 53 1024 (cond_Zopp true (Zpos a) + cond_Zopp true (Zpos b))
            (Z.min ex ey) false)
    with (binary_round 53 1024 true (a + b) (Z.min ex ey)).
  apply binary_round_not_positive.
Qed.

Lemma int64_of_float64_not_positive (f : float64) :
  not_positive f -> int64_of_float64 f <= 0.
Proof.
  destruct f as [s|s| |s m e]; intros H.
  - simpl. lia.
  - simpl. unfold minInt64. lia.
  - simpl. unfold minInt64. lia.
  - destruct s; [|destruct H]. unfold int64_of_float64, minInt64, maxInt64.
    cbn [cond_Zopp].
    assert (0 <= (if 0 <=? e then Zpos m * 2 ^ e else Zpos m / 2 ^ (- e))).
    { destruct (0 <=? e) eqn:E.
      - apply Z.leb_le in E. assert (0 < 2 ^ e) by (apply Z.pow_pos_nonneg; lia). lia.
      - apply Z.leb_gt in E. apply Z.div_pos; [lia | apply Z.pow_pos_nonneg; lia]. }
    destruct (_ && _); lia.
Qed.

(** A duration that is not positive has no positive number of seconds,
    however large it is. *)
Theorem Duration_Seconds_int64_nonpos (d : Z) :
  d <= 0 -> Duration_Seconds_int64 d <= 0.
Proof.
  intros Hd. apply int64_of_float64_not_positive. unfold Duration_Seconds.
  apply float64_add_not_positive.
  - apply float64_of_int64_not_positive.
    assert (Z.quot d time_Second <= Z.quot 0 time_Second)
      by (apply Z.quot_le_mono; unfold time_Second; lia).
    rewrite Z.quot_0_l in * by (unfold time_Second; lia). lia.
  - change (float64_of_int64 1000000000) with (S754_finite false 8388608000000000 (-23)).
    apply float64_div_not_positive. apply float64_of_int64_not_positive.
    pose proof (Z.rem_nonpos d time_Second). unfold time_Second in *. lia.
Qed.

(** At 2^24 seconds the bound is reached: one nanosecond less than 16777217
    seconds counts as 16777217 seconds. *)
Example Duration_Seconds_rounds_up :
  Duration_Seconds_int64 16777216999999999 = 16777217 /\
  Z.quot 16777216999999999 time_Second = 16777216.
Proof. split; vm_compute; reflexivity. Qed.

(** ** The deadline: [DeleteExpiringPods] *)

Section Deadline.

Variable kubeDelete : Pod -> Z -> option error.
Variable wallClock : nat -> Time.

Local Abbreviation DeleteExpiringPods := (Part000.DeleteExpiringPods kubeDelete wallClock).

Lemma int64_id z : -9223372036854775808 <= z <= 9223372036854775807 -> int64 z = z.
Proof.
  intros H. unfold int64.
  rewrite Z.mod_small by lia. lia.
Qed.

Lemma podDeleteTime_in_range D pod G :
  TerminationGracePeriodSeconds pod = Some G ->
  -9223372036 <= G <= 9223372036 ->
  Part000.podDeleteTimeWithGracePeriod (Some D) pod = Some (D - G * time_Second).
Proof.
  intros HG Hrange. unfold Part000.podDeleteTimeWithGracePeriod. rewrite HG.
  unfold Time_Add, time_Second in *.
  rewrite (int64_id (G * 1000000000)) by lia.
  rewrite int64_id by lia. f_equal. lia.
Qed.

Lemma Time_Sub_in_range D now :
  minDuration <= D - now <= maxDuration -> Time_Sub D now = D - now.
Proof.
  unfold Time_Sub, minDuration, maxDuration. intros H.
  destruct (Z.ltb_spec 9223372036854775807 (D - now)); [lia|].
  destruct (Z.ltb_spec (D - now) (-9223372036854775808)); [lia|]. reflexivity.
Qed.

Lemma remaining_seconds_lt_grace D now G :
  1 <= G -> D - G * time_Second < now -> Z.quot (D - now) time_Second < G.
Proof.
  unfold time_Second. intros HG H.
  destruct (Z.le_gt_cases 0 (D - now)) as [Hpos|Hneg].
  - apply Z.quot_lt_upper_bound; lia.
  - assert (Z.quot (D - now) 1000000000 <= Z.quot 0 1000000000)
      by (apply Z.quot_le_mono; lia).
    rewrite Z.quot_0_l in * by lia. lia.
Qed.

Lemma remaining_seconds_negative D now :
  D + time_Second <= now -> Z.quot (D - now) time_Second <= -1.
Proof.
  unfold time_Second. intros H.
  assert (Z.quot (D - now) 1000000000 <= Z.quot (-1000000000) 1000000000)
    by (apply Z.quot_le_mono; lia).
  change (Z.quot (-1000000000) 1000000000) with (-1) in *. lia.
Qed.

Lemma remaining_seconds_nonneg D now :
  now <= D -> Z.quot (D - now) time_Second = Z.max 0 ((D - now) / time_Second).
Proof.
  unfold time_Second. intros H.
  rewrite Z.quot_div_nonneg by lia.
  assert (0 <= (D - now) / 1000000000) by (apply Z.div_pos; lia). lia.
Qed.

(** The seconds of the remaining time, as long as less than 2^24 seconds
    remain or have passed. *)
Lemma Time_Sub_seconds_exact (D now : Time) :
  -16777216 * time_Second < D - now < 16777216 * time_Second ->
  Duration_Seconds_int64 (Time_Sub D now) = Z.quot (D - now) time_Second.
Proof.
  intros H. rewrite Time_Sub_in_range
    by (unfold minDuration, maxDuration, time_Second in *; lia).
  apply Duration_Seconds_int64_exact. exact H.
Qed.

Lemma Time_Sub_seconds_lt_grace (D now : Time) (G : Z) :
  1 <= G <= 16777216 -> D - G * time_Second < now ->
  Duration_Seconds_int64 (Time_Sub D now) < G.
Proof.
  intros HG Hlt. destruct (Z.le_gt_cases (D - now) 0) as [Hpast|Hleft].
  - assert (Duration_Seconds_int64 (Time_Sub D now) <= 0); [|lia].
    apply Duration_Seconds_int64_nonpos.
    unfold Time_Sub, maxDuration, minDuration.
    destruct (Z.ltb_spec 9223372036854775807 (D - now)); [lia|].
    destruct (Z.ltb_spec (D - now) (-9223372036854775808)); lia.
  - rewrite Time_Sub_seconds_exact by (unfold time_Second in *; lia).
    apply remaining_seconds_lt_grace; [lia | exact Hlt].
Qed.

(** Every run: what it sends and publishes, and where it stops. *)
Lemma DeleteExpiringPods_run (pods : list Pod) (deadline : option Time) :
  forall t : Part000.Terminator,
  exists t' err deleted,
    DeleteExpiringPods t pods deadline = ret (t', err) /\
    Part000.evictionQueue t' = Part000.evictionQueue t /\
    Part000.kubeClient t' = Part000.kubeClient t ++ map delete_request deleted /\
    Part000.recorder t' =
      Part000.recorder t ++
      match deadline with
      | Some D => map (delete_event D) deleted
      | None => []
      end /\
    (deadline = None -> deleted = []) /\
    Forall (fun d => In d.1 pods /\ TerminationGracePeriodSeconds d.1 <> None) deleted /\
    match err with
    | None => Forall (delete_passed kubeDelete) deleted
    | Some e =>
        exists before failed cause,
          deleted = before ++ [failed] /\
          kubeDelete failed.1 failed.2 = Some cause /\ IsNotFound cause = false /\
          e = Errorf_w "deleting pod" cause /\
          Forall (delete_passed kubeDelete) before
    end.
Proof.
  assert (Hweaken : forall pod rest (deleted : list (Pod * Z)),
            Forall (fun d => In d.1 rest /\ TerminationGracePeriodSeconds d.1 <> None) deleted ->
            Forall (fun d => In d.1 (pod :: rest)
                             /\ TerminationGracePeriodSeconds d.1 <> None) deleted).
  { intros pod rest deleted H. eapply Forall_impl; [exact H|].
    intros d [? ?]. split; [right; assumption | assumption]. }
  induction pods as [|pod pods IH]; intros t.
  - exists t, None, []. simpl. rewrite !app_nil_r.
    repeat split; auto. destruct deadline; rewrite ?app_nil_r; reflexivity.
  - cbn [Part000.DeleteExpiringPods].
    destruct (Part000.podDeleteTimeWithGracePeriod deadline pod) as [deleteTime|] eqn:Et.
    2:{ destruct (IH t) as (t' & err & deleted & Hrun & Hq & Hc & Hr & Hn & Hin & Herr).
        exists t', err, deleted. repeat split; auto. }
    assert (HD : exists D G, deadline = Some D /\ TerminationGracePeriodSeconds pod = Some G).
    { unfold Part000.podDeleteTimeWithGracePeriod in Et.
      destruct deadline as [D|]; [|discriminate].
      destruct (TerminationGracePeriodSeconds pod) as [G|]; [eauto|discriminate]. }
    destruct HD as (D & G & -> & HG).
    destruct (Time_After (wallClock (Part000.timeNowCalls t)) deleteTime).
    2:{ destruct (IH (Part000.tick t))
          as (t' & err & deleted & Hrun & Hq & Hc & Hr & Hn & Hin & Herr).
        exists t', err, deleted. repeat split; auto. }
    cbn [deref mbind go_bind].
    set (g := Duration_Seconds_int64 _).
    set (t1 := Part000.kubeClient_send _ _).
    assert (Hpod : In (pod, g).1 (pod :: pods)
                   /\ TerminationGracePeriodSeconds (pod, g).1 <> None)
      by (simpl; split; [left; reflexivity | congruence]).
    destruct (kubeDelete pod g) as [cause|] eqn:Ed;
      [destruct (IsNotFound cause) eqn:Enf; cbn [negb]|].
    + destruct (IH t1) as (t' & err & deleted & Hrun & Hq & Hc & Hr & Hn & Hin & Herr).
      exists t', err, ((pod, g) :: deleted). rewrite Hrun, Hq, Hc, Hr.
      assert (Hpass : delete_passed kubeDelete (pod, g))
        by (unfold delete_passed; simpl; rewrite Ed; exact Enf).
      split; [reflexivity|]. split; [reflexivity|].
      split; [unfold t1; simpl; rewrite <- app_assoc; reflexivity|].
      split; [unfold t1; simpl; rewrite <- app_assoc; reflexivity|].
      split; [discriminate|]. split; [constructor; auto|].
      destruct err as [e|].
      * destruct Herr as (before & failed & cause' & -> & Hf & Hnf & He & Hb).
        exists ((pod, g) :: before), failed, cause'. repeat split; auto.
      * constructor; assumption.
    + exists t1, (Some (Errorf_w "deleting pod" cause)), [(pod, g)].
      split; [reflexivity|]. split; [reflexivity|]. split; [reflexivity|].
      split; [reflexivity|]. split; [discriminate|]. split; [constructor; auto|].
      exists [], (pod, g), cause. repeat split; auto.
    + destruct (IH t1) as (t' & err & deleted & Hrun & Hq & Hc & Hr & Hn & Hin & Herr).
      exists t', err, ((pod, g) :: deleted). rewrite Hrun, Hq, Hc, Hr.
      assert (Hpass : delete_passed kubeDelete (pod, g))
        by (unfold delete_passed; simpl; rewrite Ed; exact I).
      split; [reflexivity|]. split; [reflexivity|].
      split; [unfold t1; simpl; rewrite <- app_assoc; reflexivity|].
      split; [unfold t1; simpl; rewrite <- app_assoc; reflexivity|].
      split; [discriminate|]. split; [constructor; auto|].
      destruct err as [e|].
      * destruct Herr as (before & failed & cause' & -> & Hf & Hnf & He & Hb).
        exists ((pod, g) :: before), failed, cause'. repeat split; auto.
      * constructor; assumption.
Qed.

(** A pass over two lists is the pass over the first and then, unless that
    returned an error, the pass over the second. *)
Lemma DeleteExpiringPods_app (before rest : list Pod) (deadline : option Time) :
  forall t : Part000.Terminator,
  DeleteExpiringPods t (before ++ rest) deadline =
  match DeleteExpiringPods t before deadline with
  | ret (t1, None) => DeleteExpiringPods t1 rest deadline
  | other => other
  end.
Proof.
  induction before as [|pod before IH]; intros t; [reflexivity|].
  cbn [app Part000.DeleteExpiringPods].
  destruct (Part000.podDeleteTimeWithGracePeriod deadline pod) as [deleteTime|];
    [|apply IH].
  destruct (Time_After _ deleteTime); [|apply IH].
  destruct deadline as [D|]; [|reflexivity]. cbn [deref mbind go_bind].
  destruct (kubeDelete pod _) as [cause|]; [|apply IH].
  destruct (negb (IsNotFound cause)); [reflexivity | apply IH].
Qed.

(** C4, amended.  The turn of a pod with grace period [G] (at most 9223372036
    seconds in absolute value) comes when the pass over the pods before it
    has returned without error.  The clock is read once, [now]: the pod is
    deleted exactly when [now] is after [D - G].  It is read again, [now'],
    and the delete is sent with the grace period
    [int64(Seconds(D - now'))]; everything the pass sends afterwards is for
    the pods after it.  As long as less than 2^24 seconds remain or have
    passed, that grace period is the whole seconds of [D - now'], truncated
    toward zero: [max 0 (D - now')] while the deadline has not passed, and
    negative, not 0, once it has passed by a second or more.  It is below
    [G] whenever [G] is between 1 and 2^24 seconds and the clock has not
    gone back between the two readings. *)
Theorem DeleteExpiringPods_remaining_time (D : Time) (before rest : list Pod) (pod : Pod)
    (G : Z) (t tm : Part000.Terminator) :
  TerminationGracePeriodSeconds pod = Some G ->
  -9223372036 <= G <= 9223372036 ->
  DeleteExpiringPods t before (Some D) = ret (tm, None) ->
  let now := wallClock (Part000.timeNowCalls tm) in
  let now' := wallClock (S (Part000.timeNowCalls tm)) in
  let g := Duration_Seconds_int64 (Time_Sub D now') in
  (exists t' err later,
     DeleteExpiringPods t (before ++ pod :: rest) (Some D) = ret (t', err) /\
     Part000.kubeClient t' =
       Part000.kubeClient tm
       ++ (if D - G * time_Second <? now then [DeletePod pod g] else [])
       ++ map delete_request later /\
     Forall (fun d => In d.1 rest) later) /\
  (-16777216 * time_Second < D - now' < 16777216 * time_Second ->
     g = Z.quot (D - now') time_Second /\
     (now' <= D -> g = Z.max 0 ((D - now') / time_Second)) /\
     (D + time_Second <= now' -> g <= -1)) /\
  (1 <= G <= 16777216 -> D - G * time_Second < now -> now <= now' -> g < G).
Proof.
  intros HG Hrange Hbefore now now' g. split; [|split].
  - rewrite DeleteExpiringPods_app, Hbefore.
    cbn [Part000.DeleteExpiringPods].
    rewrite (podDeleteTime_in_range D pod G HG Hrange).
    unfold Time_After. fold now.
    assert (Hrest : forall t1 : Part000.Terminator,
              exists t' err later,
                DeleteExpiringPods t1 rest (Some D) = ret (t', err) /\
                Part000.kubeClient t' = Part000.kubeClient t1 ++ map delete_request later /\
                Forall (fun d => In d.1 rest) later).
    { intros t1.
      destruct (DeleteExpiringPods_run rest (Some D) t1)
        as (t' & err & later & Hrun & _ & Hc & _ & _ & Hin & _).
      exists t', err, later. repeat split; [exact Hrun | exact Hc |].
      eapply Forall_impl; [exact Hin|]. intros d [Hd _]. exact Hd. }
    destruct (D - G * time_Second <? now).
    + cbn [deref mbind go_bind].
      change (wallClock (Part000.timeNowCalls (Part000.tick tm))) with now'. fold g.
      set (t1 := Part000.kubeClient_send _ _).
      assert (Ht1 : Part000.kubeClient t1 = Part000.kubeClient tm ++ [DeletePod pod g])
        by reflexivity.
      assert (Hgo : exists t' err later,
                DeleteExpiringPods t1 rest (Some D) = ret (t', err) /\
                Part000.kubeClient t' =
                  Part000.kubeClient tm ++ [DeletePod pod g] ++ map delete_request later /\
                Forall (fun d => In d.1 rest) later).
      { destruct (Hrest t1) as (t' & err & later & Hrun & Hc & Hin).
        exists t', err, later. rewrite Hc, Ht1, <- app_assoc. auto. }
      destruct (kubeDelete pod g) as [cause|]; [|exact Hgo].
      destruct (negb (IsNotFound cause)); [|exact Hgo].
      exists t1, (Some (Errorf_w "deleting pod" cause)), [].
      rewrite Ht1. repeat split; auto.
    + destruct (Hrest (Part000.tick tm)) as (t' & err & later & Hrun & Hc & Hin).
      exists t', err, later. auto.
  - intros Hnear. unfold g. rewrite Time_Sub_seconds_exact by exact Hnear.
    split; [reflexivity|]. split.
    + apply remaining_seconds_nonneg.
    + apply remaining_seconds_negative.
  - intros HG1 Hpast Hclock. apply Time_Sub_seconds_lt_grace; [exact HG1 | lia].
Qed.

End Deadline.

Lemma DeleteExpiringPods_remaining_time_witness :
  let D := 100 * time_Second in
  exists tm,
    Part000.DeleteExpiringPods delete_ok (ticking 80) Part000.NewTerminator [web_1] (Some D)
      = ret (tm, None) /\
    let now := ticking 80 (Part000.timeNowCalls tm) in
    let now' := ticking 80 (S (Part000.timeNowCalls tm)) in
    let g := Duration_Seconds_int64 (Time_Sub D now') in
    (exists t' err later,
       Part000.DeleteExpiringPods delete_ok (ticking 80) Part000.NewTerminator
         ([web_1] ++ web_2 :: [bare]) (Some D) = ret (t', err) /\
       Part000.kubeClient t' =
         Part000.kubeClient tm
         ++ (if D - 30 * time_Second <? now then [DeletePod web_2 g] else [])
         ++ map delete_request later /\
       Forall (fun d => In d.1 [bare]) later) /\
    (-16777216 * time_Second < D - now' < 16777216 * time_Second ->
       g = Z.quot (D - now') time_Second /\
       (now' <= D -> g = Z.max 0 ((D - now') / time_Second)) /\
       (D + time_Second <= now' -> g <= -1)) /\
    (1 <= 30 <= 16777216 -> D - 30 * time_Second < now -> now <= now' -> g < 30).
Proof.
  intros D. eexists. split.
  - vm_compute. reflexivity.
  - apply (DeleteExpiringPods_remaining_time delete_ok (ticking 80) (100 * time_Second)
             [web_1] [bare] web_2 30 Part000.NewTerminator).
    + reflexivity.
    + lia.
    + vm_compute. reflexivity.
Defined.

(** Five seconds after the deadline the delete is sent with a grace period of
    -5 seconds, which is not [max 0 (D - now)]. *)
Lemma DeleteExpiringPods_negative_grace_period :
  let D := 100 * time_Second in
  let now := 105 * time_Second in
  match Part000.DeleteExpiringPods delete_ok (fun _ => now) Part000.NewTerminator
          [web_1] (Some D) with
  | ret (t', err) =>
      err = None
      /\ Part000.kubeClient t' = [DeletePod web_1 (-5)]
      /\ -5 <> Z.max 0 ((D - now) / time_Second)
  | panics _ => False
  end.
Proof. vm_compute. repeat split; discriminate. Qed.

(** One nanosecond less than 2^24 + 1 seconds before the deadline, the pod
    [patient] is deleted with its own grace period of 2^24 + 1 seconds. *)
Example DeleteExpiringPods_grace_equal_to_own :
  let D := 16777217 * time_Second in
  match Part000.DeleteExpiringPods delete_ok (fun _ => 1) Part000.NewTerminator
          [patient] (Some D) with
  | ret (t', err) =>
      err = None
      /\ Part000.kubeClient t' = [DeletePod patient 16777217]
      /\ TerminationGracePeriodSeconds patient = Some 16777217
  | panics _ => False
  end.
Proof. vm_compute. repeat split; reflexivity. Qed.


(** ** Drain *)

Lemma lo_CountBy_pos {A : Type} (l : list A) (p : A -> bool) :
  (0 <? lo_CountBy l p) = existsb p l.
Proof.
  unfold lo_CountBy. induction l as [|x l IH]; simpl; [reflexivity|].
  destruct (p x); simpl; [|exact IH].
  destruct (Z.ltb_spec 0 (Z.of_nat (S (length (List.filter p l))))); [reflexivity|lia].
Qed.

Lemma existsb_waiting (IsWaitingEviction : Pod -> bool) (pods : list Pod) :
  existsb IsWaitingEviction pods = true <->
  exists pod, In pod pods /\ IsWaitingEviction pod = true.
Proof. apply existsb_exists. Qed.

Section VendoredDrain.

Variable kubeGetReplicaSet : string -> string -> fetched ReplicaSet.
Variable kubeGetDeployment : string -> string -> fetched Deployment.
Variable kubeUpdate : Deployment -> option error.
Variable GetPods : Node -> list Pod * option error.
Variable IsEvictable : Pod -> bool.
Variable IsWaitingEviction : Pod -> bool.
Variable IsOwnedByDaemonSet : Pod -> bool.



(** An error of one of the earlier steps is returned as a hard error. *)
Lemma Drain_listing_error (t : Vendored.Terminator) (node : Node) pods err :
  GetPods node = (pods, Some err) ->
  Vendored.Drain kubeGetReplicaSet kubeGetDeployment kubeUpdate GetPods
    IsEvictable IsWaitingEviction IsOwnedByDaemonSet t node
  = ret (t, Some (Errorf_w "listing pods on node" err)).
Proof. intros H. unfold Vendored.Drain. rewrite H. reflexivity. Qed.

Lemma Drain_classification_error (t : Vendored.Terminator) (node : Node) pods
    restartDeployments drainPods err :
  GetPods node = (pods, None) ->
  Vendored.GetRestartdeploymentsAndDrainPods kubeGetReplicaSet kubeGetDeployment
    t pods (node_Name node) = ret (restartDeployments, drainPods, Some err) ->
  Vendored.Drain kubeGetReplicaSet kubeGetDeployment kubeUpdate GetPods
    IsEvictable IsWaitingEviction IsOwnedByDaemonSet t node
  = ret (t, Some (Errorf_w "get deployment and drain pod from node" err)).
Proof.
  intros Hpods Hclassify. unfold Vendored.Drain. rewrite Hpods, Hclassify. reflexivity.
Qed.

Lemma Drain_restart_error (t : Vendored.Terminator) (node : Node) pods
    restartDeployments drainPods t1 ds err :
  GetPods node = (pods, None) ->
  Vendored.GetRestartdeploymentsAndDrainPods kubeGetReplicaSet kubeGetDeployment
    t pods (node_Name node) = ret (restartDeployments, drainPods, None) ->
  Vendored.RestartDeployments kubeUpdate t restartDeployments (node_Name node)
    = ret (t1, ds, Some err) ->
  Vendored.Drain kubeGetReplicaSet kubeGetDeployment kubeUpdate GetPods
    IsEvictable IsWaitingEviction IsOwnedByDaemonSet t node
  = ret (t1, Some (Errorf_w "restart deployments from node" err)).
Proof.
  intros Hpods Hclassify Hrestart. unfold Vendored.Drain.
  rewrite Hpods, Hclassify. cbn [mbind go_bind]. rewrite Hrestart. reflexivity.
Qed.

End VendoredDrain.



Section Part000Drain.

Variable kubeDelete : Pod -> Z -> option error.
Variable GetPods : Node -> list Pod * option error.
Variable wallClock : nat -> Time.
Variable IsEvictable : Pod -> bool.
Variable IsWaitingEviction : Pod -> bool.
Variable IsTerminating : Pod -> bool.
Variable IsOwnedByDaemonSet : Pod -> bool.

(** X22. [Drain] of the second source, when the pods were listed and the
    expiring pods deleted without error: it returns the drain-incomplete
    signal if and only if at least one listed pod is waiting for eviction, and
    no error otherwise.  (The second source has no record to clear.) *)
Lemma Part000_Drain_completion (t t1 : Part000.Terminator) (node : Node)
    (pods drainPods : list Pod) (deadline : option Time) :
  GetPods node = (pods, None) ->
  Part000.DeleteExpiringPods kubeDelete wallClock t
    (lo_Filter drainPods (fun p => IsWaitingEviction p && negb (IsTerminating p))) deadline
    = ret (t1, None) ->
  exists t' r,
    Part000.Drain kubeDelete GetPods wallClock IsEvictable IsWaitingEviction IsTerminating
      IsOwnedByDaemonSet t node drainPods deadline = ret (t', r) /\
    (IsNodeDrainError r = true <->
       exists pod, In pod pods /\ IsWaitingEviction pod = true) /\
    (r = None <-> ~ exists pod, In pod pods /\ IsWaitingEviction pod = true).
Proof.
  intros Hpods Hdelete. unfold Part000.Drain.
  rewrite Hpods, Hdelete. cbn [mbind go_bind].
  rewrite lo_CountBy_pos.
  destruct (existsb IsWaitingEviction pods) eqn:E.
  - eexists _, _. split; [reflexivity|].
    rewrite <- existsb_waiting, E. simpl.
    repeat split; intros; congruence.
  - eexists _, _. split; [reflexivity|].
    rewrite <- existsb_waiting, E. simpl.
    repeat split; intros; congruence.
Qed.

End Part000Drain.


(** ** Taint *)

Lemma lo_Assign_label_lookup (labels : gmap string string) (k : string) :
  lo_Assign [labels; {[LabelNodeExcludeBalancers := "karpenter"]}] !! k =
  if bool_decide (k = LabelNodeExcludeBalancers) then Some "karpenter" else labels !! k.
Proof.
  unfold lo_Assign. simpl. rewrite (right_id_L ∅ (∪)).
  case_bool_decide as Hk.
  - subst k. apply lookup_union_Some_l. apply lookup_singleton_eq.
  - rewrite lookup_union_r; [reflexivity|]. apply lookup_singleton_ne. congruence.
Qed.

Lemma find_none_existsb {A : Type} (p : A -> bool) (l : list A) :
  List.find p l = None <-> existsb p l = false.
Proof.
  induction l as [|x l IH]; simpl; [tauto|].
  destruct (p x); simpl; [split; discriminate | exact IH].
Qed.

Lemma filter_key_reject (key : string) (taints : list corev1_Taint) :
  List.filter (fun x => String.eqb (taint_Key x) key)
    (lo_Reject taints (fun x => String.eqb (taint_Key x) key)) = [].
Proof.
  unfold lo_Reject. induction taints as [|x l IH]; simpl; [reflexivity|].
  destruct (String.eqb (taint_Key x) key) eqn:E; simpl; [exact IH|].
  rewrite E. exact IH.
Qed.

Lemma filter_other_reject (key : string) (taints : list corev1_Taint) :
  lo_Reject taints (fun x => String.eqb (taint_Key x) key) =
  List.filter (fun x => negb (String.eqb (taint_Key x) key)) taints.
Proof. reflexivity. Qed.

Lemma filter_idem {A : Type} (p : A -> bool) (l : list A) :
  List.filter p (List.filter p l) = List.filter p l.
Proof.
  induction l as [|x l IH]; simpl; [reflexivity|].
  destruct (p x) eqn:E; simpl; rewrite ?E, IH; reflexivity.
Qed.

(** C8, amended.  After [Taint] the load-balancer-exclusion label is present
    and the other labels are as before.  When no taint of the node matched
    the desired taint by key and effect (the value is not compared), every
    taint of that key is removed and the desired taint appended, so exactly
    one taint of that key is left and the taints of other keys are as
    before.  When a taint of the node already matched, the taints are left as
    they were (whatever other taints of that key the node carries). *)
Theorem Taint_postcondition (kubePatch : Node -> Node -> option error)
    (t : Part000.Terminator) (node : Node) (taint : corev1_Taint) :
  let same_key := fun x => String.eqb (taint_Key x) (taint_Key taint) in
  let '(_, node', _) := Part000.Taint kubePatch t node taint in
  Labels node' !! LabelNodeExcludeBalancers = Some "karpenter" /\
  (forall k, k <> LabelNodeExcludeBalancers -> Labels node' !! k = Labels node !! k) /\
  if existsb (fun x => MatchTaint x taint) (Taints node)
  then Taints node' = Taints node
  else List.filter same_key (Taints node') = [taint] /\
       List.filter (fun x => negb (same_key x)) (Taints node') =
       List.filter (fun x => negb (same_key x)) (Taints node).
Proof.
  intros same_key. unfold Part000.Taint.
  set (tainted := match lo_Find (Taints node) (fun t0 => MatchTaint t0 taint) with
                  | Some _ => node
                  | None => _
                  end).
  set (node' := Part000.set_Labels tainted _).
  assert (Hnode' :
    Labels node' !! LabelNodeExcludeBalancers = Some "karpenter" /\
    (forall k, k <> LabelNodeExcludeBalancers -> Labels node' !! k = Labels node !! k) /\
    if existsb (fun x => MatchTaint x taint) (Taints node)
    then Taints node' = Taints node
    else List.filter same_key (Taints node') = [taint] /\
         List.filter (fun x => negb (same_key x)) (Taints node') =
         List.filter (fun x => negb (same_key x)) (Taints node)).
  { assert (Hl : Labels tainted = Labels node).
    { unfold tainted. destruct (lo_Find _ _); reflexivity. }
    split; [|split].
    - unfold node'. simpl. rewrite lo_Assign_label_lookup.
      rewrite bool_decide_eq_true_2; reflexivity.
    - intros k Hk. unfold node'. simpl. rewrite lo_Assign_label_lookup.
      rewrite bool_decide_eq_false_2 by exact Hk. rewrite Hl. reflexivity.
    - unfold node', tainted, lo_Find. simpl.
      destruct (existsb (fun x => MatchTaint x taint) (Taints node)) eqn:E.
      + destruct (List.find _ _) eqn:F; [reflexivity|].
        apply find_none_existsb in F. congruence.
      + apply find_none_existsb in E. rewrite E. simpl.
        rewrite !List.filter_app. simpl. subst same_key. cbv beta.
        rewrite filter_key_reject, filter_other_reject, filter_idem.
        rewrite String.eqb_refl. simpl.
        rewrite app_nil_r. split; reflexivity. }
  destruct (negb (bool_decide (node' = node))); [destruct (kubePatch node' node)|];
    exact Hnode'.
Qed.

(** A node that carries the key under both effects keeps both. *)
Lemma Taint_keeps_two_taints_of_one_key :
  let '(_, node', err) := Part000.Taint patch_ok Part000.NewTerminator n2 NoSchedule_taint in
  err = None /\
  ~ (length (List.filter (fun x => String.eqb (taint_Key x) (taint_Key NoSchedule_taint))
               (Taints node')) <= 1)%nat.
Proof. vm_compute. split; [reflexivity | lia]. Qed.

(** * Further properties of the owner resolution *)

Section VendoredResolution.

Variable kubeGetReplicaSet : string -> string -> fetched ReplicaSet.
Variable kubeGetDeployment : string -> string -> fetched Deployment.

Lemma Vendored_getOwnerReplicaSet_loop_inv namespace ownerRefs rs err :
  Vendored.getOwnerReplicaSet_loop kubeGetReplicaSet namespace ownerRefs = (rs, err) ->
  (rs = None /\ err = None) \/
  exists ownerRef,
    In ownerRef ownerRefs /\ ref_Controller ownerRef <> None /\
    ref_Kind ownerRef = "ReplicaSet" /\
    match kubeGetReplicaSet namespace (ref_Name ownerRef) with
    | Found obj => rs = Some obj /\ err = None
    | Failed cause => rs = None /\ err = Some (Errorf_w "get ReplicaSet" cause)
    end.
Proof.
  induction ownerRefs as [|r rest IH]; simpl; intros H.
  - inversion H. auto.
  - destruct (bool_decide (ref_Controller r <> None)) eqn:Ec;
      [destruct (String.eqb_spec (ref_Kind r) "ReplicaSet") as [Hk|Hk]|]; simpl in H.
    + right. exists r. apply bool_decide_eq_true in Ec.
      split; [left; reflexivity|]. split; [exact Ec|]. split; [exact Hk|].
      destruct (kubeGetReplicaSet namespace (ref_Name r)); inversion H; auto.
    + destruct (IH H) as [?|(r' & Hin & ?)]; [auto|]. right. exists r'. auto.
    + destruct (IH H) as [?|(r' & Hin & ?)]; [auto|]. right. exists r'. auto.
Qed.

Lemma Vendored_getOwnerDeployment_loop_inv namespace ownerRefs d err :
  Vendored.getOwnerDeployment_loop kubeGetDeployment namespace ownerRefs = (d, err) ->
  (d = None /\ err = None) \/
  exists ownerRef,
    In ownerRef ownerRefs /\ ref_Controller ownerRef <> None /\
    ref_Kind ownerRef = "Deployment" /\
    match kubeGetDeployment namespace (ref_Name ownerRef) with
    | Found obj => d = Some obj /\ err = None
    | Failed cause => d = None /\ err = Some (Errorf_w "get Deployment" cause)
    end.
Proof.
  induction ownerRefs as [|r rest IH]; simpl; intros H.
  - inversion H. auto.
  - destruct (bool_decide (ref_Controller r <> None)) eqn:Ec;
      [destruct (String.eqb_spec (ref_Kind r) "Deployment") as [Hk|Hk]|]; simpl in H.
    + right. exists r. apply bool_decide_eq_true in Ec.
      split; [left; reflexivity|]. split; [exact Ec|]. split; [exact Hk|].
      destruct (kubeGetDeployment namespace (ref_Name r)); inversion H; auto.
    + destruct (IH H) as [?|(r' & Hin & ?)]; [auto|]. right. exists r'. auto.
    + destruct (IH H) as [?|(r' & Hin & ?)]; [auto|]. right. exists r'. auto.
Qed.

(** X1. A deployment the vendored [GetDeploymentFromPod] returns is the one
    read for the owner chain of the pod: the pod has an owner reference of
    kind ReplicaSet with a controller field, the replica set of that name in
    the namespace of the pod was read, it has an owner reference of kind
    Deployment with a controller field, and the deployment of that name in the
    namespace of the replica set was read.  (The value of the controller
    fields is not looked at.) *)
Theorem Vendored_GetDeploymentFromPod_sound (pod : Pod) (d : Deployment) :
  Vendored.GetDeploymentFromPod kubeGetReplicaSet kubeGetDeployment pod = (Some d, None) ->
  exists podRef rs rsRef,
    In podRef (pod_OwnerReferences pod) /\
    ref_Controller podRef <> None /\ ref_Kind podRef = "ReplicaSet" /\
    kubeGetReplicaSet (pod_Namespace pod) (ref_Name podRef) = Found rs /\
    In rsRef (rs_OwnerReferences rs) /\
    ref_Controller rsRef <> None /\ ref_Kind rsRef = "Deployment" /\
    kubeGetDeployment (rs_Namespace rs) (ref_Name rsRef) = Found d.
Proof.
  unfold Vendored.GetDeploymentFromPod, Vendored.getOwnerReplicaSet,
    Vendored.getOwnerDeployment.
  destruct (Vendored.getOwnerReplicaSet_loop _ _ _) as [rs0 err0] eqn:Ers.
  apply Vendored_getOwnerReplicaSet_loop_inv in Ers.
  destruct Ers as [[-> ->]|(podRef & Hin & Hc & Hk & Hget)]; [discriminate|].
  destruct (kubeGetReplicaSet (pod_Namespace pod) (ref_Name podRef)) as [rs|cause] eqn:Eget;
    destruct Hget as [-> ->]; [|discriminate].
  destruct (Vendored.getOwnerDeployment_loop _ _ _) as [d0 err1] eqn:Ed.
  apply Vendored_getOwnerDeployment_loop_inv in Ed.
  destruct Ed as [[-> ->]|(rsRef & Hin' & Hc' & Hk' & Hget')]; [discriminate|].
  destruct (kubeGetDeployment (rs_Namespace rs) (ref_Name rsRef)) as [obj|cause] eqn:Eget';
    destruct Hget' as [-> ->]; [|discriminate].
  intros H. inversion H; subst obj.
  exists podRef, rs, rsRef. repeat split; assumption.
Qed.

(** X2. An error of the vendored [GetDeploymentFromPod] comes with no
    deployment and is the error of a failed read of the replica set or of the
    deployment, wrapped twice so that it still tests as not-found exactly when
    the failed read did. *)
Theorem Vendored_GetDeploymentFromPod_error (pod : Pod) (d : option Deployment)
    (err : error) :
  Vendored.GetDeploymentFromPod kubeGetReplicaSet kubeGetDeployment pod = (d, Some err) ->
  d = None /\
  exists namespace name cause,
    (kubeGetReplicaSet namespace name = Failed cause
       /\ err = Errorf_w "failed to get ReplicaSet from Pod" (Errorf_w "get ReplicaSet" cause)
     \/ kubeGetDeployment namespace name = Failed cause
       /\ err = Errorf_w "failed to get Deployment from ReplicaSet"
                  (Errorf_w "get Deployment" cause))
    /\ IsNotFound err = IsNotFound cause.
Proof.
  unfold Vendored.GetDeploymentFromPod, Vendored.getOwnerReplicaSet,
    Vendored.getOwnerDeployment.
  destruct (Vendored.getOwnerReplicaSet_loop _ _ _) as [rs0 err0] eqn:Ers.
  apply Vendored_getOwnerReplicaSet_loop_inv in Ers.
  destruct Ers as [[-> ->]|(podRef & Hin & Hc & Hk & Hget)]; [discriminate|].
  destruct (kubeGetReplicaSet (pod_Namespace pod) (ref_Name podRef)) as [rs|cause] eqn:Eget;
    destruct Hget as [-> ->].
  - destruct (Vendored.getOwnerDeployment_loop _ _ _) as [d0 err1] eqn:Ed.
    apply Vendored_getOwnerDeployment_loop_inv in Ed.
    destruct Ed as [[-> ->]|(rsRef & Hin' & Hc' & Hk' & Hget')]; [discriminate|].
    destruct (kubeGetDeployment (rs_Namespace rs) (ref_Name rsRef)) as [obj|cause] eqn:Eget';
      destruct Hget' as [-> ->]; [discriminate|].
    intros H. inversion H; subst. split; [reflexivity|].
    exists (rs_Namespace rs), (ref_Name rsRef), cause. split; [right; auto | reflexivity].
  - intros H. inversion H; subst. split; [reflexivity|].
    exists (pod_Namespace pod), (ref_Name podRef), cause. split; [left; auto | reflexivity].
Qed.

End VendoredResolution.

Lemma Vendored_GetDeploymentFromPod_sound_witness :
  exists podRef rs rsRef,
    In podRef (pod_OwnerReferences web_1) /\
    ref_Controller podRef <> None /\ ref_Kind podRef = "ReplicaSet" /\
    ex_GetReplicaSet (pod_Namespace web_1) (ref_Name podRef) = Found rs /\
    In rsRef (rs_OwnerReferences rs) /\
    ref_Controller rsRef <> None /\ ref_Kind rsRef = "Deployment" /\
    ex_GetDeployment (rs_Namespace rs) (ref_Name rsRef) = Found web.
Proof.
  apply (Vendored_GetDeploymentFromPod_sound ex_GetReplicaSet ex_GetDeployment web_1 web).
  vm_compute. reflexivity.
Defined.

Lemma Vendored_GetDeploymentFromPod_error_witness :
  let err := Errorf_w "failed to get ReplicaSet from Pod"
               (Errorf_w "get ReplicaSet" (StatusError "NotFound")) in
  (None : option Deployment) = None /\
  exists namespace name cause,
    (ex_GetReplicaSet namespace name = Failed cause
       /\ err = Errorf_w "failed to get ReplicaSet from Pod" (Errorf_w "get ReplicaSet" cause)
     \/ ex_GetDeployment namespace name = Failed cause
       /\ err = Errorf_w "failed to get Deployment from ReplicaSet"
                  (Errorf_w "get Deployment" cause))
    /\ IsNotFound err = IsNotFound cause.
Proof.
  apply (Vendored_GetDeploymentFromPod_error ex_GetReplicaSet ex_GetDeployment lost None).
  vm_compute. reflexivity.
Defined.

Section Part000Resolution.

Variable kubeGetReplicaSet : string -> string -> fetched ReplicaSet.
Variable kubeGetDeployment : string -> string -> fetched Deployment.

Lemma Part000_controllerOwner_loop_inv kind ownerRefs name found :
  Part000.controllerOwner_loop kind ownerRefs name = ret found ->
  found = name \/
  exists ownerRef,
    In ownerRef ownerRefs /\ ref_Controller ownerRef = Some true /\
    ref_Kind ownerRef = kind /\ found = ref_Name ownerRef.
Proof.
  induction ownerRefs as [|r rest IH]; simpl; intros H.
  - inversion H. auto.
  - destruct (ref_Controller r) as [c|] eqn:Ec; simpl in H; [|discriminate].
    destruct c; [destruct (String.eqb_spec (ref_Kind r) kind) as [Hk|Hk]|]; simpl in H.
    + inversion H. right. exists r. auto.
    + destruct (IH H) as [?|(r' & Hin & ?)]; [auto|]. right. exists r'. auto.
    + destruct (IH H) as [?|(r' & Hin & ?)]; [auto|]. right. exists r'. auto.
Qed.

(** X3. A deployment the [GetDeploymentFromPod] of the second source returns
    is the one read for the controlling owner chain of the pod: the pod has an
    owner reference of kind ReplicaSet whose controller field is true and
    whose name is not empty, the replica set of that name was read, it has
    such a reference of kind Deployment, and the deployment of that name was
    read; both reads are made in the namespace of the pod. *)
Theorem Part000_GetDeploymentFromPod_sound (pod : Pod) (d : Deployment) :
  Part000.GetDeploymentFromPod kubeGetReplicaSet kubeGetDeployment pod
    = ret (Some d, None) ->
  exists podRef rs rsRef,
    In podRef (pod_OwnerReferences pod) /\
    ref_Controller podRef = Some true /\ ref_Kind podRef = "ReplicaSet" /\
    ref_Name podRef <> "" /\
    kubeGetReplicaSet (pod_Namespace pod) (ref_Name podRef) = Found rs /\
    In rsRef (rs_OwnerReferences rs) /\
    ref_Controller rsRef = Some true /\ ref_Kind rsRef = "Deployment" /\
    ref_Name rsRef <> "" /\
    kubeGetDeployment (pod_Namespace pod) (ref_Name rsRef) = Found d.
Proof.
  unfold Part000.GetDeploymentFromPod. intros H.
  apply go_bind_ret in H as (rsName & Hrs & H).
  destruct (String.eqb_spec rsName "") as [|HrsName]; [discriminate|].
  apply Part000_controllerOwner_loop_inv in Hrs.
  destruct Hrs as [|(podRef & Hin & Hc & Hk & ->)]; [contradiction|].
  destruct (kubeGetReplicaSet (pod_Namespace pod) (ref_Name podRef)) as [rs|cause] eqn:Eget;
    [|discriminate].
  apply go_bind_ret in H as (dpName & Hdp & H).
  destruct (String.eqb_spec dpName "") as [|HdpName]; [discriminate|].
  apply Part000_controllerOwner_loop_inv in Hdp.
  destruct Hdp as [|(rsRef & Hin' & Hc' & Hk' & ->)]; [contradiction|].
  destruct (kubeGetDeployment (pod_Namespace pod) (ref_Name rsRef)) as [obj|cause] eqn:Eget';
    [|discriminate].
  inversion H; subst obj.
  exists podRef, rs, rsRef. repeat split; assumption.
Qed.

End Part000Resolution.

Lemma Part000_GetDeploymentFromPod_sound_witness :
  exists podRef rs rsRef,
    In podRef (pod_OwnerReferences web_1) /\
    ref_Controller podRef = Some true /\ ref_Kind podRef = "ReplicaSet" /\
    ref_Name podRef <> "" /\
    ex_GetReplicaSet (pod_Namespace web_1) (ref_Name podRef) = Found rs /\
    In rsRef (rs_OwnerReferences rs) /\
    ref_Controller rsRef = Some true /\ ref_Kind rsRef = "Deployment" /\
    ref_Name rsRef <> "" /\
    ex_GetDeployment (pod_Namespace web_1) (ref_Name rsRef) = Found web.
Proof.
  apply (Part000_GetDeploymentFromPod_sound ex_GetReplicaSet ex_GetDeployment web_1 web).
  vm_compute. reflexivity.
Defined.

Lemma Part000_GetDeploymentFromPod_returns_witness :
  exists result,
    Part000.GetDeploymentFromPod ex_GetReplicaSet ex_GetDeployment web_1 = ret result.
Proof.
  apply (Part000_GetDeploymentFromPod_returns ex_GetReplicaSet ex_GetDeployment web_1).
  - repeat constructor. discriminate.
  - intros namespace name rs H. unfold ex_GetReplicaSet in H.
    destruct (String.eqb name "web-5d4f"); inversion H. simpl.
    repeat constructor. discriminate.
Defined.

(** * Further properties of the restart and drain sets *)

Section VendoredSets.

Variable kubeGetReplicaSet : string -> string -> fetched ReplicaSet.
Variable kubeGetDeployment : string -> string -> fetched Deployment.

Local Abbreviation resolve :=
  (Vendored.GetDeploymentFromPod kubeGetReplicaSet kubeGetDeployment).
Local Abbreviation getDeploymentFromCache :=
  (Vendored.getDeploymentFromCache kubeGetReplicaSet kubeGetDeployment).
Local Abbreviation tally_loop :=
  (Vendored.tally_loop kubeGetReplicaSet kubeGetDeployment).

(** X5. The cache of the vendored source.  A lookup that returns without
    error leaves the answer under the key of the pod and every other key as
    it was, and a second lookup of the pod returns the same answer from the
    cache alone, whatever the API server would answer by then, also when the
    answer is that the pod has no deployment.  A lookup that returns an error
    leaves the cache as it was and returns no deployment. *)
Theorem getDeploymentFromCache_memoizes (pod : Pod)
    (cache cache' : gmap string (option Deployment)) (d : option Deployment)
    (err : option error) :
  getDeploymentFromCache pod cache = (cache', d, err) ->
  match err with
  | None =>
      cache' !! pod_key pod = Some d /\
      (forall k, k <> pod_key pod -> cache' !! k = cache !! k) /\
      forall kubeGetReplicaSet' kubeGetDeployment',
        Vendored.getDeploymentFromCache kubeGetReplicaSet' kubeGetDeployment' pod cache'
        = (cache', d, None)
  | Some _ => cache' = cache /\ d = None
  end.
Proof.
  unfold Vendored.getDeploymentFromCache. fold (pod_key pod).
  destruct (cache !! pod_key pod) as [cached|] eqn:Ec.
  - intros H. inversion H; subst. split; [exact Ec|]. split; [reflexivity|].
    intros ? ?. rewrite Ec. reflexivity.
  - destruct (resolve pod) as [d0 [e|]]; intros H; inversion H; subst.
    + auto.
    + split; [apply lookup_insert_eq|]. split.
      * intros k Hk. apply lookup_insert_ne. congruence.
      * intros ? ?. rewrite lookup_insert_eq. reflexivity.
Qed.

(** The first loop returns without error when every pod resolves without
    error. *)
Lemma Vendored_tally_loop_returns pods :
  forall tally0 cache0,
  (forall pod, In pod pods -> (resolve pod).2 = None) ->
  exists tally cache, tally_loop pods tally0 cache0 = (tally, cache, None).
Proof.
  induction pods as [|pod pods IH]; intros tally0 cache0 Hok; [simpl; eauto|].
  cbn [Vendored.tally_loop]. unfold Vendored.getDeploymentFromCache.
  assert (Hok' : forall pod', In pod' pods -> (resolve pod').2 = None)
    by (intros; apply Hok; right; assumption).
  destruct (cache0 !! (pod_Namespace pod +:+ "/" +:+ pod_Name pod)) as [[d|]|].
  - apply IH, Hok'.
  - apply IH, Hok'.
  - pose proof (Hok pod (or_introl eq_refl)) as Hpod.
    destruct (resolve pod) as [d e]. simpl in Hpod. subst e.
    destruct d; apply IH, Hok'.
Qed.

(** The second loop faults in one way only. *)
Lemma Vendored_classify_loop_panic nodeName t pods tally cache :
  forall unique restartDeployments drainPods p,
  Vendored.classify_loop nodeName t pods tally cache unique restartDeployments drainPods
    = panics p ->
  p = nil_pointer_dereference.
Proof.
  induction pods as [|pod pods IH]; intros unique restart drain p H; [discriminate|].
  cbn [Vendored.classify_loop] in H.
  destruct (cache !! (pod_Namespace pod +:+ "/" +:+ pod_Name pod)) as [[d|]|];
    simpl in H; try (inversion H; reflexivity).
  destruct (Replicas d) as [replicas|]; simpl in H; [|inversion H; reflexivity].
  repeat match type of H with
         | (if ?c then _ else _) = _ => destruct c
         end; eapply IH; eauto.
Qed.

(** X8. The vendored classification faults whenever a listed pod has no
    deployment: for pods of distinct keys that all resolve without error, one
    of them to no deployment, [GetRestartdeploymentsAndDrainPods] ends in a
    nil pointer dereference and returns neither set. *)
Theorem GetRestartdeploymentsAndDrainPods_faults (t : Vendored.Terminator)
    (pods : list Pod) (nodeName : string) (pod : Pod) :
  NoDup (map pod_key pods) ->
  (forall pod', In pod' pods -> (resolve pod').2 = None) ->
  In pod pods ->
  resolve pod = (None, None) ->
  Vendored.GetRestartdeploymentsAndDrainPods kubeGetReplicaSet kubeGetDeployment
    t pods nodeName = panics nil_pointer_dereference.
Proof.
  intros Hkeys Hok Hin Hnone. unfold Vendored.GetRestartdeploymentsAndDrainPods.
  destruct (Vendored_tally_loop_returns pods ∅ ∅ Hok) as (tally & cache & Htally).
  rewrite Htally.
  destruct (Vendored_tally_loop_spec _ _ pods ∅ ∅ tally cache Hkeys
              (fun _ _ => lookup_empty _) Htally) as [Hcache _].
  destruct (Vendored.classify_loop nodeName t pods tally cache ∅ [] []) as [result|p] eqn:E.
  - destruct (Vendored_classify_loop_returns nodeName t pods tally cache ∅ [] []
                result E pod Hin) as [d Hd].
    destruct (Hcache pod Hin) as (d' & Hres & Hc).
    unfold pod_key in Hc. rewrite Hd in Hc. rewrite Hnone in Hres.
    inversion Hc; subst d'. inversion Hres.
  - apply Vendored_classify_loop_panic in E. subst p. reflexivity.
Qed.

(** The drain set of the second loop, when it returns. *)
Lemma Vendored_classify_loop_drain nodeName t pods tally cache :
  forall unique restartDeployments drainPods restartDeployments' drainPods',
  Vendored.classify_loop nodeName t pods tally cache unique restartDeployments drainPods
    = ret (restartDeployments', drainPods') ->
  drainPods' =
    drainPods ++
    List.filter (cache_drains cache tally
                   (default ∅ (Vendored.nodeRestartDeployments t !! nodeName))) pods /\
  forall pod, In pod pods ->
    exists d replicas, cache !! pod_key pod = Some (Some d) /\ Replicas d = Some replicas.
Proof.
  induction pods as [|pod0 pods IH]; intros unique restart drain restart' drain' Hrun.
  - simpl in Hrun. inversion Hrun; subst. rewrite app_nil_r. split; [reflexivity|].
    intros ? [].
  - cbn [Vendored.classify_loop] in Hrun. fold (pod_key pod0) in Hrun.
    cbn [List.filter]. unfold cache_drains at 1.
    destruct (cache !! pod_key pod0) as [[d0|]|] eqn:Ecache; simpl in Hrun;
      try discriminate.
    destruct (Replicas d0) as [replicas|] eqn:Erep; simpl in Hrun; [|discriminate].
    fold (deployment_key d0) in Hrun.
    assert (Hhead : forall pod, pod0 = pod \/ In pod pods ->
              (forall pod', In pod' pods -> exists d r,
                  cache !! pod_key pod' = Some (Some d) /\ Replicas d = Some r) ->
              exists d r, cache !! pod_key pod = Some (Some d) /\ Replicas d = Some r).
    { intros pod [<-|Hin] Hrest; [eauto|auto]. }
    destruct (default 0 (tally !! deployment_key d0) =? replicas); cbn [negb andb].
    + destruct (bool_decide (deployment_key d0 ∈ unique));
        apply IH in Hrun as [-> Hrest]; split; eauto.
    + destruct (bool_decide (deployment_key d0 ∈ _)); cbn [negb];
        apply IH in Hrun as [-> Hrest]; split; eauto.
      rewrite <- app_assoc. reflexivity.
Qed.

(** X7. The drain set of the vendored source, for pods of distinct keys and
    fewer than 2^31 of them, when the call returns: it holds, in the order of
    the list, exactly the pods whose deployment neither has as many pods on
    the list as it has replicas nor is in the record of the node.  A pod whose
    deployment is in the record is left out of both sets. *)
Theorem Vendored_drain_set (t : Vendored.Terminator) (pods : list Pod) (nodeName : string)
    (restartDeployments : list Deployment) (drainPods : list Pod) :
  NoDup (map pod_key pods) ->
  Z.of_nat (length pods) <= 2147483647 ->
  Vendored.GetRestartdeploymentsAndDrainPods kubeGetReplicaSet kubeGetDeployment
    t pods nodeName = ret (restartDeployments, drainPods, None) ->
  drainPods =
    List.filter (drained resolve (default ∅ (Vendored.nodeRestartDeployments t !! nodeName))
                   pods) pods.
Proof.
  intros Hkeys Hlen Hrun. unfold Vendored.GetRestartdeploymentsAndDrainPods in Hrun.
  destruct (tally_loop pods ∅ ∅) as [[tally cache] [err|]] eqn:Etally;
    [inversion Hrun|].
  apply go_bind_ret in Hrun as ([restart drain] & Hclassify & Hret).
  inversion Hret; subst restart drain.
  destruct (Vendored_tally_loop_spec _ _ pods ∅ ∅ tally cache Hkeys
              (fun _ _ => lookup_empty _) Etally) as [Hcache Htally].
  assert (Hcount : forall k, default 0 (tally !! k)
                             = Z.of_nat (pods_resolving_to resolve k pods)).
  { intros k. rewrite Htally, lookup_empty. simpl.
    assert (pods_resolving_to resolve k pods <= length pods)%nat
      by apply List.filter_length_le.
    rewrite bump_small; lia. }
  apply Vendored_classify_loop_drain in Hclassify as [-> Hall]. simpl.
  apply List.filter_ext_in. intros pod Hin.
  destruct (Hall pod Hin) as (d & replicas & Hc & Hrep).
  destruct (Hcache pod Hin) as (d' & Hres & Hc').
  rewrite Hc in Hc'. inversion Hc'; subst d'.
  unfold cache_drains, drained. rewrite Hc, Hres, Hrep, Hcount. f_equal. f_equal.
  destruct (Z.eqb_spec (Z.of_nat (pods_resolving_to resolve (deployment_key d) pods))
              replicas) as [Heq|Hne].
  - rewrite bool_decide_eq_true_2; congruence.
  - rewrite bool_decide_eq_false_2; congruence.
Qed.

End VendoredSets.

Lemma NoDup_web_keys : NoDup (map pod_key [web_1; web_2]).
Proof.
  apply NoDup_cons. split; [|apply NoDup_singleton].
  intros H. apply list_elem_of_singleton in H. discriminate H.
Qed.

Lemma GetRestartdeploymentsAndDrainPods_faults_witness :
  Vendored.GetRestartdeploymentsAndDrainPods ex_GetReplicaSet ex_GetDeployment
    Vendored.NewTerminator [web_1; bare] "n1" = panics nil_pointer_dereference.
Proof.
  apply (GetRestartdeploymentsAndDrainPods_faults ex_GetReplicaSet ex_GetDeployment
           Vendored.NewTerminator [web_1; bare] "n1" bare).
  - apply NoDup_cons. split; [|apply NoDup_singleton].
    intros H. apply list_elem_of_singleton in H. discriminate H.
  - intros pod' [<-|[<-|[]]]; reflexivity.
  - right. left. reflexivity.
  - reflexivity.
Defined.

Lemma Vendored_drain_set_witness :
  [web_1] =
  List.filter
    (drained (Vendored.GetDeploymentFromPod ex_GetReplicaSet ex_GetDeployment)
       (default ∅ (Vendored.nodeRestartDeployments Vendored.NewTerminator !! "n1"))
       [web_1]) [web_1].
Proof.
  apply (Vendored_drain_set ex_GetReplicaSet ex_GetDeployment Vendored.NewTerminator
           [web_1] "n1" []).
  - apply NoDup_singleton.
  - simpl. lia.
  - vm_compute. reflexivity.
Defined.

Lemma Vendored_restart_set_witness :
  NoDup (map deployment_key [web]) /\
  (forall d, In d [web] ->
     (exists pod, In pod [web_1; web_2] /\
        Vendored.GetDeploymentFromPod ex_GetReplicaSet ex_GetDeployment pod = (Some d, None)) /\
     Replicas d =
       Some (Z.of_nat
               (pods_resolving_to
                  (Vendored.GetDeploymentFromPod ex_GetReplicaSet ex_GetDeployment)
                  (deployment_key d) [web_1; web_2]))) /\
  (forall pod d, In pod [web_1; web_2] ->
     Vendored.GetDeploymentFromPod ex_GetReplicaSet ex_GetDeployment pod = (Some d, None) ->
     Replicas d =
       Some (Z.of_nat
               (pods_resolving_to
                  (Vendored.GetDeploymentFromPod ex_GetReplicaSet ex_GetDeployment)
                  (deployment_key d) [web_1; web_2])) ->
     In (deployment_key d) (map deployment_key [web])).
Proof.
  apply (Vendored_restart_set ex_GetReplicaSet ex_GetDeployment Vendored.NewTerminator
           [web_1; web_2] "n1" [web] []).
  - exact NoDup_web_keys.
  - simpl. lia.
  - vm_compute. reflexivity.
Defined.

Lemma getDeploymentFromCache_memoizes_witness :
  ({[pod_key web_1 := Some web]} : gmap string (option Deployment)) !! pod_key web_1
    = Some (Some web) /\
  (forall k, k <> pod_key web_1 ->
     ({[pod_key web_1 := Some web]} : gmap string (option Deployment)) !! k
     = (∅ : gmap string (option Deployment)) !! k) /\
  forall kubeGetReplicaSet' kubeGetDeployment',
    Vendored.getDeploymentFromCache kubeGetReplicaSet' kubeGetDeployment' web_1
      {[pod_key web_1 := Some web]}
    = ({[pod_key web_1 := Some web]}, Some web, None).
Proof.
  apply (getDeploymentFromCache_memoizes ex_GetReplicaSet ex_GetDeployment web_1 ∅
           {[pod_key web_1 := Some web]} (Some web) None).
  vm_compute. reflexivity.
Defined.


Section Part000Sets.

Variable kubeGetReplicaSet : string -> string -> fetched ReplicaSet.
Variable kubeGetDeployment : string -> string -> fetched Deployment.
Variable GetPods : Node -> list Pod * option error.

Local Abbreviation resolve :=
  (Part000.GetDeploymentFromPod kubeGetReplicaSet kubeGetDeployment).

(** The first loop of the second source, when it returns without error: the
    counter of a key has been incremented once per pod tallied under it. *)
Lemma Part000_tally_loop_spec pods :
  forall tally0 tally,
  Part000.tally_loop kubeGetReplicaSet kubeGetDeployment pods tally0 = ret (tally, None) ->
  forall k, default 0 (tally !! k) =
            bump (pods_tallied_under resolve k pods) (default 0 (tally0 !! k)).
Proof.
  induction pods as [|pod pods IH]; intros tally0 tally Hrun k.
  - simpl in Hrun. inversion Hrun; subst. reflexivity.
  - cbn [Part000.tally_loop] in Hrun.
    apply go_bind_ret in Hrun as ([d err] & Hres & Hrun).
    unfold pods_tallied_under. cbn [List.filter]. rewrite Hres.
    destruct err as [err|]; [inversion Hrun|].
    destruct d as [d|].
    + rewrite (IH _ _ Hrun k). unfold pods_tallied_under.
      fold (tally_key d). fold (tally_key d) in Hrun.
      destruct (String.eqb_spec (tally_key d) k) as [<-|Hne].
      * cbn [length]. rewrite bump_S_inner, lookup_insert_eq. reflexivity.
      * rewrite lookup_insert_ne by exact Hne. reflexivity.
    + rewrite (IH _ _ Hrun k). reflexivity.
Qed.

Lemma omap_filter_length {A B : Type} (f : A -> option B) (l : list A) :
  (length (omap f l)
   + length (List.filter (fun x => bool_decide (f x = None)) l) = length l)%nat.
Proof.
  induction l as [|x l IH]; [reflexivity|].
  cbn [omap list_omap List.filter]. destruct (f x) eqn:E.
  - rewrite bool_decide_eq_false_2 by discriminate. simpl. lia.
  - rewrite bool_decide_eq_true_2 by reflexivity. simpl. lia.
Qed.

(** X9. The two sets of the second source, for fewer than 2^31 listed pods,
    when the call returns without error.  Every listed pod is accounted for
    once: in the order of the list, the restart list holds the deployment of
    every pod whose deployment has as many pods tallied under its key as it
    has replicas (once per such pod), and the drain set holds every other
    pod. *)
Theorem GetdeploymentsAndDrainPodsFromNode_partition (node : Node) (pods : list Pod)
    (restartDeployments : list Deployment) (drainPods : list Pod) :
  GetPods node = (pods, None) ->
  Z.of_nat (length pods) <= 2147483647 ->
  Part000.GetdeploymentsAndDrainPodsFromNode kubeGetReplicaSet kubeGetDeployment GetPods node
    = ret (restartDeployments, drainPods, None) ->
  exists tally : gmap string Z,
    (forall k, default 0 (tally !! k) = Z.of_nat (pods_tallied_under resolve k pods)) /\
    restartDeployments = omap (restart_of_pod resolve tally) pods /\
    drainPods =
      List.filter (fun pod => bool_decide (restart_of_pod resolve tally pod = None)) pods /\
    (length restartDeployments + length drainPods = length pods)%nat.
Proof.
  intros Hpods Hlen Hrun. unfold Part000.GetdeploymentsAndDrainPodsFromNode in Hrun.
  rewrite Hpods in Hrun.
  apply go_bind_ret in Hrun as ([tally err] & Htally & Hrun).
  destruct err as [err|]; [inversion Hrun|].
  exists tally. split.
  - intros k. rewrite (Part000_tally_loop_spec pods ∅ tally Htally k), lookup_empty. simpl.
    assert (pods_tallied_under resolve k pods <= length pods)%nat
      by apply List.filter_length_le.
    rewrite bump_small; lia.
  - apply Part000_classify_loop_spec in Hrun as [-> ->]. simpl.
    split; [reflexivity|]. split; [reflexivity|]. apply omap_filter_length.
Qed.

End Part000Sets.

Lemma GetdeploymentsAndDrainPodsFromNode_partition_witness :
  exists tally : gmap string Z,
    (forall k, default 0 (tally !! k)
               = Z.of_nat (pods_tallied_under
                             (Part000.GetDeploymentFromPod ex_GetReplicaSet ex_GetDeployment)
                             k [web_1; web_2; bare])) /\
    [web; web] =
      omap (restart_of_pod (Part000.GetDeploymentFromPod ex_GetReplicaSet ex_GetDeployment)
              tally) [web_1; web_2; bare] /\
    [bare] =
      List.filter
        (fun pod => bool_decide
           (restart_of_pod (Part000.GetDeploymentFromPod ex_GetReplicaSet ex_GetDeployment)
              tally pod = None)) [web_1; web_2; bare] /\
    (length [web; web] + length [bare] = length [web_1; web_2; bare])%nat.
Proof.
  apply (GetdeploymentsAndDrainPodsFromNode_partition ex_GetReplicaSet ex_GetDeployment
           (list_pods [web_1; web_2; bare]) n1 [web_1; web_2; bare] [web; web] [bare]).
  - reflexivity.
  - simpl. lia.
  - vm_compute. reflexivity.
Defined.

(** * Further properties of [RestartDeployments] *)

Lemma only_annotation_stamped key nodeName d :
  only_annotation key d (stamped d key nodeName).
Proof.
  unfold only_annotation, stamped, marker. simpl. repeat split.
  intros other Hne. apply lookup_insert_ne. congruence.
Qed.

Lemma only_annotation_made key d :
  only_annotation key d
    {| dep_Namespace := dep_Namespace d; dep_Name := dep_Name d; Replicas := Replicas d;
       Annotations := Some (default ∅ (Annotations d)) |}.
Proof. unfold only_annotation, marker. simpl. repeat split. Qed.

Section Part000Requests.

Variable kubeUpdate : Deployment -> option error.

Local Abbreviation restartedAt := "kubectl.kubernetes.io/restartedAt".

(** A marked deployment is passed over. *)
Lemma Part000_RestartDeployments_marked nodeName d rest (t : Part000.Terminator) :
  marked nodeName d = true ->
  Part000.RestartDeployments kubeUpdate t (d :: rest) nodeName =
  let '(t', rest', err) := Part000.RestartDeployments kubeUpdate t rest nodeName in
  (t', Part000.set_Annotations d (Some (default ∅ (Annotations d))) :: rest', err).
Proof.
  intros Hd. unfold marked, marker in Hd. cbn [Part000.RestartDeployments].
  destruct (Annotations d) as [a|] eqn:Ea; simpl in Hd; rewrite ?lookup_empty in Hd;
    [|discriminate].
  simpl. destruct (a !! "kubectl.kubernetes.io/restartedNode"); [|discriminate].
  rewrite Hd. reflexivity.
Qed.

(** X15. The requests of [RestartDeployments] of the second source.  It sends
    updates only, for the deployments that do not carry the node name under
    [restartedNode], each stamped under [restartedAt], one each and in the
    order of the list, and stops after the first update that fails: the error
    it returns is the error of the last update it sent, returned as it is,
    and every update before that one succeeded. *)
Theorem Part000_RestartDeployments_requests (nodeName : string)
    (deployments : list Deployment) (t : Part000.Terminator) :
  let '(t', _, err) := Part000.RestartDeployments kubeUpdate t deployments nodeName in
  exists sent unsent,
    map (fun d => stamped d restartedAt nodeName)
        (List.filter (fun d => negb (marked nodeName d)) deployments) = sent ++ unsent /\
    Part000.kubeClient t' = Part000.kubeClient t ++ map UpdateDeployment sent /\
    match err with
    | None => unsent = [] /\ Forall (fun d => kubeUpdate d = None) sent
    | Some e =>
        exists before failed,
          sent = before ++ [failed] /\ kubeUpdate failed = Some e /\
          Forall (fun d => kubeUpdate d = None) before
    end.
Proof.
  revert t. induction deployments as [|d ds IH]; intros t.
  - simpl. exists [], []. simpl. rewrite app_nil_r. repeat split; constructor.
  - cbn [List.filter]. destruct (marked nodeName d) eqn:Em; cbn [negb].
    + rewrite (Part000_RestartDeployments_marked nodeName d ds t Em).
      specialize (IH t).
      destruct (Part000.RestartDeployments kubeUpdate t ds nodeName) as [[t' ds'] err].
      exact IH.
    + rewrite (Part000_RestartDeployments_unmarked kubeUpdate nodeName d ds t Em).
      cbv zeta. cbn [map].
      set (d' := stamped d restartedAt nodeName).
      destruct (kubeUpdate d') as [e|] eqn:Eu.
      * exists [d'], (map (fun d0 => stamped d0 restartedAt nodeName)
                        (List.filter (fun d0 => negb (marked nodeName d0)) ds)).
        split; [reflexivity|]. split; [reflexivity|].
        exists [], d'. repeat split; [exact Eu | constructor].
      * specialize (IH (Part000.kubeClient_send t (UpdateDeployment d'))).
        destruct (Part000.RestartDeployments kubeUpdate _ ds nodeName) as [[t' ds'] err].
        destruct IH as (sent & unsent & Hsplit & Hreq & Herr).
        exists (d' :: sent), unsent. split; [simpl; rewrite Hsplit; reflexivity|].
        split; [rewrite Hreq; simpl; rewrite <- app_assoc; reflexivity|].
        destruct err as [e|].
        -- destruct Herr as (before & failed & -> & Hf & Hb).
           exists (d' :: before), failed.
           repeat split; [exact Hf | constructor; assumption].
        -- destruct Herr as [-> Hall]. split; [reflexivity | constructor; assumption].
Qed.

(** X16. [RestartDeployments] of the second source hands back as many
    deployments as it was given and changes nothing of any but the annotation
    [restartedAt]: namespace, name, replica count and every other annotation
    are as before.  In particular no deployment carries the node name under
    [restartedNode], the key the call reads, unless it did before the call. *)
Theorem Part000_RestartDeployments_frame (nodeName : string)
    (deployments : list Deployment) (t : Part000.Terminator) :
  let '(_, deployments', _) :=
    Part000.RestartDeployments kubeUpdate t deployments nodeName in
  Forall2 (only_annotation restartedAt) deployments deployments' /\
  map (marked nodeName) deployments' = map (marked nodeName) deployments.
Proof.
  assert (Hmarked : forall d d', only_annotation restartedAt d d' ->
            marked nodeName d' = marked nodeName d).
  { intros d d' (_ & _ & _ & H). unfold marked. rewrite H by discriminate. reflexivity. }
  assert (Hrefl : forall ds, Forall2 (only_annotation restartedAt) ds ds).
  { induction ds; constructor; [|assumption]. repeat split. }
  revert t. induction deployments as [|d ds IH]; intros t.
  - simpl. split; [constructor | reflexivity].
  - destruct (marked nodeName d) eqn:Em.
    + rewrite (Part000_RestartDeployments_marked nodeName d ds t Em).
      specialize (IH t).
      destruct (Part000.RestartDeployments kubeUpdate t ds nodeName) as [[t' ds'] err].
      destruct IH as [Hall Hmap].
      assert (Hd := only_annotation_made restartedAt d).
      split; [constructor; assumption|].
      simpl. rewrite Hmap. f_equal; apply (Hmarked _ _ Hd).
    + rewrite (Part000_RestartDeployments_unmarked kubeUpdate nodeName d ds t Em).
      cbv zeta.
      assert (Hd := only_annotation_stamped restartedAt nodeName d).
      destruct (kubeUpdate _) as [e|].
      * split; [constructor; [exact Hd | apply Hrefl]|].
        simpl. f_equal; apply (Hmarked _ _ Hd).
      * specialize (IH (Part000.kubeClient_send t
                          (UpdateDeployment (stamped d restartedAt nodeName)))).
        destruct (Part000.RestartDeployments kubeUpdate _ ds nodeName) as [[t' ds'] err].
        destruct IH as [Hall Hmap].
        split; [constructor; assumption|].
        simpl. rewrite Hmap. f_equal; apply (Hmarked _ _ Hd).
Qed.

End Part000Requests.

Section VendoredFrame.

Variable kubeUpdate : Deployment -> option error.

Local Abbreviation restartedNode := "kubectl.kubernetes.io/restartedNode".

(** What one pass of the body leaves untouched. *)
Lemma Vendored_body_frame nodeName (t t' : Vendored.Terminator) d d' err :
  Vendored.RestartDeployments_body kubeUpdate nodeName t d = ret (t', d', err) ->
  Vendored.evictionQueue t' = Vendored.evictionQueue t /\
  (forall other, other <> nodeName ->
     Vendored.nodeRestartDeployments t' !! other = Vendored.nodeRestartDeployments t !! other) /\
  (forall inner, Vendored.nodeRestartDeployments t !! nodeName = Some inner ->
     exists inner', Vendored.nodeRestartDeployments t' !! nodeName = Some inner'
                    /\ inner ⊆ inner') /\
  (Vendored.nodeRestartDeployments t !! nodeName = None ->
     Vendored.nodeRestartDeployments t' !! nodeName = None).
Proof.
  destruct (marked nodeName d) eqn:Em.
  - rewrite (Vendored_body_marked kubeUpdate _ _ _ Em). intros H. inversion H; subst.
    repeat split; auto. intros inner Hi. exists inner. split; [exact Hi | reflexivity].
  - destruct (Vendored.nodeRestartDeployments t !! nodeName) as [inner|] eqn:Ei.
    + rewrite (Vendored_body_unmarked kubeUpdate _ _ _ inner Em Ei).
      intros H. inversion H; subst. simpl. repeat split.
      * intros other Hne. apply lookup_insert_ne. congruence.
      * intros inner0 Hi. inversion Hi; subst inner0.
        eexists. split; [apply lookup_insert_eq|]. apply union_subseteq_r.
      * discriminate.
    + rewrite (Vendored_body_fault kubeUpdate _ _ _ Em Ei). discriminate.
Qed.

Lemma Vendored_loop_frame nodeName deployments :
  forall (t t' : Vendored.Terminator) errs errs' deployments',
  Vendored.RestartDeployments_loop kubeUpdate nodeName t deployments errs
    = ret (t', deployments', errs') ->
  Vendored.evictionQueue t' = Vendored.evictionQueue t /\
  (forall other, other <> nodeName ->
     Vendored.nodeRestartDeployments t' !! other = Vendored.nodeRestartDeployments t !! other) /\
  (forall inner, Vendored.nodeRestartDeployments t !! nodeName = Some inner ->
     exists inner', Vendored.nodeRestartDeployments t' !! nodeName = Some inner'
                    /\ inner ⊆ inner') /\
  (Vendored.nodeRestartDeployments t !! nodeName = None ->
     Vendored.nodeRestartDeployments t' !! nodeName = None).
Proof.
  induction deployments as [|d ds IH]; intros t t' errs errs' ds' Hrun.
  - simpl in Hrun. inversion Hrun; subst. repeat split; auto.
    intros inner Hi. exists inner. split; [exact Hi | reflexivity].
  - cbn [Vendored.RestartDeployments_loop] in Hrun.
    apply go_bind_ret in Hrun as ([[t1 d1] e1] & Hbody & Hrun).
    apply go_bind_ret in Hrun as ([[t2 ds2] errs2] & Hloop & Hret).
    inversion Hret; subst.
    apply Vendored_body_frame in Hbody as (Hq1 & Ho1 & Hi1 & Hn1).
    apply IH in Hloop as (Hq2 & Ho2 & Hi2 & Hn2).
    split; [congruence|]. split; [|split].
    + intros other Hne. rewrite Ho2, Ho1 by exact Hne. reflexivity.
    + intros inner Hi. destruct (Hi1 inner Hi) as (inner1 & H1 & Hsub1).
      destruct (Hi2 inner1 H1) as (inner2 & H2 & Hsub2).
      exists inner2. split; [exact H2|]. etransitivity; eassumption.
    + auto.
Qed.

Lemma Vendored_RestartDeployments_inv nodeName deployments
    (t t' : Vendored.Terminator) deployments' err :
  Vendored.RestartDeployments kubeUpdate t deployments nodeName
    = ret (t', deployments', err) ->
  exists errs,
    Vendored.RestartDeployments_loop kubeUpdate nodeName t deployments []
      = ret (t', deployments', errs).
Proof.
  unfold Vendored.RestartDeployments. intros H.
  apply go_bind_ret in H as ([[t1 ds1] errs1] & Hloop & Hret).
  exists errs1. rewrite Hloop.
  destruct (0 <? Z.of_nat (length errs1)); inversion Hret; reflexivity.
Qed.

(** X13. What the vendored [RestartDeployments] leaves untouched when it
    returns: the eviction queue, the record of every other node, and of every
    deployment everything but the annotation [restartedNode].  The record of
    the node itself only grows, and the call never makes an inner map for a
    node that has none. *)
Theorem Vendored_RestartDeployments_frame nodeName deployments
    (t t' : Vendored.Terminator) deployments' err :
  Vendored.RestartDeployments kubeUpdate t deployments nodeName
    = ret (t', deployments', err) ->
  Vendored.evictionQueue t' = Vendored.evictionQueue t /\
  (forall other, other <> nodeName ->
     Vendored.nodeRestartDeployments t' !! other = Vendored.nodeRestartDeployments t !! other) /\
  (forall inner, Vendored.nodeRestartDeployments t !! nodeName = Some inner ->
     exists inner', Vendored.nodeRestartDeployments t' !! nodeName = Some inner'
                    /\ inner ⊆ inner') /\
  (Vendored.nodeRestartDeployments t !! nodeName = None ->
     Vendored.nodeRestartDeployments t' !! nodeName = None) /\
  Forall2 (only_annotation restartedNode) deployments deployments'.
Proof.
  intros H. apply Vendored_RestartDeployments_inv in H as [errs Hloop].
  pose proof (Vendored_loop_visited kubeUpdate _ _ _ _ _ _ _ Hloop) as ->.
  apply Vendored_loop_frame in Hloop as (Hq & Ho & Hi & Hn).
  repeat split; auto.
  clear. induction deployments as [|d ds IH]; simpl; constructor; [|exact IH].
  unfold visited. destruct (marked nodeName d).
  - apply (only_annotation_made restartedNode d).
  - apply only_annotation_stamped.
Qed.

(** X14. The vendored [RestartDeployments] passes over deployments that
    already carry the node name under [restartedNode]: on a list of such
    deployments it sends nothing, writes nothing into the record and returns
    no error, also on a terminator whose record has no inner map for the
    node. *)
Theorem Vendored_RestartDeployments_skips_marked nodeName deployments
    (t : Vendored.Terminator) :
  Forall (fun d => marked nodeName d = true) deployments ->
  exists deployments',
    Vendored.RestartDeployments kubeUpdate t deployments nodeName
      = ret (t, deployments', None) /\
    Forall2 (fun d d' => marker restartedNode d' = marker restartedNode d)
      deployments deployments'.
Proof.
  intros Hall. exists (map (visited nodeName) deployments).
  unfold Vendored.RestartDeployments.
  rewrite (Vendored_loop_all_marked kubeUpdate nodeName deployments t [] Hall).
  split; [reflexivity|].
  induction Hall as [|d ds Hd _ IH]; simpl; constructor; [|exact IH].
  unfold visited. rewrite Hd. reflexivity.
Qed.

End VendoredFrame.

Lemma Vendored_RestartDeployments_with_record_witness :
  exists t',
    Vendored.RestartDeployments update_api_conflict (tracking "n1") [api; web] "n1" =
      ret (t', map (visited "n1") [api; web],
           combined (omap update_api_conflict (to_restart "n1" [api; web]))) /\
    Vendored.kubeClient t' =
      Vendored.kubeClient (tracking "n1")
      ++ map UpdateDeployment (to_restart "n1" [api; web]) /\
    Vendored.nodeRestartDeployments t' !! "n1" =
      Some (list_to_set (map deployment_key (to_restart "n1" [api; web])) ∪ ∅).
Proof.
  apply (Vendored_RestartDeployments_with_record update_api_conflict "n1" [api; web]
           (tracking "n1") ∅).
  vm_compute. reflexivity.
Defined.

Lemma Vendored_RestartDeployments_fault_witness :
  Vendored.RestartDeployments update_ok Vendored.NewTerminator [web; api] "n1"
    = panics assignment_to_entry_in_nil_map.
Proof.
  apply (Vendored_RestartDeployments_fault update_ok "n1" web [api] Vendored.NewTerminator).
  - vm_compute. reflexivity.
  - vm_compute. reflexivity.
Defined.

Lemma Vendored_RestartDeployments_again_witness :
  exists t' deployments' err,
    Vendored.RestartDeployments update_ok (tracking "n1") [web; api] "n1"
      = ret (t', deployments', err) /\
    Vendored.RestartDeployments update_ok t' deployments' "n1"
      = ret (t', deployments', None).
Proof.
  eexists _, _, _. split.
  - vm_compute. reflexivity.
  - apply (Vendored_RestartDeployments_again update_ok "n1" [web; api] (tracking "n1")
             _ _ None).
    vm_compute. reflexivity.
Defined.

Lemma Vendored_RestartDeployments_frame_witness :
  exists t' deployments' err,
    Vendored.RestartDeployments update_conflict (tracking "n1") [web] "n1"
      = ret (t', deployments', err) /\
    Vendored.evictionQueue t' = Vendored.evictionQueue (tracking "n1") /\
    (forall other, other <> "n1" ->
       Vendored.nodeRestartDeployments t' !! other
       = Vendored.nodeRestartDeployments (tracking "n1") !! other) /\
    (forall inner, Vendored.nodeRestartDeployments (tracking "n1") !! "n1" = Some inner ->
       exists inner', Vendored.nodeRestartDeployments t' !! "n1" = Some inner'
                      /\ inner ⊆ inner') /\
    (Vendored.nodeRestartDeployments (tracking "n1") !! "n1" = None ->
       Vendored.nodeRestartDeployments t' !! "n1" = None) /\
    Forall2 (only_annotation "kubectl.kubernetes.io/restartedNode") [web] deployments'.
Proof.
  eexists _, _, _. split.
  - vm_compute. reflexivity.
  - apply (Vendored_RestartDeployments_frame update_conflict "n1" [web] (tracking "n1")
             _ _ (Some (Errorf_v "failed to restart some deployment"
                          [StatusError "Conflict"]))).
    vm_compute. reflexivity.
Defined.

Lemma Vendored_RestartDeployments_skips_marked_witness :
  exists deployments',
    Vendored.RestartDeployments update_conflict Vendored.NewTerminator [web_marked] "n1"
      = ret (Vendored.NewTerminator, deployments', None) /\
    Forall2 (fun d d' => marker "kubectl.kubernetes.io/restartedNode" d'
                         = marker "kubectl.kubernetes.io/restartedNode" d)
      [web_marked] deployments'.
Proof.
  apply (Vendored_RestartDeployments_skips_marked update_conflict "n1" [web_marked]
           Vendored.NewTerminator).
  constructor; [vm_compute; reflexivity | constructor].
Defined.

(** * Further properties of [Evict] *)

Section EvictRounds.

Variable IsOwnedByDaemonSet : Pod -> bool.

Local Abbreviation slice := (pods_of_tier IsOwnedByDaemonSet).
Local Abbreviation tierOf := (tier_of IsOwnedByDaemonSet).
Local Abbreviation slices := (tiers_in_order IsOwnedByDaemonSet).

Lemma tier_rank_inj k k' : tier_rank k = tier_rank k' -> k = k'.
Proof. destruct k, k'; simpl; intros H; try reflexivity; discriminate H. Qed.

(** Once the pods of the tier [k] are gone, the other tiers are as before. *)
Lemma pods_left_slice k pods :
  pods_left (slice k pods) pods
  = List.filter (fun pod => negb (bool_decide (tierOf pod = k))) pods.
Proof.
  unfold pods_left. apply List.filter_ext_in. intros pod Hin. f_equal.
  apply bool_decide_ext. rewrite list_elem_of_In, pods_of_tier_elem. tauto.
Qed.

Lemma slice_pods_left k k' pods :
  slice k' (pods_left (slice k pods) pods) = if bool_decide (k' = k) then [] else slice k' pods.
Proof.
  rewrite pods_left_slice. unfold pods_of_tier.
  induction pods as [|pod pods IH]; simpl; [case_bool_decide; reflexivity|].
  destruct (bool_decide (tierOf pod = k)) eqn:Ek; simpl.
  - rewrite IH. apply bool_decide_eq_true in Ek.
    case_bool_decide as Hkk; [reflexivity|].
    rewrite bool_decide_eq_false_2 by congruence. reflexivity.
  - rewrite IH. apply bool_decide_eq_false in Ek.
    case_bool_decide as Hkk.
    + subst k'. rewrite bool_decide_eq_false_2 by exact Ek. reflexivity.
    + reflexivity.
Qed.

(** X17. Later calls of [Evict] catch the later tiers.  If a call on a list of
    pods submits a list, then a call on the pods that are left once the
    submitted ones are gone either finds no pod left, and submits nothing, or
    submits all the pods of the original list that are of one tier, a tier
    that comes strictly later in the order than the tier of the first call. *)
Theorem Evict_next_round (t t1 : Part000.Terminator) (pods podList : list Pod) :
  Part000.evictionQueue (Part000.Evict IsOwnedByDaemonSet t pods)
    = Part000.evictionQueue t ++ [podList] ->
  let left := pods_left podList pods in
  (left = [] /\ Part000.Evict IsOwnedByDaemonSet t1 left = t1) \/
  exists k k',
    podList = slice k pods /\
    Part000.Evict IsOwnedByDaemonSet t1 left = Part000.evictionQueue_Add t1 (slice k' pods) /\
    slice k' pods <> [] /\
    (tier_rank k < tier_rank k')%nat.
Proof.
  intros Hq left. rewrite Part000_Evict_first_nonempty in Hq.
  destruct (first_nonempty (slices pods)) as [l|] eqn:E.
  2:{ apply (f_equal (@length _)) in Hq. rewrite length_app in Hq. simpl in Hq. lia. }
  simpl in Hq. apply app_inv_head in Hq. inversion Hq; subst l.
  destruct (first_nonempty_tier IsOwnedByDaemonSet pods podList E) as (k & Hk & _ & Hmin).
  rewrite Part000_Evict_first_nonempty.
  destruct (first_nonempty (slices left)) as [l'|] eqn:E'.
  - right.
    destruct (first_nonempty_tier IsOwnedByDaemonSet left l' E') as (k' & Hk' & Hne' & _).
    unfold left in Hk'. rewrite Hk, slice_pods_left in Hk'.
    case_bool_decide as Hkk; [contradiction|]. subst l'.
    exists k, k'. repeat split; auto.
    destruct (slice k' pods) as [|pod rest] eqn:Es; [contradiction|].
    assert (Hpod : In pod (slice k' pods)) by (rewrite Es; left; reflexivity).
    apply pods_of_tier_elem in Hpod as [Hin Htier].
    pose proof (Hmin pod Hin) as Hle. rewrite Htier in Hle.
    assert (tier_rank k <> tier_rank k') by (intros H; apply tier_rank_inj in H; congruence).
    lia.
  - left. split; [|reflexivity]. apply (first_nonempty_none IsOwnedByDaemonSet). exact E'.
Qed.

End EvictRounds.

Lemma Evict_next_round_witness :
  let left := pods_left [web_1; bare] [proxy; web_1; bare] in
  (left = [] /\ Part000.Evict is_proxy Part000.NewTerminator left = Part000.NewTerminator) \/
  exists k k',
    [web_1; bare] = pods_of_tier is_proxy k [proxy; web_1; bare] /\
    Part000.Evict is_proxy Part000.NewTerminator left
      = Part000.evictionQueue_Add Part000.NewTerminator
          (pods_of_tier is_proxy k' [proxy; web_1; bare]) /\
    pods_of_tier is_proxy k' [proxy; web_1; bare] <> [] /\
    (tier_rank k < tier_rank k')%nat.
Proof.
  apply (Evict_next_round is_proxy Part000.NewTerminator Part000.NewTerminator
           [proxy; web_1; bare] [web_1; bare]).
  vm_compute. reflexivity.
Defined.

(** * Further properties of [DeleteExpiringPods] *)

Section DeadlineRuns.

Variable kubeDelete : Pod -> Z -> option error.
Variable wallClock : nat -> Time.

Local Abbreviation DeleteExpiringPods := (Part000.DeleteExpiringPods kubeDelete wallClock).

(** X19. [DeleteExpiringPods] always returns (it never faults) and leaves the
    eviction queue alone.  It sends delete requests only, each for a pod of
    the list that has a grace period, and publishes exactly one event per
    delete request, in the same order and for the same pod, grace period and
    deadline.  Without a deadline it sends and publishes nothing. *)
Theorem DeleteExpiringPods_events_mirror_deletes (t : Part000.Terminator)
    (pods : list Pod) (deadline : option Time) :
  exists t' err deleted,
    DeleteExpiringPods t pods deadline = ret (t', err) /\
    Part000.evictionQueue t' = Part000.evictionQueue t /\
    Part000.kubeClient t' = Part000.kubeClient t ++ map delete_request deleted /\
    Part000.recorder t' =
      Part000.recorder t ++
      match deadline with
      | Some D => map (delete_event D) deleted
      | None => []
      end /\
    (deadline = None -> deleted = []) /\
    Forall (fun d => In d.1 pods /\ TerminationGracePeriodSeconds d.1 <> None) deleted.
Proof.
  destruct (DeleteExpiringPods_run kubeDelete wallClock pods deadline t)
    as (t' & err & deleted & Hrun & Hq & Hc & Hr & Hn & Hin & _).
  exists t', err, deleted. auto 10.
Qed.

(** X20. [DeleteExpiringPods] stops at the first delete that fails with an
    error other than not-found: the error it returns wraps the error of the
    last delete it sent, and every delete before that one was taken or
    answered with not-found.  When it returns no error, every delete it sent
    was taken or answered with not-found. *)
Theorem DeleteExpiringPods_stops_at_first_failure (t t' : Part000.Terminator)
    (pods : list Pod) (deadline : option Time) (err : option error) :
  DeleteExpiringPods t pods deadline = ret (t', err) ->
  exists deleted,
    Part000.kubeClient t' = Part000.kubeClient t ++ map delete_request deleted /\
    match err with
    | None => Forall (delete_passed kubeDelete) deleted
    | Some e =>
        exists before failed cause,
          deleted = before ++ [failed] /\
          kubeDelete failed.1 failed.2 = Some cause /\ IsNotFound cause = false /\
          e = Errorf_w "deleting pod" cause /\
          Forall (delete_passed kubeDelete) before
    end.
Proof.
  intros Hrun.
  destruct (DeleteExpiringPods_run kubeDelete wallClock pods deadline t)
    as (t0 & err0 & deleted & Hrun0 & _ & Hc & _ & _ & _ & Herr).
  rewrite Hrun in Hrun0. inversion Hrun0; subst t0 err0.
  exists deleted. auto.
Qed.

(** X21. With a clock that does not run backwards, and for pods whose grace
    periods are between 1 and 16777216 (2^24) seconds, every delete that
    [DeleteExpiringPods] sends carries a grace period strictly below the
    pod's own, whatever the deadline and however long the pass takes.  (From
    2^24 + 1 seconds on, the conversion through [float64] can round the
    remaining time up to the pod's own grace period.) *)
Theorem DeleteExpiringPods_grace_below_own (pods : list Pod) (D : Time) :
  (forall i j, (i <= j)%nat -> wallClock i <= wallClock j) ->
  (forall pod G, In pod pods -> TerminationGracePeriodSeconds pod = Some G ->
                 1 <= G <= 16777216) ->
  forall (t t' : Part000.Terminator) (err : option error),
  DeleteExpiringPods t pods (Some D) = ret (t', err) ->
  exists deleted,
    Part000.kubeClient t' = Part000.kubeClient t ++ map delete_request deleted /\
    Forall (fun d => exists G, TerminationGracePeriodSeconds d.1 = Some G /\ d.2 < G)
      deleted.
Proof.
  intros Hclock. induction pods as [|pod pods IH]; intros HG t t' err Hrun.
  - simpl in Hrun. inversion Hrun; subst. exists []. simpl. rewrite app_nil_r.
    split; [reflexivity | constructor].
  - assert (HG' : forall pod G, In pod pods -> TerminationGracePeriodSeconds pod = Some G ->
                                1 <= G <= 16777216)
      by (intros; eapply HG; [right|]; eauto).
    cbn [Part000.DeleteExpiringPods] in Hrun.
    destruct (TerminationGracePeriodSeconds pod) as [G|] eqn:EG.
    2:{ unfold Part000.podDeleteTimeWithGracePeriod in Hrun. rewrite EG in Hrun.
        eapply IH; eauto. }
    assert (HGpod : 1 <= G <= 16777216) by (eapply HG; [left|]; eauto).
    rewrite (podDeleteTime_in_range D pod G EG) in Hrun by lia.
    unfold Time_After in Hrun.
    destruct (Z.ltb_spec (D - G * time_Second) (wallClock (Part000.timeNowCalls t)))
      as [Hlt|Hge].
    2:{ eapply IH in Hrun as (deleted & Hc & Hall); [|exact HG'].
        exists deleted. split; [exact Hc | exact Hall]. }
    cbn [deref mbind go_bind] in Hrun.
    set (now2 := wallClock (Part000.timeNowCalls (Part000.tick t))) in Hrun.
    set (g := Duration_Seconds_int64 (Time_Sub D now2)) in Hrun.
    set (t1 := Part000.kubeClient_send _ _) in Hrun.
    assert (Hg : g < G).
    { apply Time_Sub_seconds_lt_grace; [exact HGpod|].
      assert (wallClock (Part000.timeNowCalls t) <= now2)
        by (apply Hclock; simpl; lia).
      lia. }
    assert (Hhead : exists G0, TerminationGracePeriodSeconds (pod, g).1 = Some G0
                               /\ (pod, g).2 < G0) by (exists G; auto).
    assert (Hrest : forall t'' err'',
              DeleteExpiringPods t1 pods (Some D) = ret (t'', err'') ->
              exists deleted,
                Part000.kubeClient t'' = Part000.kubeClient t ++ map delete_request deleted /\
                Forall (fun d => exists G, TerminationGracePeriodSeconds d.1 = Some G
                                           /\ d.2 < G) deleted).
    { intros t'' err'' H. eapply IH in H as (deleted & Hc & Hall); [|exact HG'].
      exists ((pod, g) :: deleted). split; [|constructor; assumption].
      rewrite Hc. unfold t1. simpl. rewrite <- app_assoc. reflexivity. }
    destruct (kubeDelete pod g) as [cause|]; [destruct (negb (IsNotFound cause))|].
    + inversion Hrun; subst. exists [(pod, g)]. split; [reflexivity|].
      constructor; [exact Hhead | constructor].
    + eapply Hrest; exact Hrun.
    + eapply Hrest; exact Hrun.
Qed.

End DeadlineRuns.

(** X18. The delete time of a pod.  [podDeleteTimeWithGracePeriod] answers
    nil exactly when the node has no deadline or the pod has no grace period.
    For a grace period [G] of at most 9223372036 seconds in absolute value it
    answers the deadline minus [G] seconds; the bound is tight: at 9223372037
    seconds the product wraps around and the answer lies after the deadline. *)
Theorem podDeleteTimeWithGracePeriod_spec (deadline : option Time) (pod : Pod) :
  (Part000.podDeleteTimeWithGracePeriod deadline pod = None <->
     deadline = None \/ TerminationGracePeriodSeconds pod = None) /\
  (forall D G, deadline = Some D -> TerminationGracePeriodSeconds pod = Some G ->
     (-9223372036 <= G <= 9223372036 ->
      Part000.podDeleteTimeWithGracePeriod deadline pod = Some (D - G * time_Second)) /\
     (G = 9223372037 ->
      Part000.podDeleteTimeWithGracePeriod deadline pod = Some (D + 9223372036709551616))).
Proof.
  unfold Part000.podDeleteTimeWithGracePeriod. split.
  - destruct deadline as [D|], (TerminationGracePeriodSeconds pod) as [G|];
      split; intros H; try reflexivity; try discriminate; auto.
    destruct H; discriminate.
  - intros D G -> ->. split.
    + intros HG. unfold Time_Add, time_Second.
      rewrite (int64_id (G * 1000000000)) by lia.
      rewrite int64_id by lia. f_equal. lia.
    + intros ->. reflexivity.
Qed.


Lemma DeleteExpiringPods_stops_at_first_failure_witness :
  exists t' err,
    Part000.DeleteExpiringPods delete_forbidden (ticking 80) Part000.NewTerminator
      [web_1; web_2] (Some (100 * time_Second)) = ret (t', err) /\
    exists deleted,
      Part000.kubeClient t'
      = Part000.kubeClient Part000.NewTerminator ++ map delete_request deleted /\
      match err with
      | None => Forall (delete_passed delete_forbidden) deleted
      | Some e =>
          exists before failed cause,
            deleted = before ++ [failed] /\
            delete_forbidden failed.1 failed.2 = Some cause /\ IsNotFound cause = false /\
            e = Errorf_w "deleting pod" cause /\
            Forall (delete_passed delete_forbidden) before
      end.
Proof.
  eexists _, _. split.
  - vm_compute. reflexivity.
  - apply (DeleteExpiringPods_stops_at_first_failure delete_forbidden (ticking 80)
             Part000.NewTerminator _ [web_1; web_2] (Some (100 * time_Second)) _).
    vm_compute. reflexivity.
Defined.

Lemma DeleteExpiringPods_grace_below_own_witness :
  exists t' err,
    Part000.DeleteExpiringPods delete_ok (ticking 80) Part000.NewTerminator
      [web_1; web_2] (Some (100 * time_Second)) = ret (t', err) /\
    exists deleted,
      Part000.kubeClient t'
      = Part000.kubeClient Part000.NewTerminator ++ map delete_request deleted /\
      Forall (fun d => exists G, TerminationGracePeriodSeconds d.1 = Some G /\ d.2 < G)
        deleted.
Proof.
  eexists _, _. split.
  - vm_compute. reflexivity.
  - eapply (DeleteExpiringPods_grace_below_own delete_ok (ticking 80) [web_1; web_2]
              (100 * time_Second)).
    + intros i j Hij. unfold ticking, time_Second. lia.
    + intros pod G [<-|[<-|[]]] H; inversion H; lia.
    + vm_compute. reflexivity.
Defined.

(** * Further properties of [Drain] *)

Section Part000DrainEffects.

Variable kubeDelete : Pod -> Z -> option error.
Variable GetPods : Node -> list Pod * option error.
Variable wallClock : nat -> Time.
Variable IsEvictable : Pod -> bool.
Variable IsWaitingEviction : Pod -> bool.
Variable IsTerminating : Pod -> bool.
Variable IsOwnedByDaemonSet : Pod -> bool.

Local Abbreviation Drain :=
  (Part000.Drain kubeDelete GetPods wallClock IsEvictable IsWaitingEviction IsTerminating
     IsOwnedByDaemonSet).

(** X23. What one call of [Drain] of the second source does, whatever the
    cluster answers.  It always returns.  When the pods cannot be listed it
    does nothing.  The requests it sends are deletes only, each for a pod of
    [drainPods] that is waiting for eviction and not terminating.  It adds to
    the eviction queue at most once, and then all the evictable pods of
    [drainPods] of one tier, at least one.  When it returns an error other
    than the drain-incomplete signal, it has queued nothing. *)
Theorem Part000_Drain_effects (t : Part000.Terminator) (node : Node)
    (drainPods : list Pod) (deadline : option Time) :
  exists t' r deleted,
    Drain t node drainPods deadline = ret (t', r) /\
    (forall err, (GetPods node).2 = Some err -> t' = t) /\
    Part000.kubeClient t' = Part000.kubeClient t ++ map delete_request deleted /\
    Forall (fun d => In d.1 drainPods /\ IsWaitingEviction d.1 = true
                     /\ IsTerminating d.1 = false) deleted /\
    (Part000.evictionQueue t' = Part000.evictionQueue t \/
     exists k,
       pods_of_tier IsOwnedByDaemonSet k (lo_Filter drainPods IsEvictable) <> [] /\
       Part000.evictionQueue t' =
         Part000.evictionQueue t
         ++ [pods_of_tier IsOwnedByDaemonSet k (lo_Filter drainPods IsEvictable)]) /\
    (r <> None -> IsNodeDrainError r = false ->
     Part000.evictionQueue t' = Part000.evictionQueue t).
Proof.
  unfold Part000.Drain.
  destruct (GetPods node) as [pods [err|]] eqn:Epods.
  { exists t, (Some (Errorf_w "listing pods on node" err)), []. simpl.
    rewrite app_nil_r. repeat split; auto. }
  destruct (DeleteExpiringPods_run kubeDelete wallClock
              (lo_Filter drainPods (fun p => IsWaitingEviction p && negb (IsTerminating p)))
              deadline t)
    as (t1 & err & deleted & Hrun & Hq & Hc & _ & _ & Hin & _).
  rewrite Hrun. cbn [mbind go_bind].
  assert (Hdeleted : Forall (fun d => In d.1 drainPods /\ IsWaitingEviction d.1 = true
                                      /\ IsTerminating d.1 = false) deleted).
  { eapply Forall_impl; [exact Hin|]. intros d [Hd _].
    unfold lo_Filter in Hd. apply List.filter_In in Hd as [Hd Hb].
    apply andb_true_iff in Hb as [Hw Ht]. apply negb_true_iff in Ht. auto. }
  destruct err as [e|].
  { exists t1, (Some (Errorf_w "deleting expiring pods" e)), deleted.
    repeat split; auto; simpl; discriminate. }
  rewrite Part000_Evict_first_nonempty.
  assert (Hqueue :
    forall t2,
      t2 = match first_nonempty
                   (tiers_in_order IsOwnedByDaemonSet (lo_Filter drainPods IsEvictable)) with
           | Some podList => Part000.evictionQueue_Add t1 podList
           | None => t1
           end ->
      Part000.kubeClient t2 = Part000.kubeClient t ++ map delete_request deleted /\
      (Part000.evictionQueue t2 = Part000.evictionQueue t \/
       exists k,
         pods_of_tier IsOwnedByDaemonSet k (lo_Filter drainPods IsEvictable) <> [] /\
         Part000.evictionQueue t2 =
           Part000.evictionQueue t
           ++ [pods_of_tier IsOwnedByDaemonSet k (lo_Filter drainPods IsEvictable)])).
  { intros t2 ->.
    destruct (first_nonempty _) as [podList|] eqn:Ef; [|auto].
    apply first_nonempty_tier in Ef as (k & -> & Hne & _).
    split; [exact Hc|]. right. exists k. split; [exact Hne|].
    simpl. rewrite Hq. reflexivity. }
  destruct (0 <? lo_CountBy pods IsWaitingEviction).
  - eexists _, _, deleted. split; [reflexivity|].
    destruct (Hqueue _ eq_refl) as [Hc' Hq'].
    repeat split; auto; simpl; discriminate.
  - eexists _, _, deleted. split; [reflexivity|].
    destruct (Hqueue _ eq_refl) as [Hc' Hq'].
    repeat split; auto; try discriminate. congruence.
Qed.

End Part000DrainEffects.

Section VendoredDrainEffects.

Variable kubeGetReplicaSet : string -> string -> fetched ReplicaSet.
Variable kubeGetDeployment : string -> string -> fetched Deployment.
Variable kubeUpdate : Deployment -> option error.
Variable GetPods : Node -> list Pod * option error.
Variable IsEvictable : Pod -> bool.
Variable IsWaitingEviction : Pod -> bool.
Variable IsOwnedByDaemonSet : Pod -> bool.

Local Abbreviation Drain :=
  (Vendored.Drain kubeGetReplicaSet kubeGetDeployment kubeUpdate GetPods
     IsEvictable IsWaitingEviction IsOwnedByDaemonSet).

(** The requests of the loop of [RestartDeployments] are updates. *)
Lemma Vendored_loop_requests nodeName deployments :
  forall (t t' : Vendored.Terminator) errs errs' deployments',
  Vendored.RestartDeployments_loop kubeUpdate nodeName t deployments errs
    = ret (t', deployments', errs') ->
  exists updated, Vendored.kubeClient t' = Vendored.kubeClient t ++ map UpdateDeployment updated.
Proof.
  induction deployments as [|d rest IH]; intros t t' errs errs' deployments' H.
  - simpl in H. inversion H; subst. exists []. simpl. rewrite app_nil_r. reflexivity.
  - cbn [Vendored.RestartDeployments_loop] in H.
    destruct (Vendored.RestartDeployments_body kubeUpdate nodeName t d)
      as [[[t1 d1] e1]|p] eqn:Eb; [|discriminate].
    cbn [mbind go_bind] in H.
    destruct (Vendored.RestartDeployments_loop kubeUpdate nodeName t1 rest _)
      as [[[t2 rest2] errs2]|p] eqn:El; [|discriminate].
    cbn [mbind go_bind] in H. inversion H; subst.
    apply IH in El as [updated Hu].
    unfold Vendored.RestartDeployments_body in Eb.
    destruct (match _ !! "kubectl.kubernetes.io/restartedNode" with
              | Some restartedNode => String.eqb restartedNode nodeName
              | None => false
              end).
    + inversion Eb; subst. exists updated. exact Hu.
    + destruct (Vendored.nodeRestartDeployments t !! nodeName); [|discriminate].
      cbn [mbind go_bind] in Eb. inversion Eb; subst.
      eexists (_ :: updated). rewrite Hu. simpl. rewrite <- app_assoc. reflexivity.
Qed.

(** X24. What one call of the vendored [Drain] does, when it returns.  The
    requests it sends are updates of deployments.  It never adds a node to
    the record: the entries of the other nodes are as they were, and a node
    without an entry has none afterwards.  The entry of the drained node is
    removed when [Drain] returns no error, and only grows when it returns an
    error.  It adds to the eviction queue at most once, and then evictable
    listed pods only, at least one; when it returns an error other than the
    drain-incomplete signal, it has queued nothing. *)
Theorem Vendored_Drain_effects (t t' : Vendored.Terminator) (node : Node)
    (r : option error) :
  Drain t node = ret (t', r) ->
  (exists updated,
     Vendored.kubeClient t' = Vendored.kubeClient t ++ map UpdateDeployment updated) /\
  (forall other, other <> node_Name node ->
     Vendored.nodeRestartDeployments t' !! other
     = Vendored.nodeRestartDeployments t !! other) /\
  (Vendored.nodeRestartDeployments t !! node_Name node = None ->
   Vendored.nodeRestartDeployments t' !! node_Name node = None) /\
  (r = None -> Vendored.nodeRestartDeployments t' !! node_Name node = None) /\
  (r <> None ->
   forall inner, Vendored.nodeRestartDeployments t !! node_Name node = Some inner ->
     exists inner', Vendored.nodeRestartDeployments t' !! node_Name node = Some inner'
                    /\ inner ⊆ inner') /\
  (Vendored.evictionQueue t' = Vendored.evictionQueue t \/
   exists podList,
     podList <> [] /\
     Vendored.evictionQueue t' = Vendored.evictionQueue t ++ [podList] /\
     Forall (fun pod => In pod (GetPods node).1 /\ IsEvictable pod = true) podList) /\
  (r <> None -> IsNodeDrainError r = false ->
   Vendored.evictionQueue t' = Vendored.evictionQueue t).
Proof.
  unfold Vendored.Drain. intros H.
  assert (Hsame : forall t0 : Vendored.Terminator,
            exists updated : list Deployment,
              Vendored.kubeClient t0 = Vendored.kubeClient t0 ++ map UpdateDeployment updated)
    by (intros t0; exists []; simpl; rewrite app_nil_r; reflexivity).
  destruct (GetPods node) as [pods [err|]] eqn:Epods.
  { inversion H; subst. repeat split; auto; try discriminate.
    intros _ inner Hi. exists inner. split; [exact Hi | reflexivity]. }
  destruct (Vendored.GetRestartdeploymentsAndDrainPods _ _ t pods (node_Name node))
    as [[[restartDeployments drainPods] err]|p] eqn:Ec; [|discriminate].
  cbn [mbind go_bind] in H.
  destruct err as [err|].
  { inversion H; subst. repeat split; auto; try discriminate.
    intros _ inner Hi. exists inner. split; [exact Hi | reflexivity]. }
  destruct (Vendored.RestartDeployments kubeUpdate t restartDeployments (node_Name node))
    as [[[t1 ds] err]|p] eqn:Er; [|discriminate].
  cbn [mbind go_bind] in H.
  pose proof (Vendored_RestartDeployments_inv kubeUpdate _ _ _ _ _ _ Er) as [errs Hloop].
  pose proof (Vendored_loop_frame kubeUpdate _ _ _ _ _ _ _ Hloop)
    as (Hq & Hother & Hgrow & Hnone).
  pose proof (Vendored_loop_requests _ _ _ _ _ _ _ Hloop) as Hreq.
  destruct err as [err|].
  { inversion H; subst. repeat split; auto; discriminate. }
  assert (Hdrain : Forall (fun pod => In pod pods) drainPods).
  { unfold Vendored.GetRestartdeploymentsAndDrainPods in Ec.
    destruct (Vendored.tally_loop _ _ pods ∅ ∅) as [[tally cache] [e|]];
      [inversion Ec; subst; constructor|].
    destruct (Vendored.classify_loop _ _ _ _ _ _ _ _) as [[rd dp]|p] eqn:Ecl;
      [|discriminate].
    cbn [mbind go_bind] in Ec. inversion Ec; subst.
    apply Vendored_classify_loop_drain in Ecl as [-> _]. simpl.
    apply List.Forall_forall. intros pod Hin. apply List.filter_In in Hin as [Hin _].
    exact Hin. }
  rewrite Vendored_Evict_first_nonempty in H.
  set (evictablePods := lo_Filter drainPods IsEvictable) in H.
  assert (Hqueue :
    forall t2,
      t2 = match first_nonempty (tiers_in_order IsOwnedByDaemonSet evictablePods) with
           | Some podList => Vendored.evictionQueue_Add t1 podList
           | None => t1
           end ->
      Vendored.kubeClient t2 = Vendored.kubeClient t1 /\
      Vendored.nodeRestartDeployments t2 = Vendored.nodeRestartDeployments t1 /\
      (Vendored.evictionQueue t2 = Vendored.evictionQueue t \/
       exists podList,
         podList <> [] /\
         Vendored.evictionQueue t2 = Vendored.evictionQueue t ++ [podList] /\
         Forall (fun pod => In pod pods /\ IsEvictable pod = true) podList)).
  { intros t2 ->.
    destruct (first_nonempty _) as [podList|] eqn:Ef; [|auto].
    apply first_nonempty_tier in Ef as (k & -> & Hne & _).
    split; [reflexivity|]. split; [reflexivity|]. right.
    eexists. split; [exact Hne|]. split; [simpl; rewrite Hq; reflexivity|].
    apply List.Forall_forall. intros pod Hin.
    apply pods_of_tier_elem in Hin as [Hin _].
    unfold evictablePods, lo_Filter in Hin. apply List.filter_In in Hin as [Hin He].
    split; [|exact He].
    rewrite List.Forall_forall in Hdrain. apply Hdrain. exact Hin. }
  set (t2 := match first_nonempty _ with
             | Some podList => Vendored.evictionQueue_Add t1 podList
             | None => t1
             end) in H.
  destruct (Hqueue t2 eq_refl) as (Hc2 & Hr2 & Hq2). clearbody t2.
  destruct (0 <? lo_CountBy pods IsWaitingEviction).
  - inversion H; subst t' r. rewrite Hc2, Hr2.
    repeat split; auto; try discriminate.
  - inversion H; subst t' r. simpl. rewrite Hc2, Hr2.
    repeat split; auto; try congruence.
    + intros other Hne. rewrite lookup_delete_ne by congruence. apply Hother. exact Hne.
    + intros _. apply lookup_delete_eq.
    + intros _. apply lookup_delete_eq.
Qed.

End VendoredDrainEffects.

Lemma Part000_Drain_completion_witness :
  exists t' r,
    Part000.Drain delete_ok (list_pods [web_1]) (fun _ => 0) (always true) (always false)
      (always false) (always false) Part000.NewTerminator n1 [web_1] None = ret (t', r) /\
    (IsNodeDrainError r = true <->
       exists pod, In pod [web_1] /\ always false pod = true) /\
    (r = None <-> ~ exists pod, In pod [web_1] /\ always false pod = true).
Proof.
  apply (Part000_Drain_completion delete_ok (list_pods [web_1]) (fun _ => 0) (always true)
           (always false) (always false) (always false)
           Part000.NewTerminator Part000.NewTerminator n1 [web_1] [web_1] None).
  - reflexivity.
  - vm_compute. reflexivity.
Defined.

Lemma Vendored_Drain_effects_witness :
  exists t' r,
    Vendored.Drain ex_GetReplicaSet ex_GetDeployment update_ok (list_pods [web_1])
      (always true) (always true) (always false) (tracking "n1") n1 = ret (t', r) /\
    (exists updated,
       Vendored.kubeClient t'
       = Vendored.kubeClient (tracking "n1") ++ map UpdateDeployment updated) /\
    (forall other, other <> node_Name n1 ->
       Vendored.nodeRestartDeployments t' !! other
       = Vendored.nodeRestartDeployments (tracking "n1") !! other) /\
    (Vendored.nodeRestartDeployments (tracking "n1") !! node_Name n1 = None ->
     Vendored.nodeRestartDeployments t' !! node_Name n1 = None) /\
    (r = None -> Vendored.nodeRestartDeployments t' !! node_Name n1 = None) /\
    (r <> None ->
     forall inner,
       Vendored.nodeRestartDeployments (tracking "n1") !! node_Name n1 = Some inner ->
       exists inner', Vendored.nodeRestartDeployments t' !! node_Name n1 = Some inner'
                      /\ inner ⊆ inner') /\
    (Vendored.evictionQueue t' = Vendored.evictionQueue (tracking "n1") \/
     exists podList,
       podList <> [] /\
       Vendored.evictionQueue t' = Vendored.evictionQueue (tracking "n1") ++ [podList] /\
       Forall (fun pod => In pod (list_pods [web_1] n1).1 /\ always true pod = true)
         podList) /\
    (r <> None -> IsNodeDrainError r = false ->
     Vendored.evictionQueue t' = Vendored.evictionQueue (tracking "n1")).
Proof.
  eexists _, _. split.
  - vm_compute. reflexivity.
  - apply (Vendored_Drain_effects ex_GetReplicaSet ex_GetDeployment update_ok
             (list_pods [web_1]) (always true) (always true) (always false)
             (tracking "n1") _ n1 _).
    vm_compute. reflexivity.
Defined.

(** * The restart record on the terminators that can be reached *)









(** * Further properties of [Taint] *)

Lemma lo_Assign_label_absorbed (labels : gmap string string) :
  labels !! LabelNodeExcludeBalancers = Some "karpenter" ->
  lo_Assign [labels; {[LabelNodeExcludeBalancers := "karpenter"]}] = labels.
Proof.
  intros H. apply map_eq. intros k. rewrite lo_Assign_label_lookup.
  case_bool_decide as Hk; [subst k; symmetry; exact H | reflexivity].
Qed.

Lemma lo_Assign_label_changes (labels : gmap string string) :
  labels !! LabelNodeExcludeBalancers <> Some "karpenter" ->
  lo_Assign [labels; {[LabelNodeExcludeBalancers := "karpenter"]}] <> labels.
Proof.
  intros H Heq. apply H. rewrite <- Heq at 1. rewrite lo_Assign_label_lookup.
  rewrite bool_decide_eq_true_2; reflexivity.
Qed.

Lemma existsb_find_some {A : Type} (p : A -> bool) (l : list A) :
  existsb p l = true -> exists x, List.find p l = Some x.
Proof.
  intros H. destruct (List.find p l) eqn:F; [eauto|].
  apply find_none_existsb in F. congruence.
Qed.

Lemma existsb_snoc {A : Type} (p : A -> bool) (l : list A) (x : A) :
  p x = true -> existsb p (l ++ [x]) = true.
Proof. intros H. rewrite existsb_app. simpl. rewrite H. apply orb_true_r. Qed.

Lemma set_Labels_same (node : Node) : Part000.set_Labels node (Labels node) = node.
Proof. destruct node; reflexivity. Qed.

Lemma MatchTaint_refl (taint : corev1_Taint) : MatchTaint taint taint = true.
Proof. unfold MatchTaint. rewrite !String.eqb_refl. reflexivity. Qed.

Section Part000Taint.

Variable kubePatch : Node -> Node -> option error.

(** The node as [Taint] leaves it, whatever the patch answers. *)
Lemma Part000_Taint_node (t : Part000.Terminator) (node : Node) (taint : corev1_Taint) :
  let '(_, node', _) := Part000.Taint kubePatch t node taint in
  node_Name node' = node_Name node /\
  Labels node' = lo_Assign [Labels node; {[LabelNodeExcludeBalancers := "karpenter"]}] /\
  Taints node' =
    if existsb (fun x => MatchTaint x taint) (Taints node) then Taints node
    else lo_Reject (Taints node) (fun x => String.eqb (taint_Key x) (taint_Key taint))
         ++ [taint].
Proof.
  unfold Part000.Taint, lo_Find.
  destruct (existsb (fun x => MatchTaint x taint) (Taints node)) eqn:E.
  - destruct (existsb_find_some _ _ E) as [x ->].
    destruct (negb _); [destruct (kubePatch _ _)|]; simpl; auto.
  - apply find_none_existsb in E. rewrite E.
    destruct (negb _); [destruct (kubePatch _ _)|]; simpl; auto.
Qed.

(** A node that carries a matching taint and the label is left alone. *)
Lemma Part000_Taint_settled (t : Part000.Terminator) (node : Node) (taint : corev1_Taint) :
  existsb (fun x => MatchTaint x taint) (Taints node) = true ->
  Labels node !! LabelNodeExcludeBalancers = Some "karpenter" ->
  Part000.Taint kubePatch t node taint = (t, node, None).
Proof.
  intros Hmatch Hlabel. unfold Part000.Taint, lo_Find.
  destruct (existsb_find_some _ _ Hmatch) as [x ->].
  rewrite (lo_Assign_label_absorbed _ Hlabel), set_Labels_same.
  rewrite bool_decide_eq_true_2 by reflexivity. reflexivity.
Qed.

(** Any other node is changed. *)
Lemma Part000_Taint_changes (node : Node) (taint : corev1_Taint) (taints : list corev1_Taint) :
  existsb (fun x => MatchTaint x taint) (Taints node) = false \/
  Labels node !! LabelNodeExcludeBalancers <> Some "karpenter" ->
  taints = (if existsb (fun x => MatchTaint x taint) (Taints node) then Taints node
            else lo_Reject (Taints node) (fun x => String.eqb (taint_Key x) (taint_Key taint))
                 ++ [taint]) ->
  Part000.set_Labels (Part000.set_Taints node taints)
    (lo_Assign [Labels node; {[LabelNodeExcludeBalancers := "karpenter"]}]) <> node.
Proof.
  intros Hcase -> Heq. destruct Hcase as [Hnone|Hlabel].
  - apply (f_equal Taints) in Heq. simpl in Heq. rewrite Hnone in Heq.
    assert (existsb (fun x => MatchTaint x taint) (Taints node) = true); [|congruence].
    rewrite <- Heq. apply existsb_snoc, MatchTaint_refl.
  - apply (f_equal Labels) in Heq. simpl in Heq.
    exact (lo_Assign_label_changes _ Hlabel Heq).
Qed.

(** X25. [Taint] of the second source sends a patch exactly when the node does
    not yet carry both a taint that matches the desired one by key and effect
    and the load-balancer-exclusion label with the value [karpenter].  It then
    sends one patch, for a node that differs from the stored one, and returns
    what the patch answers; otherwise it sends nothing, leaves the node as it
    is and returns no error. *)
Theorem Taint_patches_iff_changed (t : Part000.Terminator) (node : Node)
    (taint : corev1_Taint) :
  let '(t', node', err) := Part000.Taint kubePatch t node taint in
  if existsb (fun x => MatchTaint x taint) (Taints node)
     && bool_decide (Labels node !! LabelNodeExcludeBalancers = Some "karpenter")
  then t' = t /\ node' = node /\ err = None
  else Part000.kubeClient t' = Part000.kubeClient t ++ [PatchNode node' node]
       /\ Part000.evictionQueue t' = Part000.evictionQueue t
       /\ node' <> node
       /\ err = kubePatch node' node.
Proof.
  destruct (existsb (fun x => MatchTaint x taint) (Taints node)) eqn:Hmatch;
    [case_bool_decide as Hlabel|]; cbn [andb].
  - rewrite (Part000_Taint_settled t node taint Hmatch Hlabel). repeat split.
  - unfold Part000.Taint, lo_Find.
    destruct (existsb_find_some _ _ Hmatch) as [x ->].
    match goal with |- context [bool_decide (?n = node)] => set (node' := n) end.
    assert (Hne : node' <> node).
    { apply (Part000_Taint_changes node taint (Taints node)); [right; exact Hlabel|].
      rewrite Hmatch. reflexivity. }
    rewrite bool_decide_eq_false_2 by exact Hne. cbn [negb].
    destruct (kubePatch node' node) eqn:Ep; repeat split; auto.
  - unfold Part000.Taint, lo_Find.
    pose proof Hmatch as Hfind. apply find_none_existsb in Hfind. rewrite Hfind.
    match goal with |- context [bool_decide (?n = node)] => set (node' := n) end.
    assert (Hne : node' <> node).
    { apply (Part000_Taint_changes node taint); [left; exact Hmatch|].
      rewrite Hmatch. reflexivity. }
    rewrite bool_decide_eq_false_2 by exact Hne. cbn [negb].
    destruct (kubePatch node' node) eqn:Ep; repeat split; auto.
Qed.

(** X26. [Taint] of the second source is idempotent: on the node as a first
    call leaves it (whatever the patch of the first call answered), a second
    call with the same taint sends nothing, leaves the node as it is and
    returns no error. *)
Theorem Taint_twice (t : Part000.Terminator) (node : Node) (taint : corev1_Taint) :
  let '(t1, node1, _) := Part000.Taint kubePatch t node taint in
  Part000.Taint kubePatch t1 node1 taint = (t1, node1, None).
Proof.
  pose proof (Part000_Taint_node t node taint) as Hnode.
  destruct (Part000.Taint kubePatch t node taint) as [[t1 node1] err1].
  destruct Hnode as (_ & Hlabels & Htaints).
  apply Part000_Taint_settled.
  - rewrite Htaints.
    destruct (existsb (fun x => MatchTaint x taint) (Taints node)) eqn:E; [exact E|].
    apply existsb_snoc, MatchTaint_refl.
  - rewrite Hlabels, lo_Assign_label_lookup.
    rewrite bool_decide_eq_true_2; reflexivity.
Qed.

End Part000Taint.

Section VendoredTaint.

Variable kubePatch : Node -> Node -> option error.
Variable IsDisruptingTaint : corev1_Taint -> bool.
Variable DisruptionTaintKey : string.
Variable DisruptionNoScheduleTaint : corev1_Taint.

Local Abbreviation Taint :=
  (Vendored.Taint kubePatch IsDisruptingTaint DisruptionTaintKey DisruptionNoScheduleTaint).

Lemma Vendored_set_Labels_same (node : Node) : Vendored.set_Labels node (Labels node) = node.
Proof. destruct node; reflexivity. Qed.

(** The node as the vendored [Taint] leaves it, whatever the patch answers. *)
Lemma Vendored_Taint_node (t : Vendored.Terminator) (node : Node) :
  let '(_, node', _) := Taint t node in
  node_Name node' = node_Name node /\
  Labels node' = lo_Assign [Labels node; {[LabelNodeExcludeBalancers := "karpenter"]}] /\
  Taints node' =
    if existsb IsDisruptingTaint (Taints node) then Taints node
    else lo_Reject (Taints node) (fun x => String.eqb (taint_Key x) DisruptionTaintKey)
         ++ [DisruptionNoScheduleTaint].
Proof.
  unfold Vendored.Taint, lo_Find.
  destruct (existsb IsDisruptingTaint (Taints node)) eqn:E.
  - destruct (existsb_find_some _ _ E) as [x Hx].
    change (fun t0 : corev1_Taint => IsDisruptingTaint t0) with IsDisruptingTaint.
    rewrite Hx.
    destruct (negb _); [destruct (kubePatch _ _)|]; simpl; auto.
  - apply find_none_existsb in E.
    change (fun t0 : corev1_Taint => IsDisruptingTaint t0) with IsDisruptingTaint.
    rewrite E.
    destruct (negb _); [destruct (kubePatch _ _)|]; simpl; auto.
Qed.

(** A node that carries a disrupting taint and the label is left alone. *)
Lemma Vendored_Taint_settled (t : Vendored.Terminator) (node : Node) :
  existsb IsDisruptingTaint (Taints node) = true ->
  Labels node !! LabelNodeExcludeBalancers = Some "karpenter" ->
  Taint t node = (t, node, None).
Proof.
  intros Hmatch Hlabel. unfold Vendored.Taint, lo_Find.
  destruct (existsb_find_some _ _ Hmatch) as [x Hx].
  change (fun t0 : corev1_Taint => IsDisruptingTaint t0) with IsDisruptingTaint.
  rewrite Hx.
  rewrite (lo_Assign_label_absorbed _ Hlabel), Vendored_set_Labels_same.
  rewrite bool_decide_eq_true_2 by reflexivity. reflexivity.
Qed.

(** X27. The vendored [Taint], given that the taint it appends is one its own
    test accepts and carries the disruption key: afterwards the node carries a
    disrupting taint and the load-balancer-exclusion label, its other labels
    are as before, and if it carried no disrupting taint before, the appended
    one is its only taint of the disruption key while the taints of other keys
    are as before; if it carried one, its taints are untouched. *)
Theorem Vendored_Taint_postcondition (t : Vendored.Terminator) (node : Node) :
  IsDisruptingTaint DisruptionNoScheduleTaint = true ->
  taint_Key DisruptionNoScheduleTaint = DisruptionTaintKey ->
  let same_key := fun x => String.eqb (taint_Key x) DisruptionTaintKey in
  let '(_, node', _) := Taint t node in
  existsb IsDisruptingTaint (Taints node') = true /\
  Labels node' !! LabelNodeExcludeBalancers = Some "karpenter" /\
  (forall k, k <> LabelNodeExcludeBalancers -> Labels node' !! k = Labels node !! k) /\
  if existsb IsDisruptingTaint (Taints node)
  then Taints node' = Taints node
  else List.filter same_key (Taints node') = [DisruptionNoScheduleTaint] /\
       List.filter (fun x => negb (same_key x)) (Taints node') =
       List.filter (fun x => negb (same_key x)) (Taints node).
Proof.
  intros Hdisrupting Hkey same_key.
  pose proof (Vendored_Taint_node t node) as Hnode.
  destruct (Taint t node) as [[t' node'] err].
  destruct Hnode as (_ & Hlabels & Htaints).
  rewrite Hlabels, Htaints. split; [|split; [|split]].
  - destruct (existsb IsDisruptingTaint (Taints node)) eqn:E; [exact E|].
    apply existsb_snoc. exact Hdisrupting.
  - rewrite lo_Assign_label_lookup. rewrite bool_decide_eq_true_2; reflexivity.
  - intros k Hk. rewrite lo_Assign_label_lookup.
    rewrite bool_decide_eq_false_2 by exact Hk. reflexivity.
  - destruct (existsb IsDisruptingTaint (Taints node)); [reflexivity|].
    rewrite !List.filter_app. subst same_key. cbn [List.filter].
    rewrite filter_key_reject, filter_other_reject, filter_idem.
    rewrite Hkey, String.eqb_refl. simpl. rewrite app_nil_r. split; reflexivity.
Qed.

(** X28. The vendored [Taint] is idempotent, given that the taint it appends is
    one its own test accepts: on the node as a first call leaves it (whatever
    the patch of the first call answered), a second call sends nothing, leaves
    the node as it is and returns no error. *)
Theorem Vendored_Taint_twice (t : Vendored.Terminator) (node : Node) :
  IsDisruptingTaint DisruptionNoScheduleTaint = true ->
  let '(t1, node1, _) := Taint t node in
  Taint t1 node1 = (t1, node1, None).
Proof.
  intros Hdisrupting.
  pose proof (Vendored_Taint_node t node) as Hnode.
  destruct (Taint t node) as [[t1 node1] err1].
  destruct Hnode as (_ & Hlabels & Htaints).
  apply Vendored_Taint_settled.
  - rewrite Htaints.
    destruct (existsb IsDisruptingTaint (Taints node)) eqn:E; [exact E|].
    apply existsb_snoc. exact Hdisrupting.
  - rewrite Hlabels, lo_Assign_label_lookup.
    rewrite bool_decide_eq_true_2; reflexivity.
Qed.

End VendoredTaint.

Lemma Vendored_Taint_postcondition_witness :
  let same_key := fun x => String.eqb (taint_Key x) ex_DisruptionTaintKey in
  let '(_, node', _) :=
    Vendored.Taint patch_ok ex_IsDisruptingTaint ex_DisruptionTaintKey
      ex_DisruptionNoScheduleTaint Vendored.NewTerminator n2 in
  existsb ex_IsDisruptingTaint (Taints node') = true /\
  Labels node' !! LabelNodeExcludeBalancers = Some "karpenter" /\
  (forall k, k <> LabelNodeExcludeBalancers -> Labels node' !! k = Labels n2 !! k) /\
  if existsb ex_IsDisruptingTaint (Taints n2)
  then Taints node' = Taints n2
  else List.filter same_key (Taints node') = [ex_DisruptionNoScheduleTaint] /\
       List.filter (fun x => negb (same_key x)) (Taints node') =
       List.filter (fun x => negb (same_key x)) (Taints n2).
Proof.
  apply (Vendored_Taint_postcondition patch_ok ex_IsDisruptingTaint ex_DisruptionTaintKey
           ex_DisruptionNoScheduleTaint Vendored.NewTerminator n2).
  - reflexivity.
  - reflexivity.
Defined.

Lemma Vendored_Taint_twice_witness :
  let '(t1, node1, _) :=
    Vendored.Taint patch_ok ex_IsDisruptingTaint ex_DisruptionTaintKey
      ex_DisruptionNoScheduleTaint Vendored.NewTerminator n2 in
  Vendored.Taint patch_ok ex_IsDisruptingTaint ex_DisruptionTaintKey
    ex_DisruptionNoScheduleTaint t1 node1 = (t1, node1, None).
Proof.
  apply (Vendored_Taint_twice patch_ok ex_IsDisruptingTaint ex_DisruptionTaintKey
           ex_DisruptionNoScheduleTaint Vendored.NewTerminator n2).
  reflexivity.
Defined.
